(** * MacroCam: the meal ledger, its aggregation and the estimation proxy

    A shallow embedding of the three source files of the repository:
    - [src/index.tsx]        the HomeScreen of the client (draft, save, delete,
                             photo estimation, hydration from storage);
    - [src/unnamed/part_001] the WeekScreen of the client (last seven days,
                             per-day and weekly totals);
    - [src/unnamed/part_000] the Express server (GET /health, POST /estimate).

    The first half models the part of the JavaScript platform the program
    relies on (strings, Number, parseInt, JSON, Date); the second half is the
    program itself, followed by the statements proved about it. *)

From Stdlib Require Import Ascii String.
From Stdlib Require Import ZArith List Bool Lia DecimalPos DecimalN.
Import ListNotations.
Local Open Scope Z_scope.

(** * JavaScript strings: sequences of UTF-16 code units *)

Definition jsstring := list N.

Definition ch (a : ascii) : N := N_of_ascii a.

Definition js (s : string) : jsstring := map N_of_ascii (list_ascii_of_string s).

(** A literal in which the apostrophe stands for the double quote (code unit 34). *)
Definition jsq (s : string) : jsstring :=
  map (fun c => if N.eqb c 39 then 34%N else c) (js s).

Arguments ch a%_char.
Arguments jsq s%_string.
Arguments js s%_string.

Fixpoint str_eqb (s t : jsstring) : bool :=
  match s, t with
  | [], [] => true
  | c :: s', d :: t' => N.eqb c d && str_eqb s' t'
  | _, _ => false
  end.

(** WhiteSpace and LineTerminator code points of ECMAScript (StrWhiteSpaceChar). *)
Definition isWhiteSpace (c : N) : bool :=
  existsb (N.eqb c)
    [9; 10; 11; 12; 13; 32; 160; 5760; 8232; 8233; 8239; 8287; 12288; 65279]%N
  || (N.leb 8192 c && N.leb c 8202).

Fixpoint trimStart (s : jsstring) : jsstring :=
  match s with
  | c :: s' => if isWhiteSpace c then trimStart s' else s
  | [] => []
  end.

Definition trimEnd (s : jsstring) : jsstring := rev (trimStart (rev s)).
Definition trim (s : jsstring) : jsstring := trimEnd (trimStart s).

Definition isDigit (c : N) : bool := N.leb 48 c && N.leb c 57.
Definition digitVal (c : N) : Z := Z.of_N c - 48.

(** * Number values: IEEE 754 binary64 *)

(** A finite Number other than zero is (-1)^neg * m * 2^e with [m] odd, so that
    equal values are equal terms; [round64] brings every result into the 53
    bits of an IEEE double, subnormal numbers and overflow included. *)
Inductive Number : Type :=
| NaN
| Infinity (neg : bool)
| Zero (neg : bool)
| Finite (neg : bool) (m : positive) (e : Z).

Fixpoint strip (m : positive) (e : Z) : positive * Z :=
  match m with
  | xO p => strip p (e + 1)
  | _ => (m, e)
  end.

Definition mkFinite (neg : bool) (m : positive) (e : Z) : Number :=
  let (m', e') := strip m e in Finite neg m' e'.

(** [round64 neg p q]: the Number nearest to (-1)^neg * p / q, ties to even. *)
Definition round64 (neg : bool) (p q : positive) : Number :=
  let e0 := Z.log2 (Zpos p) - Z.log2 (Zpos q) in
  let ge := if 0 <=? e0 then Zpos q * 2 ^ e0 <=? Zpos p
            else Zpos q <=? Zpos p * 2 ^ (- e0) in
  let ex := if ge then e0 else e0 - 1 in
  let u := Z.max ex (-1022) - 52 in
  let num := if 0 <=? u then Zpos p else Zpos p * 2 ^ (- u) in
  let den := if 0 <=? u then Zpos q * 2 ^ u else Zpos q in
  let n := num / den in
  let r := num mod den in
  let n' := if (den <? 2 * r) || ((den =? 2 * r) && Z.odd n) then n + 1 else n in
  match n' with
  | Zpos m => if 1024 <=? Z.log2 n' + u then Infinity neg else mkFinite neg m u
  | _ => Zero neg
  end.

Definition ofZ (z : Z) : Number :=
  match z with
  | Z0 => Zero false
  | Zpos p => round64 false p 1
  | Zneg p => round64 true p 1
  end.

Definition isNaN (x : Number) : bool :=
  match x with NaN => true | _ => false end.

(** ToBoolean on a Number: NaN, +0 and -0 are falsy. *)
Definition truthyNumber (x : Number) : bool :=
  match x with NaN | Zero _ => false | _ => true end.

(** * parseInt(string, 10) *)

Fixpoint digitsPrefix (s : jsstring) : jsstring :=
  match s with
  | c :: s' => if isDigit c then c :: digitsPrefix s' else []
  | [] => []
  end.

Definition digitsValue (s : jsstring) : Z :=
  fold_left (fun acc c => 10 * acc + digitVal c) s 0.

Definition takeSign (s : jsstring) : bool * jsstring :=
  match s with
  | c :: s' => if N.eqb c (ch "-") then (true, s')
               else if N.eqb c (ch "+") then (false, s') else (false, s)
  | [] => (false, [])
  end.

(** The decimal digits parseInt reads: after the leading white space and one
    optional sign, up to the first code unit that is not a digit. *)
Definition leadingDigits (input : jsstring) : jsstring :=
  digitsPrefix (snd (takeSign (trimStart input))).

Definition parseInt (input : jsstring) : Number :=
  let neg := fst (takeSign (trimStart input)) in
  match leadingDigits input with
  | [] => NaN
  | z => match digitsValue z with
         | Zpos p => round64 neg p 1
         | _ => Zero neg
         end
  end.

(** Exact value of a finite Number as a fraction num / 2^k (k >= 0). *)
Definition numer (m : positive) (e : Z) : Z := if 0 <=? e then Zpos m * 2 ^ e else Zpos m.
Definition denomLog (e : Z) : Z := if 0 <=? e then 0 else - e.

Definition signed (neg : bool) (z : Z) : Z := if neg then - z else z.

(** Nearest Number to the integer ratio [z / 2^k]; a zero result takes the sign [zneg]. *)
Definition roundDyadic (zneg : bool) (z k : Z) : Number :=
  match z, 2 ^ k with
  | Zpos p, Zpos q => round64 false p q
  | Zneg p, Zpos q => round64 true p q
  | _, _ => Zero zneg
  end.

(** Number::add *)
Definition Nadd (x y : Number) : Number :=
  match x, y with
  | NaN, _ | _, NaN => NaN
  | Infinity a, Infinity b => if Bool.eqb a b then x else NaN
  | Infinity _, _ => x
  | _, Infinity _ => y
  | Zero a, Zero b => Zero (a && b)
  | Zero _, _ => y
  | _, Zero _ => x
  | Finite a m1 e1, Finite b m2 e2 =>
      let k := Z.max (denomLog e1) (denomLog e2) in
      let v1 := signed a (numer m1 e1) * 2 ^ (k - denomLog e1) in
      let v2 := signed b (numer m2 e2) * 2 ^ (k - denomLog e2) in
      roundDyadic false (v1 + v2) k
  end.

(** Math.round: nearest integer, ties towards +Infinity; the sign of a zero result
    is the sign of the argument. *)
Definition Math_round (x : Number) : Number :=
  match x with
  | Finite neg m e =>
      if 0 <=? e then x
      else
        let z := (2 * signed neg (Zpos m) + 2 ^ (- e)) / 2 ^ (- e + 1) in
        match z with
        | Z0 => Zero neg
        | Zpos p => mkFinite false p 0
        | Zneg p => mkFinite true p 0
        end
  | _ => x
  end.


(** * Number(string): StringToNumber *)

Fixpoint span (f : N -> bool) (s : jsstring) : jsstring * jsstring :=
  match s with
  | c :: s' => if f c then let (a, b) := span f s' in (c :: a, b) else ([], s)
  | [] => ([], [])
  end.

Definition isHexDigit (c : N) : bool :=
  isDigit c || (N.leb 65 c && N.leb c 70) || (N.leb 97 c && N.leb c 102).
Definition hexVal (c : N) : Z :=
  if isDigit c then Z.of_N c - 48
  else if N.leb 97 c then Z.of_N c - 87 else Z.of_N c - 55.
Definition isOctDigit (c : N) : bool := N.leb 48 c && N.leb c 55.
Definition isBinDigit (c : N) : bool := N.leb 48 c && N.leb c 49.

Definition radixValue (r : Z) (s : jsstring) : Z :=
  fold_left (fun acc c => r * acc + hexVal c) s 0.

Definition ofMagnitude (neg : bool) (num den : Z) : Number :=
  match num, den with
  | Zpos p, Zpos q => round64 neg p q
  | _, _ => Zero neg
  end.

(** NonDecimalIntegerLiteral: 0x.., 0o.., 0b.. (no sign). *)
Definition nonDecimal (s : jsstring) : option Number :=
  match s with
  | z :: c :: ds =>
      let lit (ok : N -> bool) (r : Z) :=
        match ds with
        | [] => Some NaN
        | _ => if forallb ok ds then Some (ofMagnitude false (radixValue r ds) 1)
               else Some NaN
        end in
      if negb (N.eqb z (ch "0")) then None
      else if N.eqb c (ch "x") || N.eqb c (ch "X") then lit isHexDigit 16
      else if N.eqb c (ch "o") || N.eqb c (ch "O") then lit isOctDigit 8
      else if N.eqb c (ch "b") || N.eqb c (ch "B") then lit isBinDigit 2
      else None
  | _ => None
  end.

(** ExponentPart_opt followed by the end of the literal. *)
Definition exponentPart (s : jsstring) : option Z :=
  match s with
  | [] => Some 0
  | c :: s' =>
      if N.eqb c (ch "e") || N.eqb c (ch "E") then
        let (eneg, s2) := takeSign s' in
        let (ds, rest) := span isDigit s2 in
        match ds, rest with
        | _ :: _, [] => Some (signed eneg (digitsValue ds))
        | _, _ => None
        end
      else None
  end.

Definition StringToNumber (input : jsstring) : Number :=
  let s := trim input in
  match s with
  | [] => Zero false
  | _ =>
    match nonDecimal s with
    | Some x => x
    | None =>
      let (neg, s1) := takeSign s in
      if str_eqb s1 (js "Infinity") then Infinity neg
      else
        let (d1, r1) := span isDigit s1 in
        let (d2, r2) := match r1 with
                        | c :: r1' => if N.eqb c (ch ".") then span isDigit r1' else ([], r1)
                        | [] => ([], [])
                        end in
        match d1 ++ d2 with
        | [] => NaN
        | ds =>
          match exponentPart r2 with
          | None => NaN
          | Some ex =>
              let e10 := ex - Z.of_nat (length d2) in
              if 0 <=? e10 then ofMagnitude neg (digitsValue ds * 10 ^ e10) 1
              else ofMagnitude neg (digitsValue ds) (10 ^ (- e10))
          end
        end
    end
  end.


(** * Number to string *)

Fixpoint uintChars (u : Decimal.uint) : jsstring :=
  match u with
  | Decimal.Nil => []
  | Decimal.D0 u => 48%N :: uintChars u
  | Decimal.D1 u => 49%N :: uintChars u
  | Decimal.D2 u => 50%N :: uintChars u
  | Decimal.D3 u => 51%N :: uintChars u
  | Decimal.D4 u => 52%N :: uintChars u
  | Decimal.D5 u => 53%N :: uintChars u
  | Decimal.D6 u => 54%N :: uintChars u
  | Decimal.D7 u => 55%N :: uintChars u
  | Decimal.D8 u => 56%N :: uintChars u
  | Decimal.D9 u => 57%N :: uintChars u
  end.

(** Decimal numeral of a natural number, without leading zeros. *)
Definition decimal (n : N) : jsstring := uintChars (N.to_uint n).

(** Decimal numeral of an integer, as [String(z)] prints it for a safe integer. *)
Definition decimalZ (z : Z) : jsstring :=
  match z with
  | Zneg p => ch "-" :: decimal (Npos p)
  | _ => decimal (Z.to_N z)
  end.

Definition Number_eqb (x y : Number) : bool :=
  match x, y with
  | NaN, NaN => true
  | Infinity a, Infinity b | Zero a, Zero b => Bool.eqb a b
  | Finite a m e, Finite b m' e' => Bool.eqb a b && Pos.eqb m m' && Z.eqb e e'
  | _, _ => false
  end.

(** The integer n with 10^(n-1) <= num/den < 10^n. *)
Fixpoint adjust10 (fuel : nat) (num den n : Z) : Z :=
  match fuel with
  | O => n
  | S f =>
      let below (k : Z) := if 0 <=? k then num <? den * 10 ^ k
                           else num * 10 ^ (- k) <? den in
      if below n then (if below (n - 1) then adjust10 f num den (n - 1) else n)
      else adjust10 f num den (n + 1)
  end.

Definition magnitude10 (num den : Z) : Z :=
  adjust10 8 num den ((Z.log2 num - Z.log2 den) * 30103 / 100000).

(** The candidate significand with [k] digits for the value num/den of
    magnitude [n], when one of the two neighbours rounds to [x]. *)
Definition candidate (x : Number) (num den n k : Z) : option (Z * Z) :=
  let sh := k - n in
  let tn := if 0 <=? sh then num * 10 ^ sh else num in
  let td := if 0 <=? sh then den else den * 10 ^ (- sh) in
  let lo := tn / td in
  let hi := lo + 1 in
  let back (s : Z) := if 0 <=? sh then ofMagnitude false s (10 ^ sh)
                      else ofMagnitude false (s * 10 ^ (- sh)) 1 in
  let okLo := Number_eqb (back lo) x in
  let okHi := Number_eqb (back hi) x in
  let pickHi := if hi =? 10 ^ k then (10 ^ (k - 1), n + 1) else (hi, n) in
  match okLo, okHi with
  | true, true =>
      let d := 2 * tn - (2 * lo + 1) * td in
      if d <? 0 then Some (lo, n)
      else if 0 <? d then Some pickHi
      else if Z.even lo then Some (lo, n) else Some pickHi
  | true, false => Some (lo, n)
  | false, true => Some pickHi
  | false, false => None
  end.

Fixpoint shortest (fuel : nat) (x : Number) (num den n k : Z) : Z * Z * Z :=
  match fuel with
  | O => (num * 10 ^ (17 - n) / den, 17, n)
  | S f =>
      match candidate x num den n k with
      | Some (s, n') => (s, k, n')
      | None => shortest f x num den n (k + 1)
      end
  end.

Definition zeros (n : Z) : jsstring := repeat 48%N (Z.to_nat n).

(** Number::toString(x) with radix 10. *)
Definition NumberToString (x : Number) : jsstring :=
  match x with
  | NaN => js "NaN"
  | Infinity neg => (if neg then js "-" else []) ++ js "Infinity"
  | Zero _ => js "0"
  | Finite neg m e =>
      let num := numer m e in
      let den := 2 ^ denomLog e in
      let '(s, k, n) := shortest 17 (Finite false m e) num den (magnitude10 num den) 1 in
      let ds := decimal (Z.to_N s) in
      let body :=
        if (k <=? n) && (n <=? 21) then ds ++ zeros (n - k)
        else if (0 <? n) && (n <=? 21) then
          firstn (Z.to_nat n) ds ++ js "." ++ skipn (Z.to_nat n) ds
        else if (-6 <? n) && (n <=? 0) then js "0." ++ zeros (- n) ++ ds
        else
          let ex := (if 0 <=? n - 1 then js "+" else js "-") ++ decimal (Z.to_N (Z.abs (n - 1))) in
          match ds with
          | d :: _ :: _ => d :: js "." ++ skipn 1 ds ++ js "e" ++ ex
          | _ => ds ++ js "e" ++ ex
          end in
      (if neg then js "-" else []) ++ body
  end.


(** Digits 0-9a-z of Number.prototype.toString(36). *)
Definition digit36 (d : Z) : N := if d <? 10 then Z.to_N (d + 48) else Z.to_N (d + 87).

Fixpoint intDigits36 (fuel : nat) (n : Z) (acc : jsstring) : jsstring :=
  match fuel with
  | O => acc
  | S f => if n <? 36 then digit36 n :: acc
           else intDigits36 f (n / 36) (digit36 (n mod 36) :: acc)
  end.

Fixpoint fracDigits36 (fuel : nat) (r den : Z) : jsstring :=
  match fuel with
  | O => []
  | S f => if r =? 0 then []
           else digit36 (36 * r / den) :: fracDigits36 f (36 * r mod den) den
  end.

(** Number.prototype.toString(36).  ECMAScript leaves the digits of a radix
    other than 10 to the engine.  An integer below 2^53 in magnitude prints as
    its base-36 numeral in every engine; for every other finite Number (one
    with a fractional part, or too large to hold every unit) the text is the
    engine's choice, [radix36]: engines stop at different digits. *)
Definition toString36 (radix36 : Number -> jsstring) (x : Number) : jsstring :=
  match x with
  | NaN => js "NaN"
  | Infinity neg => (if neg then js "-" else []) ++ js "Infinity"
  | Zero _ => js "0"
  | Finite neg m e =>
      if (0 <=? e) && (numer m e <? 2 ^ 53)
      then (if neg then js "-" else [])
           ++ intDigits36 (S (Z.to_nat (Z.log2 (numer m e)))) (numer m e) []
      else radix36 x
  end.

(** An engine that prints every digit of the expansion, which is finite for a
    binary fraction.  Real engines print a prefix of it, rounded. *)
Definition everyDigit36 (x : Number) : jsstring :=
  match x with
  | Finite neg m e =>
      let num := numer m e in
      let den := 2 ^ denomLog e in
      let ip := num / den in
      let fr := num mod den in
      (if neg then js "-" else [])
      ++ intDigits36 (S (Z.to_nat (Z.log2 ip))) ip []
      ++ (if fr =? 0 then [] else ch "." :: fracDigits36 (Z.to_nat (denomLog e)) fr den)
  | _ => []
  end.

(** * JSON values and JSON.parse *)

#[local] Set Warnings "-register-all".

Inductive JSON : Type :=
| JNull
| JBool (b : bool)
| JNum (x : Number)
| JStr (s : jsstring)
| JArr (items : list JSON)
| JObj (fields : list (jsstring * JSON)).

Fixpoint getProp (k : jsstring) (fields : list (jsstring * JSON)) : option JSON :=
  match fields with
  | [] => None
  | (k', v) :: rest => if str_eqb k k' then Some v else getProp k rest
  end.

(** An array index: the canonical numeral of an integer from 0 to 2^32 - 2. *)
Definition arrayIndex (k : jsstring) : option Z :=
  match k with
  | [] => None
  | c :: r =>
      if forallb isDigit k
         && (negb (N.eqb c 48) || match r with [] => true | _ => false end)
      then if digitsValue k <? 2 ^ 32 - 1 then Some (digitsValue k) else None
      else None
  end.

Fixpoint replaceProp (k : jsstring) (v : JSON) (fields : list (jsstring * JSON)) :=
  match fields with
  | [] => []
  | (k', v') :: rest =>
      if str_eqb k k' then (k', v) :: rest else (k', v') :: replaceProp k v rest
  end.

(** A new array index goes before the first key that is no smaller index. *)
Fixpoint insertIndex (n : Z) (k : jsstring) (v : JSON) (fields : list (jsstring * JSON)) :=
  match fields with
  | [] => [(k, v)]
  | (k', v') :: rest =>
      match arrayIndex k' with
      | Some n' => if n' <? n then (k', v') :: insertIndex n k v rest
                   else (k, v) :: fields
      | None => (k, v) :: fields
      end
  end.

(** Defining a property (CreateDataProperty), the fields being kept in the
    order in which JavaScript lists the keys of an object: the array indices
    in ascending order, then the other keys in the order of their creation.
    An existing key keeps its place and takes the new value. *)
Definition setProp (k : jsstring) (v : JSON) (fields : list (jsstring * JSON)) :=
  match getProp k fields with
  | Some _ => replaceProp k v fields
  | None =>
      match arrayIndex k with
      | Some n => insertIndex n k v fields
      | None => fields ++ [(k, v)]
      end
  end.

Definition isJsonWs (c : N) : bool :=
  N.eqb c 32 || N.eqb c 9 || N.eqb c 10 || N.eqb c 13.

Fixpoint skipWs (s : jsstring) : jsstring :=
  match s with
  | c :: s' => if isJsonWs c then skipWs s' else s
  | [] => []
  end.

Fixpoint dropPrefix (p s : jsstring) : option jsstring :=
  match p, s with
  | [], _ => Some s
  | a :: p', b :: s' => if N.eqb a b then dropPrefix p' s' else None
  | _ :: _, [] => None
  end.

(** JSONString characters after the opening quote. *)
Fixpoint parseChars (s : jsstring) (acc : jsstring) : option (jsstring * jsstring) :=
  match s with
  | [] => None
  | c :: r =>
      if N.eqb c 34 then Some (rev acc, r)
      else if N.ltb c 32 then None
      else if N.eqb c (ch "\") then
        match r with
        | e :: r' =>
            let simple (u : N) := parseChars r' (u :: acc) in
            if N.eqb e 34 then simple 34%N
            else if N.eqb e (ch "\") then simple 92%N
            else if N.eqb e (ch "/") then simple 47%N
            else if N.eqb e (ch "b") then simple 8%N
            else if N.eqb e (ch "f") then simple 12%N
            else if N.eqb e (ch "n") then simple 10%N
            else if N.eqb e (ch "r") then simple 13%N
            else if N.eqb e (ch "t") then simple 9%N
            else if N.eqb e (ch "u") then
              match r' with
              | a :: b :: c' :: d :: r'' =>
                  if forallb isHexDigit [a; b; c'; d]
                  then parseChars r'' (Z.to_N (radixValue 16 [a; b; c'; d]) :: acc)
                  else None
              | _ => None
              end
            else None
        | [] => None
        end
      else parseChars r (c :: acc)
  end.

(** JSONNumber: an optional minus, an integer part without a leading zero,
    an optional fraction and an optional exponent. *)
Definition parseNumber (s : jsstring) : option (Number * jsstring) :=
  let (neg, s1) := match s with
                   | c :: s' => if N.eqb c (ch "-") then (true, s') else (false, s)
                   | [] => (false, [])
                   end in
  let (d1, r1) := match s1 with
                  | c :: s' => if N.eqb c (ch "0") then ([c], s') else span isDigit s1
                  | [] => ([], [])
                  end in
  match d1 with
  | [] => None
  | _ =>
    let frac := match r1 with
                | c :: r1' =>
                    if N.eqb c (ch ".") then
                      match span isDigit r1' with
                      | ([], _) => None
                      | (d2, r2) => Some (d2, r2)
                      end
                    else Some ([], r1)
                | [] => Some ([], [])
                end in
    match frac with
    | None => None
    | Some (d2, r2) =>
      let expo := match r2 with
                  | c :: r2' =>
                      if N.eqb c (ch "e") || N.eqb c (ch "E") then
                        let (eneg, r3) := takeSign r2' in
                        match span isDigit r3 with
                        | ([], _) => None
                        | (d3, r4) => Some (signed eneg (digitsValue d3), r4)
                        end
                      else Some (0, r2)
                  | [] => Some (0, [])
                  end in
      match expo with
      | None => None
      | Some (ex, rest) =>
          let e10 := ex - Z.of_nat (length d2) in
          let v := if 0 <=? e10 then ofMagnitude neg (digitsValue (d1 ++ d2) * 10 ^ e10) 1
                   else ofMagnitude neg (digitsValue (d1 ++ d2)) (10 ^ (- e10)) in
          Some (v, rest)
      end
    end
  end.

(** One level of each of the three productions, over the parsers of the
    levels below. *)
Definition ParseResult := option (JSON * jsstring).

Definition valueStep (elements : jsstring -> list JSON -> ParseResult)
           (members : jsstring -> list (jsstring * JSON) -> ParseResult)
           (s : jsstring) : ParseResult :=
  match skipWs s with
  | [] => None
  | c :: r =>
      if N.eqb c (ch "{") then
        match skipWs r with
        | d :: r' => if N.eqb d (ch "}") then Some (JObj [], r')
                     else members (d :: r') []
        | [] => None
        end
      else if N.eqb c (ch "[") then
        match skipWs r with
        | d :: r' => if N.eqb d (ch "]") then Some (JArr [], r')
                     else elements (d :: r') []
        | [] => None
        end
      else if N.eqb c 34 then
        match parseChars r [] with
        | Some (str, r') => Some (JStr str, r')
        | None => None
        end
      else if N.eqb c (ch "t") then
        option_map (pair (JBool true)) (dropPrefix (js "rue") r)
      else if N.eqb c (ch "f") then
        option_map (pair (JBool false)) (dropPrefix (js "alse") r)
      else if N.eqb c (ch "n") then
        option_map (pair JNull) (dropPrefix (js "ull") r)
      else
        match parseNumber (c :: r) with
        | Some (x, r') => Some (JNum x, r')
        | None => None
        end
  end.

Definition elementsStep (value : jsstring -> ParseResult)
           (elements : jsstring -> list JSON -> ParseResult)
           (s : jsstring) (acc : list JSON) : ParseResult :=
  match value s with
  | Some (v, r) =>
      match skipWs r with
      | c :: r' => if N.eqb c (ch ",") then elements r' (v :: acc)
                   else if N.eqb c (ch "]") then Some (JArr (rev (v :: acc)), r')
                   else None
      | [] => None
      end
  | None => None
  end.

Definition membersStep (value : jsstring -> ParseResult)
           (members : jsstring -> list (jsstring * JSON) -> ParseResult)
           (s : jsstring) (acc : list (jsstring * JSON)) : ParseResult :=
  match skipWs s with
  | q :: r =>
      if negb (N.eqb q 34) then None
      else
        match parseChars r [] with
        | Some (k, r1) =>
            match skipWs r1 with
            | c :: r2 =>
                if negb (N.eqb c (ch ":")) then None
                else
                  match value r2 with
                  | Some (v, r3) =>
                      match skipWs r3 with
                      | d :: r4 =>
                          if N.eqb d (ch ",") then members r4 (setProp k v acc)
                          else if N.eqb d (ch "}") then Some (JObj (setProp k v acc), r4)
                          else None
                      | [] => None
                      end
                  | None => None
                  end
            | [] => None
            end
        | None => None
        end
  | [] => None
  end.

(** The recursive descent, by levels of nesting and of sequence: [fuel] bounds
    the number of levels. *)
Fixpoint parseValue (fuel : nat) (s : jsstring) {struct fuel} : ParseResult :=
  match fuel with
  | O => None
  | S f => valueStep (parseElements f) (parseMembers f) s
  end
with parseElements (fuel : nat) (s : jsstring) (acc : list JSON) {struct fuel}
  : ParseResult :=
  match fuel with
  | O => None
  | S f => elementsStep (parseValue f) (parseElements f) s acc
  end
with parseMembers (fuel : nat) (s : jsstring) (acc : list (jsstring * JSON)) {struct fuel}
  : ParseResult :=
  match fuel with
  | O => None
  | S f => membersStep (parseValue f) (parseMembers f) s acc
  end.

(** JSON.parse(text): [None] stands for the SyntaxError it throws.  Twice the
    length of the text is fuel enough (see [parse_fuel_enough]). *)
Definition JSON_parse (text : jsstring) : option JSON :=
  match parseValue (2 * length text + 2) text with
  | Some (v, rest) => match skipWs rest with [] => Some v | _ => None end
  | None => None
  end.


(** * Date: time values are integral milliseconds since the epoch *)

Definition msPerDay : Z := 86400000.
Definition msPerHour : Z := 3600000.
Definition maxTime : Z := 8640000000000000.

Definition Day (t : Z) : Z := t / msPerDay.
Definition TimeWithinDay (t : Z) : Z := t mod msPerDay.

Definition DayFromYear (y : Z) : Z :=
  365 * (y - 1970) + (y - 1969) / 4 - (y - 1901) / 100 + (y - 1601) / 400.

Definition InLeapYear (y : Z) : Z :=
  if (y mod 4 =? 0) && (negb (y mod 100 =? 0) || (y mod 400 =? 0)) then 1 else 0.

(** The largest year whose first day is not after [day], reached from an estimate. *)
Fixpoint adjustYear (fuel : nat) (day y : Z) : Z :=
  match fuel with
  | O => y
  | S f => if day <? DayFromYear y then adjustYear f day (y - 1)
           else if DayFromYear (y + 1) <=? day then adjustYear f day (y + 1)
           else y
  end.

Definition YearFromDay (day : Z) : Z := adjustYear 4 day (1970 + day * 400 / 146097).
Definition YearFromTime (t : Z) : Z := YearFromDay (Day t).

(** Number of days of the year before month [mn] (0 = January). *)
Definition daysBeforeMonth (mn leap : Z) : Z :=
  match mn with
  | 0 => 0 | 1 => 31 | 2 => 59 + leap | 3 => 90 + leap | 4 => 120 + leap
  | 5 => 151 + leap | 6 => 181 + leap | 7 => 212 + leap | 8 => 243 + leap
  | 9 => 273 + leap | 10 => 304 + leap | _ => 334 + leap
  end.

Definition DayWithinYear (t : Z) : Z := Day t - DayFromYear (YearFromTime t).

Definition MonthFromTime (t : Z) : Z :=
  let d := DayWithinYear t in
  let leap := InLeapYear (YearFromTime t) in
  if d <? 31 then 0 else if d <? 59 + leap then 1 else if d <? 90 + leap then 2
  else if d <? 120 + leap then 3 else if d <? 151 + leap then 4
  else if d <? 181 + leap then 5 else if d <? 212 + leap then 6
  else if d <? 243 + leap then 7 else if d <? 273 + leap then 8
  else if d <? 304 + leap then 9 else if d <? 334 + leap then 10 else 11.

Definition DateFromTime (t : Z) : Z :=
  DayWithinYear t - daysBeforeMonth (MonthFromTime t) (InLeapYear (YearFromTime t)) + 1.

Definition MakeDay (year month date : Z) : Z :=
  let ym := year + month / 12 in
  let mn := month mod 12 in
  DayFromYear ym + daysBeforeMonth mn (InLeapYear ym) + date - 1.

Definition MakeDate (day time : Z) : Z := day * msPerDay + time.

(** TimeClip: [None] is the invalid date (NaN time value). *)
Definition TimeClip (t : Z) : option Z :=
  if Z.abs t <=? maxTime then Some t else None.

(** The local time zone of the device: LocalTZA(t, isUTC) in milliseconds. *)
Record TimeZone : Type := { LocalTZA : Z -> bool -> Z }.

Definition LocalTime (tz : TimeZone) (t : Z) : Z := t + LocalTZA tz t true.
Definition UTC (tz : TimeZone) (t : Z) : Z := t - LocalTZA tz t false.

(** Date.prototype.getDate on a valid date. *)
Definition getDate (tz : TimeZone) (t : Z) : Z := DateFromTime (LocalTime tz t).

(** Date.prototype.setDate(dt) on a valid date: the new time value. *)
Definition setDate (tz : TimeZone) (t dt : Z) : option Z :=
  let lt := LocalTime tz t in
  let newDate := MakeDate (MakeDay (YearFromTime lt) (MonthFromTime lt) dt) (TimeWithinDay lt) in
  TimeClip (UTC tz newDate).

Definition pad (width : nat) (z : Z) : jsstring :=
  let ds := decimal (Z.to_N z) in
  repeat 48%N (width - length ds) ++ ds.

(** Date.prototype.toISOString on a valid date. *)
Definition toISOString (t : Z) : jsstring :=
  let y := YearFromTime t in
  let tod := TimeWithinDay t in
  (if (0 <=? y) && (y <=? 9999) then pad 4 y
   else (if y <? 0 then ch "-" else ch "+") :: pad 6 (Z.abs y))
  ++ js "-" ++ pad 2 (MonthFromTime t + 1)
  ++ js "-" ++ pad 2 (DateFromTime t)
  ++ js "T" ++ pad 2 (tod / msPerHour)
  ++ js ":" ++ pad 2 (tod / 60000 mod 60)
  ++ js ":" ++ pad 2 (tod / 1000 mod 60)
  ++ js "." ++ pad 3 (tod mod 1000)
  ++ js "Z".

Definition slice0 (n : nat) (s : jsstring) : jsstring := firstn n s.

(** ToIntegerOrInfinity of a finite Number (truncation towards zero). *)
Definition truncate (x : Number) : option Z :=
  match x with
  | Zero _ => Some 0
  | Finite neg m e =>
      Some (signed neg (if 0 <=? e then Zpos m * 2 ^ e else Zpos m / 2 ^ (- e)))
  | _ => None
  end.

(** new Date(ts): the time value of the new Date, [None] when it is invalid. *)
Definition newDate (ts : Number) : option Z :=
  match truncate ts with
  | Some t => TimeClip t
  | None => None
  end.

Definition fixedZone (offset : Z) : TimeZone := {| LocalTZA := fun _ _ => offset |}.

(** United States Eastern time as observed in 2024: UTC-5, and UTC-4 between
    10 March 07:00 UTC and 3 November 06:00 UTC.  A local time that is skipped
    or repeated is read with the offset before the transition. *)
Definition usEastern2024 : TimeZone :=
  {| LocalTZA := fun t isUTC =>
       if isUTC then
         if (1710054000000 <=? t) && (t <? 1730613600000) then -4 * msPerHour else -5 * msPerHour
       else
         if (1710039600000 <=? t) && (t <? 1730599200000)
         then -4 * msPerHour else -5 * msPerHour |}.


(** * JSON.stringify *)

Definition hexDigit (d : Z) : N := if d <? 10 then Z.to_N (d + 48) else Z.to_N (d + 87).

Definition unicodeEscape (c : N) : jsstring :=
  let z := Z.of_N c in
  js "\u" ++ [hexDigit (z / 4096 mod 16); hexDigit (z / 256 mod 16);
              hexDigit (z / 16 mod 16); hexDigit (z mod 16)].

Definition isHighSurrogate (c : N) : bool := N.leb 55296 c && N.leb c 56319.
Definition isLowSurrogate (c : N) : bool := N.leb 56320 c && N.leb c 57343.

(** QuoteJSONString without the surrounding quotes; [paired] tells that the
    previous code unit was a high surrogate. *)
Fixpoint quoteChars (s : jsstring) (paired : bool) : jsstring :=
  match s with
  | [] => []
  | c :: r =>
      let next := quoteChars r (isHighSurrogate c) in
      if N.eqb c 8 then js "\b" ++ next
      else if N.eqb c 9 then js "\t" ++ next
      else if N.eqb c 10 then js "\n" ++ next
      else if N.eqb c 12 then js "\f" ++ next
      else if N.eqb c 13 then js "\r" ++ next
      else if N.eqb c 34 then [92%N; 34%N] ++ next
      else if N.eqb c 92 then [92%N; 92%N] ++ next
      else if N.ltb c 32 then unicodeEscape c ++ next
      else if isHighSurrogate c then
        match r with
        | d :: _ => if isLowSurrogate d then c :: next else unicodeEscape c ++ next
        | [] => unicodeEscape c ++ next
        end
      else if isLowSurrogate c then
        if paired then c :: next else unicodeEscape c ++ next
      else c :: next
  end.

Definition quote (s : jsstring) : jsstring := 34%N :: quoteChars s false ++ [34%N].

Definition isFiniteNumber (x : Number) : bool :=
  match x with Zero _ | Finite _ _ _ => true | _ => false end.

Definition commaJoin (parts : list jsstring) : jsstring :=
  match parts with
  | [] => []
  | p :: ps => p ++ flat_map (fun q => ch "," :: q) ps
  end.

Fixpoint JSON_stringify (v : JSON) : jsstring :=
  match v with
  | JNull => js "null"
  | JBool b => if b then js "true" else js "false"
  | JNum x => if isFiniteNumber x then NumberToString x else js "null"
  | JStr s => quote s
  | JArr items => js "[" ++ commaJoin (map JSON_stringify items) ++ js "]"
  | JObj fields =>
      js "{" ++ commaJoin (map (fun kv => quote (fst kv) ++ js ":" ++ JSON_stringify (snd kv)) fields)
      ++ js "}"
  end.

(** * Conversions of a value read from JSON; [None] is [undefined] *)

Definition Value := option JSON.

(** Property read [v.k]: the outer [None] is the TypeError of reading a
    property of null. *)
Definition getField (v : JSON) (k : jsstring) : option Value :=
  match v with
  | JNull => None
  | JObj fields => Some (getProp k fields)
  | _ => Some None
  end.

(** ToString; [None] is the TypeError of ToPrimitive.  An object read from
    JSON has data properties only, none of them callable: with a key toString
    of its own it has no method left to call (Object.prototype.valueOf answers
    the object itself), and the conversion throws; without it
    Object.prototype.toString answers.  An array joins the texts of its
    elements with commas, null elements as empty, and throws when an element
    does. *)
Fixpoint ToString (v : JSON) : option jsstring :=
  match v with
  | JNull => Some (js "null")
  | JBool b => Some (if b then js "true" else js "false")
  | JNum x => Some (NumberToString x)
  | JStr s => Some s
  | JArr items =>
      option_map commaJoin
        ((fix elements (l : list JSON) : option (list jsstring) :=
            match l with
            | [] => Some []
            | i :: r =>
                match match i with JNull => Some [] | _ => ToString i end with
                | Some t => option_map (cons t) (elements r)
                | None => None
                end
            end) items)
  | JObj fields =>
      match getProp (js "toString") fields with
      | Some _ => None
      | None => Some (js "[object Object]")
      end
  end.

(** ToNumber; [None] is the same TypeError (an object or an array is first
    made a string). *)
Definition ToNumber (v : Value) : option Number :=
  match v with
  | None => Some NaN
  | Some JNull => Some (Zero false)
  | Some (JBool b) => Some (if b then ofZ 1 else Zero false)
  | Some (JNum x) => Some x
  | Some (JStr s) => Some (StringToNumber s)
  | Some w => option_map StringToNumber (ToString w)
  end.

Definition ToBoolean (v : Value) : bool :=
  match v with
  | None | Some JNull => false
  | Some (JBool b) => b
  | Some (JNum x) => truthyNumber x
  | Some (JStr s) => match s with [] => false | _ => true end
  | Some _ => true
  end.


(** Math.round(Number(v) || 0), as both the client and the server write it;
    [None] when Number(v) throws. *)
Definition roundedOrZero (v : Value) : option Number :=
  match ToNumber v with
  | Some x => Some (Math_round (if truthyNumber x then x else Zero false))
  | None => None
  end.

(** * Thrown values and the engine's own error objects *)

Record Thrown : Type := { name : jsstring; message : jsstring }.

(** new Error(msg) *)
Definition newError (msg : jsstring) : Thrown := {| name := js "Error"; message := msg |}.

(** Error.prototype.toString *)
Definition errorToString (e : Thrown) : jsstring :=
  match name e, message e with
  | n, [] => n
  | [], m => m
  | n, m => n ++ js ": " ++ m
  end.

(** The text of the errors the engine itself raises differs between engines. *)
Record Engine : Type := {
  syntaxError : jsstring -> Thrown;     (* JSON.parse on a text that is not JSON *)
  nullProperty : jsstring -> Thrown;    (* reading the property of null *)
  noSuchFile : jsstring -> Thrown;      (* fs.readFileSync on a missing path *)
  cannotConvert : Thrown                (* ToPrimitive on an object without a method *)
}.

(** * The ledger record shared by both screens *)

Module Meal.
Record t : Type := {
  id : jsstring;
  ts : Number;
  description : jsstring;
  calories : Number;
  protein_g : Number;
  photoUri : option jsstring
}.

(** The object literal of [saveMeal] as JSON.stringify sees it: an undefined
    [photoUri] is left out. *)
Definition toJSON (m : t) : JSON :=
  JObj ([(js "id", JStr (id m)); (js "ts", JNum (ts m));
         (js "description", JStr (description m));
         (js "calories", JNum (calories m));
         (js "protein_g", JNum (protein_g m))]
        ++ match photoUri m with
           | Some u => [(js "photoUri", JStr u)]
           | None => []
           end).

Definition asString (v : Value) : option jsstring :=
  match v with Some (JStr s) => Some s | _ => None end.
Definition asNumber (v : Value) : option Number :=
  match v with Some (JNum x) => Some x | _ => None end.

(** A JSON value that has the declared shape of a Meal. *)
Definition ofJSON (v : JSON) : option t :=
  match v with
  | JObj fields =>
      match asString (getProp (js "id") fields), asNumber (getProp (js "ts") fields),
            asString (getProp (js "description") fields),
            asNumber (getProp (js "calories") fields),
            asNumber (getProp (js "protein_g") fields) with
      | Some i, Some t0, Some d, Some c, Some p =>
          match getProp (js "photoUri") fields with
          | None => Some {| id := i; ts := t0; description := d; calories := c;
                            protein_g := p; photoUri := None |}
          | Some (JStr u) => Some {| id := i; ts := t0; description := d; calories := c;
                                     protein_g := p; photoUri := Some u |}
          | Some _ => None
          end
      | _, _, _, _, _ => None
      end
  | _ => None
  end.
End Meal.

Fixpoint traverse {A B : Type} (f : A -> option B) (l : list A) : option (list B) :=
  match l with
  | [] => Some []
  | a :: r =>
      match f a, traverse f r with
      | Some b, Some bs => Some (b :: bs)
      | _, _ => None
      end
  end.

(** A JSON value that has the declared shape [Meal[]]. *)
Definition mealsOfJSON (v : JSON) : option (list Meal.t) :=
  match v with
  | JArr items => traverse Meal.ofJSON items
  | _ => None
  end.

Definition mealsToJSON (l : list Meal.t) : JSON := JArr (map Meal.toJSON l).

Definition STORAGE_KEY : jsstring := js "@macrocam_meals_v1".

(** dateKey(ts) = new Date(ts).toISOString().slice(0, 10); [None] is the
    RangeError that toISOString throws on an invalid date. *)
Definition dateKey (ts : Number) : option jsstring :=
  option_map (fun t => slice0 10 (toISOString t)) (newDate ts).

(** * HomeScreen (src/index.tsx) *)

(** The state hooks of the component, with their declared types. *)
Record Screen : Type := {
  meals : list Meal.t;
  showModal : bool;
  desc : jsstring;
  calText : jsstring;
  protText : jsstring;
  photoUri : option jsstring;
  estimating : bool;
  estimateError : option jsstring
}.

(** AsyncStorage: key to stored text. *)
Definition Storage := jsstring -> option jsstring.

Definition setItem (k v : jsstring) (st : Storage) : Storage :=
  fun k' => if str_eqb k' k then Some v else st k'.

Record Alert : Type := { title : jsstring; text : jsstring }.

Record World : Type := {
  screen : Screen;
  storage : Storage;
  alerts : list Alert
}.

Definition initialScreen : Screen :=
  {| meals := []; showModal := false; desc := []; calText := []; protText := [];
     photoUri := None; estimating := false; estimateError := None |}.

Definition setMeals (next : list Meal.t) (s : Screen) : Screen :=
  {| meals := next; showModal := showModal s; desc := desc s; calText := calText s;
     protText := protText s; photoUri := photoUri s; estimating := estimating s;
     estimateError := estimateError s |}.

Definition setShowModal (b : bool) (s : Screen) : Screen :=
  {| meals := meals s; showModal := b; desc := desc s; calText := calText s;
     protText := protText s; photoUri := photoUri s; estimating := estimating s;
     estimateError := estimateError s |}.

(** ** The load effect *)

Inductive ReadOutcome : Type :=
| ReadRejects (e : Thrown)
| ReadItem (raw : option jsstring).

(** What the effect does to the [meals] hook: it calls [setMeals] with a
    value, or it dies on an exception that nothing catches (the promise of the
    async function rejects) and the hook keeps its initial [[]]. *)
Inductive LoadOutcome : Type :=
| MealsSet (v : JSON)
| LoadThrew (e : Thrown).

Definition loadEffect (engine : Engine) (read : ReadOutcome) : LoadOutcome :=
  match read with
  | ReadRejects e => LoadThrew e
  | ReadItem None => MealsSet (JArr [])
  | ReadItem (Some []) => MealsSet (JArr [])
  | ReadItem (Some raw) =>
      match JSON_parse raw with
      | Some v => MealsSet v
      | None => LoadThrew (syntaxError engine raw)
      end
  end.

(** ** persist, saveMeal, deleteMeal *)

(** persist(next): setMeals, then the write, which the store may refuse. *)
Definition persist (writeOk : bool) (next : list Meal.t) (w : World) : World :=
  {| screen := setMeals next (screen w);
     storage := if writeOk
                then setItem STORAGE_KEY (JSON_stringify (mealsToJSON next)) (storage w)
                else storage w;
     alerts := alerts w |}.

(** What one call of [saveMeal] takes from outside: the two clock readings,
    the random draw, whether the store accepts the write, and the text the
    engine prints in base 36 for a Number that is no integer below 2^53. *)
Record SaveEnv : Type := {
  nowForId : Z;
  random : Number;
  nowForTs : Z;
  writeOk : bool;
  radix36 : Number -> jsstring
}.

Inductive SaveOutcome : Type :=
| InvalidInput
| Saved (m : Meal.t)
| WriteFailed (m : Meal.t).

Definition orText (s dflt : jsstring) : jsstring :=
  match s with [] => dflt | _ => s end.

Definition newId (env : SaveEnv) : jsstring :=
  toString36 (radix36 env) (Nadd (ofZ (nowForId env)) (random env)).

Definition saveMeal (env : SaveEnv) (w : World) : SaveOutcome * World :=
  let s := screen w in
  let calories := parseInt (orText (calText s) (js "0")) in
  let protein_g := parseInt (orText (protText s) (js "0")) in
  if isNaN calories || isNaN protein_g then
    (InvalidInput,
     {| screen := s; storage := storage w;
        alerts := alerts w ++ [{| title := js "Invalid input";
                                  text := js "Calories and protein must be numbers." |}] |})
  else
    let meal := {| Meal.id := newId env;
                   Meal.ts := ofZ (nowForTs env);
                   Meal.description := orText (trim (desc s)) (js "Meal");
                   Meal.calories := calories;
                   Meal.protein_g := protein_g;
                   Meal.photoUri := photoUri s |} in
    let w' := persist (writeOk env) (meal :: meals s) w in
    if writeOk env
    then (Saved meal, {| screen := setShowModal false (screen w');
                         storage := storage w'; alerts := alerts w' |})
    else (WriteFailed meal, w').

Definition deleteMeal (writeOk : bool) (id : jsstring) (w : World) : World :=
  persist writeOk (filter (fun m => negb (str_eqb (Meal.id m) id)) (meals (screen w))) w.

(** ** estimateFromPhoto *)

Inductive BodyOutcome : Type :=
| BodyRejects (e : Thrown)
| BodyText (body : jsstring).

(** The result of [fetch(SERVER_BASE_URL/estimate)], as the call observes it. *)
Inductive FetchOutcome : Type :=
| FetchRejects (e : Thrown)
| FetchResolves (status : Z) (body : BodyOutcome).

Definition responseOk (status : Z) : bool := (200 <=? status) && (status <=? 299).

(** The three hooks the [try] block sets once the answer is read, in this
    order.  [setDesc] is called with [data.description || "Food"], whatever
    that value is. *)
Inductive HookWrite : Type :=
| SetDesc (v : JSON)
| SetCalText (t : jsstring)
| SetProtText (t : jsstring).

(** What the body of the [try] block does from [fetch] on: the hooks it has
    set when it ends, and the exception that ended it, if any. *)
Record TryRun : Type := {
  writes : list HookWrite;
  thrown : option Thrown
}.

Definition throwsAt (done : list HookWrite) (e : Thrown) : TryRun :=
  {| writes := done; thrown := Some e |}.

(** data.description || "Food" *)
Definition orFood (d : Value) : JSON :=
  match d with
  | Some v => if ToBoolean d then v else JStr (js "Food")
  | None => JStr (js "Food")
  end.

(** The three statements after [await resp.json()]. *)
Definition normalize (engine : Engine) (data : JSON) : TryRun :=
  match getField data (js "description") with
  | None => throwsAt [] (nullProperty engine (js "description"))
  | Some d =>
      let w1 := [SetDesc (orFood d)] in
      match getField data (js "calories") with
      | None => throwsAt w1 (nullProperty engine (js "calories"))
      | Some c =>
          match roundedOrZero c with
          | None => throwsAt w1 (cannotConvert engine)
          | Some x =>
              let w2 := w1 ++ [SetCalText (NumberToString x)] in
              match getField data (js "protein_g") with
              | None => throwsAt w2 (nullProperty engine (js "protein_g"))
              | Some p =>
                  match roundedOrZero p with
                  | None => throwsAt w2 (cannotConvert engine)
                  | Some y =>
                      {| writes := w2 ++ [SetProtText (NumberToString y)];
                         thrown := None |}
                  end
              end
          end
      end
  end.

Definition tryEstimate (engine : Engine) (net : FetchOutcome) : TryRun :=
  match net with
  | FetchRejects e => throwsAt [] e
  | FetchResolves status body =>
      if responseOk status then
        match body with
        | BodyRejects e => throwsAt [] e
        | BodyText raw =>
            match JSON_parse raw with
            | Some data => normalize engine data
            | None => throwsAt [] (syntaxError engine raw)
            end
        end
      else
        match body with
        | BodyRejects e => throwsAt [] e
        | BodyText raw =>
            throwsAt [] (newError (js "Server error " ++ decimalZ status ++ js ": " ++ raw))
        end
  end.

(** The apostrophe of the fallback message is U+2019. *)
Definition estimateFallback : jsstring :=
  js "Couldn" ++ [8217%N] ++ js "t estimate from photo. Try again.".

(** One hook set.  The hook [desc] is declared a string: a call of [setDesc]
    with another value leaves the declared types, and is told apart by
    [strayDesc]; the record keeps the old text in its place. *)
Definition applyWrite (s : Screen) (w : HookWrite) : Screen :=
  match w with
  | SetDesc (JStr t) =>
      {| meals := meals s; showModal := showModal s; desc := t; calText := calText s;
         protText := protText s; photoUri := photoUri s; estimating := estimating s;
         estimateError := estimateError s |}
  | SetDesc _ => s
  | SetCalText t =>
      {| meals := meals s; showModal := showModal s; desc := desc s; calText := t;
         protText := protText s; photoUri := photoUri s; estimating := estimating s;
         estimateError := estimateError s |}
  | SetProtText t =>
      {| meals := meals s; showModal := showModal s; desc := desc s; calText := calText s;
         protText := t; photoUri := photoUri s; estimating := estimating s;
         estimateError := estimateError s |}
  end.

(** The value [setDesc] was last called with, when it is no string. *)
Definition strayDesc (ws : list HookWrite) : option JSON :=
  match fold_left (fun last w => match w with SetDesc v => Some v | _ => last end) ws None with
  | Some (JStr _) | None => None
  | Some v => Some v
  end.

Inductive EstimateResult : Type :=
| NoPhoto (s : Screen)
| Filled (s : Screen)                (* the block ran to its end *)
| Failed (s : Screen)                (* the block threw; [s] has what it had set *)
| Untyped (v : JSON) (s : Screen).   (* the hook [desc] holds [v], no string;
                                        [s] has the other hooks as the call left them *)

(** The truth value of [photoUri]: undefined and the empty string are falsy. *)
Definition hasPhoto (s : Screen) : bool :=
  match photoUri s with
  | None | Some [] => false
  | Some _ => true
  end.

(** setEstimateError(null) before the call, the hooks the block sets, the
    message of the [catch] and setEstimating(false) of the [finally]. *)
Definition estimateFromPhoto (engine : Engine) (net : FetchOutcome) (s : Screen)
  : EstimateResult :=
  if negb (hasPhoto s) then NoPhoto s
  else
    let run := tryEstimate engine net in
    let s1 := fold_left applyWrite (writes run) s in
    let s2 := {| meals := meals s1; showModal := showModal s1; desc := desc s1;
                 calText := calText s1; protText := protText s1; photoUri := photoUri s1;
                 estimating := false;
                 estimateError :=
                   match thrown run with
                   | Some e => Some (orText (message e) estimateFallback)
                   | None => None
                   end |} in
    match strayDesc (writes run), thrown run with
    | Some v, _ => Untyped v s2
    | None, None => Filled s2
    | None, Some _ => Failed s2
    end.

(** * WeekScreen (src/unnamed/part_001) *)

(** What [lastNDays] reads from the device: the clock and the local time zone. *)
Record Device : Type := { now : Z; zone : TimeZone }.

(** The body of the loop at index [i]: x = new Date(d); x.setDate(d.getDate() - i);
    x.toISOString().slice(0, 10).  [None] is the RangeError of toISOString. *)
Definition dayBack (dev : Device) (i : Z) : option jsstring :=
  match TimeClip (now dev) with
  | Some d =>
      option_map (fun x => slice0 10 (toISOString x))
                 (setDate (zone dev) d (getDate (zone dev) d - i))
  | None => None
  end.

(** The loop [for (let i = 0; i < n; i++)] with [todo] iterations left. *)
Fixpoint lastNDaysFrom (dev : Device) (i : Z) (todo : nat) : option (list jsstring) :=
  match todo with
  | O => Some []
  | S k =>
      match dayBack dev i, lastNDaysFrom dev (i + 1) k with
      | Some key, Some rest => Some (key :: rest)
      | _, _ => None
      end
  end.

Definition lastNDays (dev : Device) (n : nat) : option (list jsstring) :=
  lastNDaysFrom dev 0 n.

Record DayTotals : Type := { day : jsstring; dayCalories : Number; dayProtein : Number }.
Record Totals : Type := { totalCalories : Number; totalProtein : Number }.

(** meals.filter((m) => dateKey(m.ts) === day); [None] when dateKey throws. *)
Fixpoint mealsOfDay (day : jsstring) (ms : list Meal.t) : option (list Meal.t) :=
  match ms with
  | [] => Some []
  | m :: r =>
      match dateKey (Meal.ts m), mealsOfDay day r with
      | Some k, Some rest => Some (if str_eqb k day then m :: rest else rest)
      | _, _ => None
      end
  end.

(** reduce((s, m) => s + f(m), 0) *)
Definition sumBy {A : Type} (f : A -> Number) (l : list A) : Number :=
  fold_left (fun s a => Nadd s (f a)) l (Zero false).

Definition totalsOfDay (ms : list Meal.t) (d : jsstring) : option DayTotals :=
  match mealsOfDay d ms with
  | Some dayMeals =>
      Some {| day := d; dayCalories := sumBy Meal.calories dayMeals;
              dayProtein := sumBy Meal.protein_g dayMeals |}
  | None => None
  end.

Definition perDay (ms : list Meal.t) (days : list jsstring) : option (list DayTotals) :=
  traverse (totalsOfDay ms) days.

Definition weeklyTotals (rows : list DayTotals) : Totals :=
  {| totalCalories := sumBy dayCalories rows; totalProtein := sumBy dayProtein rows |}.

(** The totals the screen shows for a device and a ledger. *)
Definition weekScreen (dev : Device) (ms : list Meal.t) : option Totals :=
  match lastNDays dev 7 with
  | Some days => option_map weeklyTotals (perDay ms days)
  | None => None
  end.

(** * The server (src/unnamed/part_000) *)

Module Server.

Record Response : Type := { status : Z; body : jsstring }.

(** res.status(code).json(value); [res.json] alone answers 200. *)
Definition json (code : Z) (value : JSON) : Response :=
  {| status := code; body := JSON_stringify value |}.

(** app.get("/health") *)
Definition health : Response := json 200 (JObj [(js "ok", JBool true)]).

(** The upload directory: path to file content. *)
Definition Files := jsstring -> option (list N).

Definition unlink (path : jsstring) (fs : Files) : Files :=
  fun p => if str_eqb p path then None else fs p.

(** req.file as multer leaves it: the path of the stored upload. *)
Record Upload : Type := { path : jsstring }.

(** The answer of openai.responses.create for the image sent to it. *)
Inductive Upstream : Type :=
| UpstreamThrows (e : Thrown)
| UpstreamAnswers (output_text : option jsstring).

(** The literal of /```json/i at the head of [s]. *)
Definition matchesJson (s : jsstring) : bool :=
  match s with
  | a :: b :: c :: j :: s0 :: o :: n :: _ =>
      N.eqb a 96 && N.eqb b 96 && N.eqb c 96
      && (N.eqb j (ch "j") || N.eqb j (ch "J")) && (N.eqb s0 (ch "s") || N.eqb s0 (ch "S"))
      && (N.eqb o (ch "o") || N.eqb o (ch "O")) && (N.eqb n (ch "n") || N.eqb n (ch "N"))
  | _ => false
  end.

(** The literal of /```/ at the head of [s]. *)
Definition matchesFence (s : jsstring) : bool :=
  match s with
  | a :: b :: c :: _ => N.eqb a 96 && N.eqb b 96 && N.eqb c 96
  | _ => false
  end.

(** text.replace(/<literal>\s*/g, ""): [drop] code units of the current match
    are still to be removed, and [inSpace] tells that the scan is inside the
    white space that follows a match. *)
Fixpoint removeAll (matches : jsstring -> bool) (len : nat) (s : jsstring)
         (drop : nat) (inSpace : bool) : jsstring :=
  match s with
  | [] => []
  | c :: r =>
      match drop with
      | S d => removeAll matches len r d inSpace
      | O =>
          if inSpace && isWhiteSpace c then removeAll matches len r 0 true
          else if matches s then removeAll matches len r (len - 1) true
          else c :: removeAll matches len r 0 false
      end
  end.

(** Both patterns can only match at a backtick. *)
Definition backtickLed (matches : jsstring -> bool) : Prop :=
  forall c r, matches (c :: r) = true -> c = 96%N.

Definition startsWith (c : N) (s : jsstring) : bool :=
  match s with d :: _ => N.eqb c d | [] => false end.

Definition endsWith (c : N) (s : jsstring) : bool := startsWith c (rev s).

(** indexOf and lastIndexOf of one code unit; [None] is -1. *)
Fixpoint indexOf (c : N) (s : jsstring) : option nat :=
  match s with
  | [] => None
  | d :: r => if N.eqb c d then Some O else option_map S (indexOf c r)
  end.

Fixpoint lastIndexOf (c : N) (s : jsstring) : option nat :=
  match s with
  | [] => None
  | d :: r =>
      match lastIndexOf c r with
      | Some i => Some (S i)
      | None => if N.eqb c d then Some O else None
      end
  end.

(** s.slice(start, stop) for indices inside the string. *)
Definition slice (start stop : nat) (s : jsstring) : jsstring :=
  firstn (stop - start) (skipn start s).

Definition extractJson (text : jsstring) : jsstring :=
  let noFences :=
    trim (removeAll matchesFence 3 (removeAll matchesJson 7 text 0 false) 0 false) in
  if startsWith (ch "{") noFences && endsWith (ch "}") noFences then noFences
  else
    match indexOf (ch "{") noFences, lastIndexOf (ch "}") noFences with
    | Some start, Some stop =>
        if Nat.ltb start stop then slice start (stop + 1) noFences else noFences
    | _, _ => noFences
    end.

(** String(v || "Food"); [None] when the conversion throws. *)
Definition descriptionOf (v : Value) : option jsstring :=
  match v with
  | Some w => if ToBoolean v then ToString w else Some (js "Food")
  | None => Some (js "Food")
  end.

(** What the body of the outer [try] does: it answers, or it throws. *)
Inductive TryOutcome : Type :=
| Answers (r : Response)
| Throws (e : Thrown).

(** The [try] block up to [const rawText = resp.output_text?.trim() || ""]:
    the upload is read and sent to the model. *)
Definition rawTextOf (engine : Engine) (openai : list N -> Upstream)
           (fs : Files) (f : Upload) : Thrown + jsstring :=
  match fs (path f) with
  | None => inl (noSuchFile engine (path f))
  | Some imageBytes =>
      match openai imageBytes with
      | UpstreamThrows e => inl e
      | UpstreamAnswers output_text =>
          inr (match output_text with
               | Some t => trim t
               | None => []
               end)
      end
  end.

Definition modelDidNotReturnJson (rawText : jsstring) : Response :=
  json 500 (JObj [(js "error", JStr (js "Model did not return JSON"));
                  (js "raw", JStr rawText)]).

(** The rest of the [try] block, from [let parsed]. *)
Definition answerFrom (engine : Engine) (rawText : jsstring) : TryOutcome :=
  match JSON_parse (extractJson rawText) with
  | None => Answers (modelDidNotReturnJson rawText)
  | Some parsed =>
      match getField parsed (js "description"),
            getField parsed (js "calories"),
            getField parsed (js "protein_g") with
      | Some d, Some c, Some p =>
          match descriptionOf d, roundedOrZero c, roundedOrZero p with
          | Some text, Some x, Some y =>
              Answers (json 200 (JObj [(js "description", JStr text);
                                       (js "calories", JNum x);
                                       (js "protein_g", JNum y)]))
          | _, _, _ => Throws (cannotConvert engine)
          end
      | _, _, _ => Throws (nullProperty engine (js "description"))
      end
  end.

Definition missingPhoto : Response :=
  json 400 (JObj [(js "error", JStr (js "Missing photo"))]).

Definition tryEstimate (engine : Engine) (openai : list N -> Upstream)
           (fs : Files) (file : option Upload) : TryOutcome :=
  match file with
  | None => Answers missingPhoto
  | Some f =>
      match rawTextOf engine openai fs f with
      | inl e => Throws e
      | inr rawText => answerFrom engine rawText
      end
  end.

(** What one request leaves behind. *)
Record Effect : Type := {
  response : Response;
  files : Files;
  logged : list Thrown      (* console.error *)
}.

(** String(err?.message || err) *)
Definition details (e : Thrown) : jsstring :=
  match message e with
  | [] => errorToString e
  | m => m
  end.

Definition serverError (e : Thrown) : Response :=
  json 500 (JObj [(js "error", JStr (js "Server error"));
                  (js "details", JStr (details e))]).

(** app.post("/estimate"): the [try], the [catch] and the [finally]. *)
Definition estimate (engine : Engine) (openai : list N -> Upstream)
           (fs : Files) (file : option Upload) : Effect :=
  let cleaned :=
    match file with
    | Some f => match path f with [] => fs | p => unlink p fs end
    | None => fs
    end in
  match tryEstimate engine openai fs file with
  | Answers r => {| response := r; files := cleaned; logged := [] |}
  | Throws e => {| response := serverError e; files := cleaned; logged := [e] |}
  end.

(** ** The route: upload.single("photo"), then the handler *)

(** One part of a multipart/form-data body: a text field, within the limits
    of the parser for the size of a name and of a value or beyond them, or a
    file with the name of its field, its file name and its bytes. *)
Inductive Part : Type :=
| TextField (name value : jsstring) (withinLimits : bool)
| FilePart (field filename : jsstring) (content : list N).

(** The body of a request as the upload middleware sees it: not multipart, or
    the parts in their order, and whether the body is well-formed to its end. *)
Inductive Request : Type :=
| NotMultipart
| Multipart (parts : list Part) (wellFormed : bool).

(** What upload.single(name) makes of the parts: it passes the request on,
    with the bytes of the one file it took, or it refuses it (an unexpected
    field, a second file, a field beyond the limits), [stored] telling
    whether a file had been written by then. *)
Inductive Sifted : Type :=
| Refused (stored : bool)
| Passed (file : option (list N)).

Definition isStored (got : option (list N)) : bool :=
  match got with Some _ => true | None => false end.

Fixpoint sift (name : jsstring) (parts : list Part) (got : option (list N)) : Sifted :=
  match parts with
  | [] => Passed got
  | TextField _ _ ok :: r => if ok then sift name r got else Refused (isStored got)
  | FilePart field filename content :: r =>
      match filename with
      | [] => sift name r got                  (* no file chosen: the part is skipped *)
      | _ =>
          if str_eqb field name
          then match got with
               | None => sift name r (Some content)
               | Some _ => Refused true
               end
          else Refused (isStored got)
      end
  end.

Definition single (name : jsstring) (req : Request) : Sifted :=
  match req with
  | NotMultipart => Passed None
  | Multipart parts wellFormed =>
      match sift name parts None with
      | Passed got => if wellFormed then Passed got else Refused (isStored got)
      | Refused stored => Refused stored
      end
  end.

Definition writeFile (p : jsstring) (content : list N) (fs : Files) : Files :=
  fun q => if str_eqb q p then Some content else fs q.

(** What the endpoint does with a request: the handler runs, or the upload
    was refused and the error goes to the default error handler of Express,
    which answers 500 with a page of HTML; the middleware has then removed the
    file it had written. *)
Inductive Answer : Type :=
| Handled (e : Effect)
| ErrorPage (files : Files).

(** app.post("/estimate", upload.single("photo"), handler); [stored] is the
    path under uploads/ that the middleware chooses for the file. *)
Definition postEstimate (engine : Engine) (openai : list N -> Upstream)
           (stored : jsstring) (fs : Files) (req : Request) : Answer :=
  match single (js "photo") req with
  | Refused written => ErrorPage (if written then unlink stored fs else fs)
  | Passed None => Handled (estimate engine openai fs None)
  | Passed (Some content) =>
      Handled (estimate engine openai (writeFile stored content fs) (Some {| path := stored |}))
  end.

Definition statusOf (a : Answer) : Z :=
  match a with
  | Handled e => status (response e)
  | ErrorPage _ => 500
  end.

(** The body of the answer when it is JSON. *)
Definition jsonOf (a : Answer) : option jsstring :=
  match a with
  | Handled e => Some (body (response e))
  | ErrorPage _ => None
  end.

End Server.

(** * HomeScreen: the rest of the component (src/index.tsx) *)

(** ** The day shown on the screen *)

(** const today = dateKey(Date.now()); [None] is the RangeError of an invalid
    clock reading. *)
Definition today (clock : Z) : option jsstring := dateKey (ofZ clock).

(** meals.filter((m) => dateKey(m.ts) === today) *)
Definition todaysMeals (clock : Z) (s : Screen) : option (list Meal.t) :=
  match today clock with
  | Some d => mealsOfDay d (meals s)
  | None => None
  end.

(** The two reductions over [todaysMeals]. *)
Definition totals (todays : list Meal.t) : Totals :=
  {| totalCalories := sumBy Meal.calories todays;
     totalProtein := sumBy Meal.protein_g todays |}.

(** ** openModal and the buttons of the form *)

Definition openModal (s : Screen) : Screen :=
  {| meals := meals s; showModal := true; desc := []; calText := [];
     protText := []; photoUri := None; estimating := false; estimateError := None |}.

(** What the user types into the three inputs (onChangeText). *)
Definition typeDraft (d cal prot : jsstring) (s : Screen) : Screen :=
  {| meals := meals s; showModal := showModal s; desc := d; calText := cal;
     protText := prot; photoUri := photoUri s; estimating := estimating s;
     estimateError := estimateError s |}.

Definition setPhotoUri (u : option jsstring) (s : Screen) : Screen :=
  {| meals := meals s; showModal := showModal s; desc := desc s; calText := calText s;
     protText := protText s; photoUri := u; estimating := estimating s;
     estimateError := estimateError s |}.

(** ** takePhoto *)

(** ImagePicker.requestCameraPermissionsAsync() *)
Inductive PermissionOutcome : Type :=
| PermissionRejects (e : Thrown)
| PermissionAnswers (status : jsstring).

Record Asset : Type := { uri : option jsstring }.

(** ImagePicker.launchCameraAsync(...) *)
Inductive CameraOutcome : Type :=
| CameraRejects (e : Thrown)
| CameraResolves (canceled : bool) (assets : option (list Asset)).

(** result.assets?.[0]?.uri *)
Definition firstUri (assets : option (list Asset)) : option jsstring :=
  match assets with
  | Some (a :: _) => uri a
  | _ => None
  end.

(** The new world, and the exception that leaves the function, if any. *)
Definition takePhoto (permission : PermissionOutcome) (camera : CameraOutcome)
           (w : World) : option Thrown * World :=
  match permission with
  | PermissionRejects e => (Some e, w)
  | PermissionAnswers status =>
      if negb (str_eqb status (js "granted")) then
        (None,
         {| screen := screen w; storage := storage w;
            alerts := alerts w
                      ++ [{| title := js "Camera permission needed";
                             text := js "Please allow camera access to take food photos." |}] |})
      else
        match camera with
        | CameraRejects e => (Some e, w)
        | CameraResolves canceled assets =>
            if canceled then (None, w)
            else
              match firstUri assets with
              | None | Some [] => (None, w)
              | Some u =>
                  (None, {| screen := setPhotoUri (Some u) (screen w);
                            storage := storage w; alerts := alerts w |})
              end
        end
  end.

(** * The wording of the specification, for comparison with the code *)

(** "Parses as a non-negative integer": a field that is blank (read as 0) or a
    decimal numeral. *)
Definition spec_nonNegativeInteger (field : jsstring) : bool := forallb isDigit field.

(** "The photo-estimation call fails (non-OK HTTP status or network/parse
    error)": the request is rejected, the status is outside 200..299, the body
    cannot be read, or the body is not JSON. *)
Inductive CallFails : FetchOutcome -> Prop :=
| NetworkError (e : Thrown) : CallFails (FetchRejects e)
| NotOk (status : Z) (body : BodyOutcome) :
    responseOk status = false -> CallFails (FetchResolves status body)
| BodyUnreadable (status : Z) (e : Thrown) :
    CallFails (FetchResolves status (BodyRejects e))
| NotJson (status : Z) (raw : jsstring) :
    JSON_parse raw = None -> CallFails (FetchResolves status (BodyText raw)).

(** "Stored data that is corrupt (not parseable as the Meal sequence shape)". *)
Definition spec_corrupt (raw : jsstring) : Prop :=
  match JSON_parse raw with
  | Some v => mealsOfJSON v = None
  | None => True
  end.

(** The text of a JSON object as the model writes it: from an opening to a
    closing brace. *)
Definition braced (s : jsstring) : Prop := exists inner, s = ch "{" :: inner ++ [ch "}"].

Definition noBacktick (s : jsstring) : Prop := ~ In 96%N s.

Definition allSpace (s : jsstring) : Prop := forallb isWhiteSpace s = true.

(** The exact sum of an integer quantity over a list. *)
Definition sumZ {A : Type} (v : A -> Z) (l : list A) : Z :=
  fold_right (fun a s => v a + s) 0 l.

(** The meals of the day [d], and the meals whose day is one of [days]. *)
Definition onDay (d : jsstring) (m : Meal.t) : bool :=
  match dateKey (Meal.ts m) with
  | Some k => str_eqb k d
  | None => false
  end.

Definition inDays (days : list jsstring) (m : Meal.t) : bool :=
  existsb (fun d => onDay d m) days.

(** The numeral [u] followed by one more digit 0. *)
Fixpoint snoc0 (u : Decimal.uint) : Decimal.uint :=
  match u with
  | Decimal.Nil => Decimal.D0 Decimal.Nil
  | Decimal.D0 u => Decimal.D0 (snoc0 u)
  | Decimal.D1 u => Decimal.D1 (snoc0 u)
  | Decimal.D2 u => Decimal.D2 (snoc0 u)
  | Decimal.D3 u => Decimal.D3 (snoc0 u)
  | Decimal.D4 u => Decimal.D4 (snoc0 u)
  | Decimal.D5 u => Decimal.D5 (snoc0 u)
  | Decimal.D6 u => Decimal.D6 (snoc0 u)
  | Decimal.D7 u => Decimal.D7 (snoc0 u)
  | Decimal.D8 u => Decimal.D8 (snoc0 u)
  | Decimal.D9 u => Decimal.D9 (snoc0 u)
  end.

(** What may follow a JSON number: no digit, no point, no exponent mark. *)
Definition endsNumber (rest : jsstring) : bool :=
  match rest with
  | [] => true
  | c :: _ => negb (isDigit c || N.eqb c (ch ".") || N.eqb c (ch "e") || N.eqb c (ch "E"))
  end.

(** A Number that is an integer of at most fifteen digits (and not -0). *)
Definition isOrdinary (x : Number) : bool :=
  match truncate x with
  | Some z => (Z.abs z <? 10 ^ 15) && Number_eqb x (ofZ z)
  | None => false
  end.

(** ** JSON values that are written and read back as they are *)

Fixpoint distinct (keys : list jsstring) : bool :=
  match keys with
  | [] => true
  | k :: r => negb (existsb (str_eqb k) r) && distinct r
  end.

(** The keys of an object in the order in which JavaScript lists them: the
    array indices first, in ascending order, then the other keys.  [low] is
    the last index seen, and none once a key that is no index was seen. *)
Fixpoint keysInOrder (low : option Z) (keys : list jsstring) : bool :=
  match keys with
  | [] => true
  | k :: r =>
      match arrayIndex k with
      | Some n =>
          match low with
          | Some l => (l <? n) && keysInOrder (Some n) r
          | None => false
          end
      | None => keysInOrder None r
      end
  end.

(** Numbers are ordinary integers, and every object has its keys once each
    and in the order in which JavaScript lists them. *)
Fixpoint plain (v : JSON) : bool :=
  match v with
  | JNum x => isOrdinary x
  | JArr items => forallb plain items
  | JObj fields =>
      forallb (fun kv => plain (snd kv)) fields
      && (distinct (map fst fields) && keysInOrder (Some (-1)) (map fst fields))
  | _ => true
  end.

(** The levels of the recursive descent that reading the text of [v] takes. *)
Fixpoint weight (v : JSON) : nat :=
  match v with
  | JArr items => S (fold_right (fun i n => S (weight i + n)%nat) O items)
  | JObj fields => S (fold_right (fun kv n => S (weight (snd kv) + n)%nat) O fields)
  | _ => 1%nat
  end.

Definition welems (items : list JSON) : nat :=
  fold_right (fun i n => S (weight i + n)%nat) O items.

Definition wmembers (fields : list (jsstring * JSON)) : nat :=
  fold_right (fun kv n => S (weight (snd kv) + n)%nat) O fields.

(** The text of the elements after the first, each led by its comma. *)
Definition tailText (items : list JSON) : jsstring :=
  flat_map (fun q => ch "," :: q) (map JSON_stringify items).

Definition memberText (kv : jsstring * JSON) : jsstring :=
  quote (fst kv) ++ js ":" ++ JSON_stringify (snd kv).

Definition membersTail (fields : list (jsstring * JSON)) : jsstring :=
  flat_map (fun q => ch "," :: q) (map memberText fields).

(** What may follow a JSON value inside a text, or end it. *)
Definition endsValue (rest : jsstring) : bool :=
  match rest with
  | [] => true
  | c :: _ => N.eqb c (ch ",") || N.eqb c (ch "]") || N.eqb c (ch "}")
  end.

(** A meal whose three numbers are ordinary. *)
Definition ordinaryMeal (m : Meal.t) : bool :=
  isOrdinary (Meal.ts m) && isOrdinary (Meal.calories m) && isOrdinary (Meal.protein_g m).

(** ** The request of POST /estimate, in the words of the specification *)

(** A part that brings a file: a file part whose file name is not empty. *)
Definition bringsFile (p : Server.Part) : bool :=
  match p with
  | Server.FilePart _ (_ :: _) _ => true
  | _ => false
  end.

(** A photo file: a file in the field photo. *)
Definition isPhoto (p : Server.Part) : bool :=
  match p with
  | Server.FilePart field (_ :: _) _ => str_eqb field (js "photo")
  | _ => false
  end.

Definition beyondLimits (p : Server.Part) : bool :=
  match p with
  | Server.TextField _ _ ok => negb ok
  | _ => false
  end.

Definition partsOf (req : Server.Request) : list Server.Part :=
  match req with
  | Server.NotMultipart => []
  | Server.Multipart parts _ => parts
  end.

(** "The request carries no photo file" is [carriesPhoto req = false]. *)
Definition carriesPhoto (req : Server.Request) : bool := existsb isPhoto (partsOf req).

Definition carriesFile (req : Server.Request) : bool := existsb bringsFile (partsOf req).

(** The bytes of the first photo of the request. *)
Definition photoOf (req : Server.Request) : option (list N) :=
  match filter isPhoto (partsOf req) with
  | Server.FilePart _ _ content :: _ => Some content
  | _ => None
  end.

(** The requests that upload.single("photo") does not let through: a body
    that is not well-formed, a text field beyond the limits of the parser, a
    file in another field than photo, or more than one photo. *)
Definition refusedUpload (req : Server.Request) : bool :=
  match req with
  | Server.NotMultipart => false
  | Server.Multipart parts wellFormed =>
      negb wellFormed
      || existsb beyondLimits parts
      || existsb (fun p => bringsFile p && negb (isPhoto p)) parts
      || (1 <? length (filter isPhoto parts))%nat
  end.

(** The text the handler takes from the answer of the model:
    resp.output_text?.trim() || "". *)
Definition modelText (output_text : option jsstring) : jsstring :=
  match output_text with
  | Some t => trim t
  | None => []
  end.

(** A value that String() and Number() cannot convert: an object with a key
    toString of its own, or an array that holds one at any depth. *)
Fixpoint unconvertible (v : JSON) : bool :=
  match v with
  | JObj fields => match getProp (js "toString") fields with Some _ => true | None => false end
  | JArr items => existsb unconvertible items
  | _ => false
  end.





(** A markdown code fence somewhere in the text: three backticks in a row. *)
Definition fenceAt (s : jsstring) : bool :=
  match s with
  | a :: b :: c :: _ => N.eqb a 96 && N.eqb b 96 && N.eqb c 96
  | _ => false
  end.

Fixpoint hasFence (s : jsstring) : bool :=
  match s with
  | [] => false
  | _ :: r => fenceAt s || hasFence r
  end.

(** * Concrete inputs of the examples *)

Definition emptyStorage : Storage := fun _ => None.

(** The entry form as the user left it, over a given ledger. *)
Definition formOver (ledger : list Meal.t) (cal prot : jsstring) : World :=
  {| screen := {| meals := ledger; showModal := true; desc := js "Lunch";
                  calText := cal; protText := prot; photoUri := None;
                  estimating := false; estimateError := None |};
     storage := emptyStorage;
     alerts := [] |}.

(** 14 November 2023, 22:13:20 UTC, with a random draw of 0. *)
Definition november : SaveEnv :=
  {| nowForId := 1700000000000; random := Zero false;
     nowForTs := 1700000000000; writeOk := true; radix36 := everyDigit36 |}.

Definition lunch : Meal.t :=
  {| Meal.id := js "loyw3v28"; Meal.ts := ofZ 1700000000000;
     Meal.description := js "Lunch"; Meal.calories := ofZ 650;
     Meal.protein_g := ofZ 40; Meal.photoUri := None |}.

(** Monday 11 March 2024, 19:30 in New York (23:30 UTC), the day after the
    clocks went forward. *)
Definition newYorkEvening : Device := {| now := 1710199800000; zone := usEastern2024 |}.

(** A meal logged on Sunday 10 March 2024 at 12:00 UTC. *)
Definition sundayMeal : Meal.t :=
  {| Meal.id := js "ltm1mdc0"; Meal.ts := ofZ 1710072000000;
     Meal.description := js "Brunch"; Meal.calories := ofZ 500;
     Meal.protein_g := ofZ 30; Meal.photoUri := None |}.

(** An engine, with messages in the style of Hermes. *)
Definition hermes : Engine :=
  {| syntaxError := fun _ => {| name := js "SyntaxError"; message := js "JSON Parse error" |};
     nullProperty := fun k => {| name := js "TypeError";
                                 message := js "Cannot read property of null" |};
     noSuchFile := fun p => {| name := js "Error";
                               message := js "ENOENT: no such file or directory" |};
     cannotConvert := {| name := js "TypeError";
                         message := js "Cannot convert object to primitive value" |} |}.

(** The upload directory with one stored photo. *)
Definition upload : Server.Upload := {| Server.path := js "uploads/3f9a" |}.

Definition uploads : Server.Files :=
  fun p => if str_eqb p (js "uploads/3f9a") then Some [255; 216; 255]%N else None.

(** The draft with a photo, before the estimate is asked for. *)
Definition photoDraft : Screen :=
  {| meals := [lunch]; showModal := true; desc := js "my plate"; calText := js "12";
     protText := js "3"; photoUri := Some (js "file:///photo.jpg");
     estimating := false; estimateError := None |}.


(** A model that answers with a fenced object. *)
Definition soupModel : list N -> Server.Upstream :=
  fun _ => Server.UpstreamAnswers
             (Some (jsq "```json {'description':'Soup','calories':120.4,'protein_g':7} ```")).

(** * Facts about the platform model *)

(** ** The model on the values every engine agrees on *)

Example parseInt_examples :
  parseInt (js "650") = ofZ 650
  /\ parseInt (js "  -12abc") = ofZ (-12)
  /\ parseInt (js "3.7") = ofZ 3
  /\ parseInt (js "abc") = NaN
  /\ parseInt (js "") = NaN
  /\ parseInt (js "9007199254740993") = Finite false 1 53.
Proof. repeat split. Qed.

Example StringToNumber_examples :
  StringToNumber (js "310.7") = Finite false 5465892204000051 (-44)
  /\ StringToNumber (js " 12e2 ") = ofZ 1200
  /\ StringToNumber (js "") = Zero false
  /\ StringToNumber (js "0x1f") = ofZ 31
  /\ StringToNumber (js "12px") = NaN
  /\ StringToNumber (js "1e400") = Infinity false.
Proof. repeat split. Qed.

Example NumberToString_examples :
  NumberToString (StringToNumber (js "310.7")) = js "310.7"
  /\ NumberToString (Nadd (StringToNumber (js "0.1")) (StringToNumber (js "0.2")))
     = js "0.30000000000000004"
  /\ NumberToString (ofZ (2 ^ 63)) = js "9223372036854776000"
  /\ NumberToString (ofZ (10 ^ 21)) = js "1e+21"
  /\ NumberToString (StringToNumber (js "0.0000001")) = js "1e-7"
  /\ NumberToString (ofZ (-1200)) = js "-1200".
Proof. repeat split; vm_compute; reflexivity. Qed.

Example Math_round_examples :
  Math_round (StringToNumber (js "2.5")) = ofZ 3
  /\ Math_round (StringToNumber (js "-2.5")) = ofZ (-2)
  /\ Math_round (StringToNumber (js "-0.2")) = Zero true
  /\ Math_round (StringToNumber (js "0.49999999999999994")) = Zero false.
Proof. repeat split. Qed.

Example toISOString_examples :
  toISOString 0 = js "1970-01-01T00:00:00.000Z"
  /\ toISOString 951782400000 = js "2000-02-29T00:00:00.000Z"
  /\ toISOString 1710199800000 = js "2024-03-11T23:30:00.000Z"
  /\ toISOString (-1) = js "1969-12-31T23:59:59.999Z"
  /\ (forall radix36, toString36 radix36 (ofZ 1700000000000) = js "loyw3v28").
Proof. repeat split; vm_compute; reflexivity. Qed.

Example JSON_examples :
  JSON_parse (jsq "{'a': [1, 2.5, 'x\n'], 'b': null, 'a': true}")
  = Some (JObj [(js "a", JBool true); (js "b", JNull)])
  /\ JSON_parse (jsq "{'b': 1, '10': 2, '9': 3, '01': 4}")
     = Some (JObj [(js "9", JNum (ofZ 3)); (js "10", JNum (ofZ 2)); (js "b", JNum (ofZ 1));
                   (js "01", JNum (ofZ 4))])
  /\ JSON_parse (js "[1,]") = None
  /\ JSON_parse (js "01") = None
  /\ JSON_parse (js "") = None
  /\ JSON_stringify (mealsToJSON [lunch])
     = jsq "[{'id':'loyw3v28','ts':1700000000000,'description':'Lunch','calories':650,'protein_g':40}]".
Proof. repeat split; vm_compute; reflexivity. Qed.

Lemma str_eqb_eq (s t : jsstring) : str_eqb s t = true <-> s = t.
Proof.
  revert t; induction s as [|c s IH]; intros [|d t]; simpl; split; try congruence; auto.
  - intros H. apply andb_true_iff in H as [Hc Hs].
    apply N.eqb_eq in Hc. apply IH in Hs. congruence.
  - intros H. injection H as -> ->. rewrite N.eqb_refl. simpl. now apply IH.
Qed.

Lemma str_eqb_refl (s : jsstring) : str_eqb s s = true.
Proof. now apply str_eqb_eq. Qed.

Lemma str_eqb_neq (s t : jsstring) : str_eqb s t = false <-> s <> t.
Proof.
  split.
  - intros H E. apply str_eqb_eq in E. congruence.
  - intros H. destruct (str_eqb s t) eqn:E; auto. apply str_eqb_eq in E. contradiction.
Qed.

Lemma round64_not_NaN (neg : bool) (p q : positive) : isNaN (round64 neg p q) = false.
Proof.
  unfold round64.
  repeat match goal with
         | |- context [match ?x with _ => _ end] => destruct x eqn:?; simpl; auto
         end.
  all: unfold mkFinite; destruct (strip _ _); reflexivity.
Qed.

Lemma parseInt_NaN (s : jsstring) : isNaN (parseInt s) = true <-> leadingDigits s = [].
Proof.
  unfold parseInt. destruct (leadingDigits s) as [|c z] eqn:E.
  - simpl; tauto.
  - split; [|discriminate].
    destruct (digitsValue (c :: z)); simpl; try discriminate.
    now rewrite round64_not_NaN.
Qed.

(** ** Decimal numerals are read back by parseInt *)

Lemma uintChars_digits (u : Decimal.uint) : forallb isDigit (uintChars u) = true.
Proof. induction u; simpl; auto. Qed.

Lemma digitsPrefix_all (s : jsstring) : forallb isDigit s = true -> digitsPrefix s = s.
Proof.
  induction s as [|c s IH]; simpl; auto.
  intros H. apply andb_true_iff in H as [Hc Hs]. rewrite Hc. f_equal. auto.
Qed.

Lemma isDigit_not_space (c : N) : isDigit c = true -> isWhiteSpace c = false.
Proof.
  unfold isDigit, isWhiteSpace. intros H.
  apply andb_true_iff in H as [H1 H2]. apply N.leb_le in H1, H2.
  simpl.
  repeat match goal with
         | |- context [N.eqb c ?k] =>
             let E := fresh in destruct (N.eqb_spec c k) as [E|E]; [lia|]
         end.
  simpl. destruct (N.leb_spec 8192 c); simpl; auto. lia.
Qed.

Lemma leadingDigits_numeral (s : jsstring) :
  forallb isDigit s = true -> leadingDigits s = s /\ fst (takeSign (trimStart s)) = false.
Proof.
  intros H. unfold leadingDigits.
  destruct s as [|c s]; [simpl; auto|].
  pose proof H as H'. simpl in H'. apply andb_true_iff in H' as [Hc _].
  simpl trimStart. rewrite (isDigit_not_space c Hc).
  unfold takeSign.
  assert (N.eqb c (ch "-") = false /\ N.eqb c (ch "+") = false) as [-> ->].
  { unfold isDigit in Hc. apply andb_true_iff in Hc as [H1 H2].
    apply N.leb_le in H1, H2. split; apply N.eqb_neq; unfold ch; simpl; lia. }
  split; auto. now apply (digitsPrefix_all (c :: s)).
Qed.

Lemma of_uint_acc_value (u : Decimal.uint) (acc : positive) :
  fold_left (fun a c => 10 * a + digitVal c) (uintChars u) (Zpos acc)
  = Zpos (Pos.of_uint_acc u acc).
Proof.
  revert acc; induction u; intros acc; cbn [uintChars fold_left Pos.of_uint_acc]; auto;
    rewrite <- IHu; f_equal; unfold digitVal; cbn [Z.of_N]; lia.
Qed.

Lemma of_uint_value (u : Decimal.uint) :
  digitsValue (uintChars u) = Z.of_N (Pos.of_uint u).
Proof.
  unfold digitsValue.
  induction u; cbn [uintChars fold_left Pos.of_uint Z.of_N]; auto;
    try (rewrite <- of_uint_acc_value; f_equal; unfold digitVal; cbn [Z.of_N]; lia).
Qed.

Lemma digitsValue_decimal (n : N) : digitsValue (decimal n) = Z.of_N n.
Proof.
  unfold decimal. rewrite of_uint_value.
  change (Pos.of_uint (N.to_uint n)) with (N.of_uint (N.to_uint n)).
  now rewrite DecimalN.Unsigned.of_to.
Qed.

Lemma decimal_not_empty (n : N) : decimal n <> [].
Proof.
  unfold decimal. destruct n as [|p]; simpl; [discriminate|].
  pose proof (DecimalPos.Unsigned.to_uint_nonnil p) as H.
  destruct (Pos.to_uint p); simpl; congruence.
Qed.

Lemma parseInt_decimal (n : N) : parseInt (decimal n) = ofZ (Z.of_N n).
Proof.
  unfold parseInt.
  destruct (leadingDigits_numeral (decimal n) (uintChars_digits _)) as [-> ->].
  destruct (decimal n) eqn:E; [now apply decimal_not_empty in E|].
  rewrite <- E, digitsValue_decimal.
  destruct n; reflexivity.
Qed.

(** ** Integers below 2^53 are Numbers *)

Lemma strip_spec (m : positive) :
  forall e m' e', strip m e = (m', e') -> e <= e' /\ Zpos m = Zpos m' * 2 ^ (e' - e).
Proof.
  induction m as [m IH | m IH |]; intros e m' e' H; simpl in H.
  - injection H as <- <-. rewrite Z.sub_diag. simpl. lia.
  - apply IH in H as [Hle Hv]. split; [lia|].
    replace (e' - e) with (Z.succ (e' - (e + 1))) by lia.
    rewrite Z.pow_succ_r by lia. lia.
  - injection H as <- <-. rewrite Z.sub_diag. simpl. lia.
Qed.

(** The integer part of a Number does not depend on how its mantissa is
    normalized. *)
Lemma truncate_mkFinite (neg : bool) (m : positive) (e : Z) :
  truncate (mkFinite neg m e)
  = Some (signed neg (if 0 <=? e then Zpos m * 2 ^ e else Zpos m / 2 ^ (- e))).
Proof.
  unfold mkFinite. destruct (strip m e) as [m' e'] eqn:E.
  apply strip_spec in E as [Hle Hv]. cbn [truncate]. do 2 f_equal.
  rewrite Hv.
  destruct (Z.leb_spec 0 e), (Z.leb_spec 0 e'); try lia.
  - rewrite <- Z.mul_assoc, <- Z.pow_add_r by lia. do 2 f_equal. lia.
  - replace e' with ((e' - e) - (- e)) at 1 by lia.
    rewrite Z.pow_sub_r by lia.
    rewrite <- Z.divide_div_mul_exact.
    + reflexivity.
    + apply Z.pow_nonzero; lia.
    + exists (2 ^ e'). rewrite <- Z.pow_add_r by lia. f_equal; lia.
  - replace (- e) with ((e' - e) + (- e')) by lia.
    rewrite Z.pow_add_r by lia.
    rewrite (Z.mul_comm (2 ^ (e' - e)) (2 ^ (- e'))).
    symmetry. apply Z.div_mul_cancel_r; apply Z.pow_nonzero; lia.
Qed.

Lemma round64_integer (neg : bool) (p : positive) :
  Zpos p < 2 ^ 53 -> truncate (round64 neg p 1) = Some (signed neg (Zpos p)).
Proof.
  intros Hp.
  assert (Hlog : 0 <= Z.log2 (Zpos p) <= 52).
  { split; [apply Z.log2_nonneg|].
    assert (Z.log2 (Zpos p) < 53); [|lia].
    apply Z.log2_lt_pow2; lia. }
  pose proof (Z.log2_spec (Zpos p) eq_refl) as [Hlo _].
  unfold round64.
  change (Z.log2 1) with 0. rewrite Z.sub_0_r.
  destruct (Z.leb_spec 0 (Z.log2 (Zpos p))); [|lia].
  change (Zpos 1 * 2 ^ Z.log2 (Zpos p)) with (1 * 2 ^ Z.log2 (Zpos p)).
  rewrite Z.mul_1_l.
  destruct (Z.leb_spec (2 ^ Z.log2 (Zpos p)) (Zpos p)); [|lia].
  rewrite Z.max_l by lia.
  set (u := Z.log2 (Zpos p) - 52).
  destruct (Z.leb_spec 0 u).
  - assert (u = 0) as -> by lia.
    change (Zpos 1 * 2 ^ 0) with 1.
    rewrite Z.div_1_r, Z.mod_1_r.
    change (2 * 0) with 0. change (1 <? 0) with false. change (1 =? 0) with false.
    cbn [orb andb].
    rewrite Z.add_0_r.
    destruct (Z.leb_spec 1024 (Z.log2 (Zpos p))); [lia|].
    rewrite truncate_mkFinite. simpl. now rewrite Pos.mul_1_r.
  - change (Zpos 1) with 1.
    rewrite Z.div_1_r, Z.mod_1_r.
    change (2 * 0) with 0. change (1 <? 0) with false. change (1 =? 0) with false.
    cbn [orb andb].
    assert (Hpos : 0 < 2 ^ (- u)) by (apply Z.pow_pos_nonneg; lia).
    destruct (Zpos p * 2 ^ (- u)) as [|q|q] eqn:Eq; try lia.
    assert (Z.log2 (Zpos q) = Z.log2 (Zpos p) + - u) as ->
        by (rewrite <- Eq, Z.log2_mul_pow2 by lia; lia).
    destruct (Z.leb_spec 1024 (Z.log2 (Zpos p) + - u + u)); [lia|].
    rewrite truncate_mkFinite.
    destruct (Z.leb_spec 0 u); [lia|].
    rewrite <- Eq, Z.div_mul by lia. reflexivity.
Qed.

(** An integer below 2^53 in magnitude is a Number, with itself as value. *)
Lemma truncate_ofZ (z : Z) : Z.abs z < 2 ^ 53 -> truncate (ofZ z) = Some z.
Proof.
  destruct z as [|p|p]; intros H; [reflexivity| |];
    unfold ofZ; rewrite round64_integer by exact H; reflexivity.
Qed.

(** dateKey of a clock reading is the UTC date of its ISO string. *)
Lemma dateKey_ofZ (t : Z) :
  Z.abs t <= maxTime -> dateKey (ofZ t) = Some (slice0 10 (toISOString t)).
Proof.
  intros H. unfold dateKey, newDate.
  rewrite truncate_ofZ by (unfold maxTime in H; lia).
  unfold TimeClip. destruct (Z.leb_spec (Z.abs t) maxTime); [reflexivity|lia].
Qed.

(** ** JSON.parse never runs out of fuel *)

Lemma skipWs_length (s : jsstring) : (length (skipWs s) <= length s)%nat.
Proof.
  induction s as [|c s IH]; simpl; auto. destruct (isJsonWs c); simpl; lia.
Qed.

Lemma span_length (f : N -> bool) (s a b : jsstring) :
  span f s = (a, b) -> (length a + length b = length s)%nat.
Proof.
  revert a b; induction s as [|c s IH]; simpl; intros a b H.
  - injection H as <- <-. reflexivity.
  - destruct (f c).
    + destruct (span f s) as [a' b']. injection H as <- <-.
      specialize (IH a' b' eq_refl). simpl. lia.
    + injection H as <- <-. reflexivity.
Qed.

Lemma dropPrefix_length (p s r : jsstring) :
  dropPrefix p s = Some r -> (length r <= length s)%nat.
Proof.
  revert s; induction p as [|a p IH]; intros [|b s]; simpl; intros H;
    try discriminate; try (injection H as <-; simpl; lia).
  destruct (N.eqb a b); [|discriminate]. apply IH in H. lia.
Qed.

Lemma takeSign_length (s : jsstring) : (length (snd (takeSign s)) <= length s)%nat.
Proof.
  destruct s as [|c s]; [simpl; auto|]. unfold takeSign.
  destruct (N.eqb c (ch "-")); [simpl; lia|].
  destruct (N.eqb c (ch "+")); simpl; lia.
Qed.

Lemma parseChars_length (s : jsstring) :
  forall acc str r, parseChars s acc = Some (str, r) -> (length r < length s)%nat.
Proof.
  assert (G : forall n s, (length s <= n)%nat ->
              forall acc str r, parseChars s acc = Some (str, r) ->
                                (length r < length s)%nat).
  { induction n as [|n IH]; intros s0 Hn acc str r H.
    - destruct s0; [discriminate|simpl in Hn; lia].
    - destruct s0 as [|c s0]; [discriminate|]. simpl in Hn.
      cbn [parseChars] in H.
      destruct (N.eqb c 34); [injection H as <- <-; simpl; lia|].
      destruct (N.ltb c 32); [discriminate|].
      destruct (N.eqb c (ch "\")).
      + destruct s0 as [|e s0]; [discriminate|]. simpl in Hn.
        assert (Hs : forall u, parseChars s0 (u :: acc) = Some (str, r) ->
                               (length r < length (c :: e :: s0))%nat).
        { intros u Hu. apply IH in Hu; simpl; lia. }
        repeat match type of H with
               | (if ?b then _ else _) = _ => destruct b; [now apply Hs in H|]
               end.
        destruct (N.eqb e (ch "u")); [|discriminate].
        destruct s0 as [|a [|b [|c' [|d s0]]]]; try discriminate.
        destruct (forallb isHexDigit [a; b; c'; d]); [|discriminate].
        apply IH in H; simpl in *; lia.
      + apply IH in H; simpl in *; lia. }
  intros acc str r. apply (G (length s)). lia.
Qed.

Lemma parseNumber_length (s : jsstring) (x : Number) (r : jsstring) :
  parseNumber s = Some (x, r) -> (length r < length s)%nat.
Proof.
  unfold parseNumber. intros H.
  set (s1 := match s with
             | c :: s' => if N.eqb c (ch "-") then (true, s') else (false, s)
             | [] => (false, [])
             end) in H.
  assert (Hs1 : (length (snd s1) <= length s)%nat).
  { unfold s1. destruct s as [|c s]; [simpl; lia|].
    destruct (N.eqb c (ch "-")); simpl; lia. }
  destruct s1 as [neg s1']. simpl in Hs1.
  set (d := match s1' with
            | c :: s' => if N.eqb c (ch "0") then ([c], s') else span isDigit s1'
            | [] => ([], [])
            end) in H.
  assert (Hd : (length (fst d) + length (snd d) = length s1')%nat).
  { unfold d. destruct s1' as [|c s1'']; [reflexivity|].
    destruct (N.eqb c (ch "0")); [reflexivity|].
    destruct (span isDigit (c :: s1'')) as [a b] eqn:E. apply span_length in E.
    exact E. }
  destruct d as [d1 r1]. simpl in Hd.
  destruct d1 as [|c0 d1]; [discriminate|]. simpl in Hd.
  match type of H with
  | match ?f with _ => _ end = _ => destruct f as [[d2 r2]|] eqn:Ef; [|discriminate]
  end.
  assert (Hr2 : (length r2 <= length r1)%nat).
  { destruct r1 as [|c r1']; [injection Ef as <- <-; simpl; lia|].
    destruct (N.eqb c (ch ".")).
    - destruct (span isDigit r1') as [a b] eqn:E. apply span_length in E.
      destruct a; [discriminate|]. injection Ef as <- <-. simpl in *. lia.
    - injection Ef as <- <-. lia. }
  match type of H with
  | match ?f with _ => _ end = _ => destruct f as [[ex rest]|] eqn:Ee; [|discriminate]
  end.
  assert (Hrest : (length rest <= length r2)%nat).
  { destruct r2 as [|c r2']; [injection Ee as <- <-; simpl; lia|].
    destruct (N.eqb c (ch "e") || N.eqb c (ch "E")).
    - pose proof (takeSign_length r2') as Ht.
      destruct (takeSign r2') as [eneg r3]. simpl in Ht.
      destruct (span isDigit r3) as [a b] eqn:E. apply span_length in E.
      destruct a; [discriminate|]. injection Ee as <- <-. simpl in *. lia.
    - injection Ee as <- <-. lia. }
  injection H as <- <-. lia.
Qed.

Lemma skipWs_cons_length (s r : jsstring) (c : N) :
  skipWs s = c :: r -> (length r < length s)%nat.
Proof. intros H. pose proof (skipWs_length s). rewrite H in *. simpl in *. lia. Qed.

(** One case analysis on the scrutinee at the head of a parser equation [H];
    the fuel itself is never taken apart. *)
Ltac parse_step H :=
  let split x :=
    lazymatch type of x with
    | nat => fail
    | _ => let E := fresh "E" in
           destruct x eqn:E; cbn [option_map] in H; try discriminate H
    end in
  lazymatch type of H with
  | match ?x with _ => _ end = _ => split x
  | option_map _ ?x = _ => split x
  end.

Ltac parse_lengths IHv IHe IHm :=
  repeat match goal with
    | E : skipWs _ = _ :: _ |- _ => apply skipWs_cons_length in E
    | E : parseChars _ _ = Some _ |- _ => apply parseChars_length in E
    | E : dropPrefix _ _ = Some _ |- _ => apply dropPrefix_length in E
    | E : parseNumber _ = Some _ |- _ => apply parseNumber_length in E
    | E : _ = Some _ |- _ => first [apply IHv in E | apply IHe in E | apply IHm in E]
    end.

(** A successful parse consumes at least one code unit. *)
Lemma valueStep_consumes elements members :
  (forall s acc v r, elements s acc = Some (v, r) -> (length r < length s)%nat) ->
  (forall s acc v r, members s acc = Some (v, r) -> (length r < length s)%nat) ->
  forall s v r, valueStep elements members s = Some (v, r) -> (length r < length s)%nat.
Proof.
  intros IHe IHm s v r H. unfold valueStep in H.
  repeat parse_step H.
  all: try (injection H as <- <-); parse_lengths IHe IHe IHm.
  all: cbn [length] in *; lia.
Qed.

Lemma elementsStep_consumes value elements :
  (forall s v r, value s = Some (v, r) -> (length r < length s)%nat) ->
  (forall s acc v r, elements s acc = Some (v, r) -> (length r < length s)%nat) ->
  forall s acc v r, elementsStep value elements s acc = Some (v, r) ->
                    (length r < length s)%nat.
Proof.
  intros IHv IHe s acc v r H. unfold elementsStep in H.
  repeat parse_step H.
  all: try (injection H as <- <-); parse_lengths IHv IHe IHe.
  all: cbn [length] in *; lia.
Qed.

Lemma membersStep_consumes value members :
  (forall s v r, value s = Some (v, r) -> (length r < length s)%nat) ->
  (forall s acc v r, members s acc = Some (v, r) -> (length r < length s)%nat) ->
  forall s acc v r, membersStep value members s acc = Some (v, r) ->
                    (length r < length s)%nat.
Proof.
  intros IHv IHm s acc v r H. unfold membersStep in H.
  repeat parse_step H.
  all: try (injection H as <- <-); parse_lengths IHv IHm IHm.
  all: cbn [length] in *; lia.
Qed.

Lemma parse_consumes (fuel : nat) :
  (forall s v r, parseValue fuel s = Some (v, r) -> (length r < length s)%nat)
  /\ (forall s acc v r, parseElements fuel s acc = Some (v, r) -> (length r < length s)%nat)
  /\ (forall s acc v r, parseMembers fuel s acc = Some (v, r) -> (length r < length s)%nat).
Proof.
  induction fuel as [|f (IHv & IHe & IHm)]; [repeat split; discriminate|].
  repeat split; cbn [parseValue parseElements parseMembers].
  - now apply valueStep_consumes.
  - now apply elementsStep_consumes.
  - now apply membersStep_consumes.
Qed.

(** Each step only asks the parsers below about shorter texts. *)
Lemma valueStep_ext e e' m m' (s : jsstring) :
  (forall r acc, (length r < length s)%nat -> e r acc = e' r acc) ->
  (forall r acc, (length r < length s)%nat -> m r acc = m' r acc) ->
  valueStep e m s = valueStep e' m' s.
Proof.
  intros He Hm. unfold valueStep.
  destruct (skipWs s) as [|c r] eqn:Es; [reflexivity|].
  apply skipWs_cons_length in Es.
  destruct (skipWs r) as [|d r'] eqn:Er.
  - reflexivity.
  - pose proof (skipWs_length r) as Hr. rewrite Er in Hr.
    rewrite He, Hm by (cbn [length] in *; lia). reflexivity.
Qed.

Lemma elementsStep_ext v v' e e' (s : jsstring) (acc : list JSON) :
  (forall x r, v s = Some (x, r) -> (length r < length s)%nat) ->
  v s = v' s ->
  (forall r acc, (length r < length s)%nat -> e r acc = e' r acc) ->
  elementsStep v e s acc = elementsStep v' e' s acc.
Proof.
  intros Hc Hv He. unfold elementsStep. rewrite <- Hv.
  case_eq (v s); [intros [x r] E | reflexivity].
  apply Hc in E.
  destruct (skipWs r) as [|c r'] eqn:Er; [reflexivity|].
  apply skipWs_cons_length in Er.
  rewrite He by lia. reflexivity.
Qed.

Lemma membersStep_ext v v' m m' (s : jsstring) (acc : list (jsstring * JSON)) :
  (forall s x r, v s = Some (x, r) -> (length r < length s)%nat) ->
  (forall r, (length r < length s)%nat -> v r = v' r) ->
  (forall r acc, (length r < length s)%nat -> m r acc = m' r acc) ->
  membersStep v m s acc = membersStep v' m' s acc.
Proof.
  intros Hc Hv Hm. unfold membersStep.
  destruct (skipWs s) as [|q r] eqn:Es; [reflexivity|].
  apply skipWs_cons_length in Es.
  destruct (negb (N.eqb q 34)); [reflexivity|].
  destruct (parseChars r []) as [[k r1]|] eqn:Ek; [|reflexivity].
  apply parseChars_length in Ek.
  destruct (skipWs r1) as [|c r2] eqn:E1; [reflexivity|].
  apply skipWs_cons_length in E1.
  destruct (negb (N.eqb c (ch ":"))); [reflexivity|].
  rewrite <- Hv by lia.
  destruct (v r2) as [[x r3]|] eqn:E2; [|reflexivity].
  apply Hc in E2.
  destruct (skipWs r3) as [|d r4] eqn:E3; [reflexivity|].
  apply skipWs_cons_length in E3.
  rewrite Hm by lia. reflexivity.
Qed.

(** Past twice the length of the text, more fuel changes nothing. *)
Lemma parse_fuel_step (f : nat) :
  (forall s, (2 * length s + 1 <= f)%nat -> parseValue (S f) s = parseValue f s)
  /\ (forall s acc, (2 * length s + 2 <= f)%nat ->
                     parseElements (S f) s acc = parseElements f s acc)
  /\ (forall s acc, (2 * length s + 2 <= f)%nat ->
                     parseMembers (S f) s acc = parseMembers f s acc).
Proof.
  induction f as [|f (IHv & IHe & IHm)]; [repeat split; intros; lia|].
  destruct (parse_consumes (S f)) as (Cv & _ & _).
  repeat split.
  - intros s Hs.
    change (valueStep (parseElements (S f)) (parseMembers (S f)) s
            = valueStep (parseElements f) (parseMembers f) s).
    apply valueStep_ext; intros r acc Hr; [apply IHe | apply IHm]; lia.
  - intros s acc Hs.
    change (elementsStep (parseValue (S f)) (parseElements (S f)) s acc
            = elementsStep (parseValue f) (parseElements f) s acc).
    apply elementsStep_ext.
    + apply Cv.
    + apply IHv. lia.
    + intros r acc' Hr. apply IHe. lia.
  - intros s acc Hs.
    change (membersStep (parseValue (S f)) (parseMembers (S f)) s acc
            = membersStep (parseValue f) (parseMembers f) s acc).
    apply membersStep_ext.
    + apply Cv.
    + intros r Hr. apply IHv. lia.
    + intros r acc' Hr. apply IHm. lia.
Qed.

(** JSON.parse is the parser with any fuel past its own: a text it rejects is
    rejected for its syntax, never for want of fuel. *)
Lemma parse_fuel_enough (text : jsstring) (extra : nat) :
  parseValue (2 * length text + 2 + extra) text = parseValue (2 * length text + 2) text.
Proof.
  induction extra as [|k IH].
  - now rewrite Nat.add_0_r.
  - rewrite <- IH. replace (2 * length text + 2 + S k)%nat
      with (S (2 * length text + 2 + k)) by lia.
    apply (parse_fuel_step (2 * length text + 2 + k)). lia.
Qed.

(** * saveMeal: validation (C1) *)

Lemma numeral_is_read (field : jsstring) :
  spec_nonNegativeInteger field = true -> leadingDigits (orText field (js "0")) <> [].
Proof.
  intros H. destruct field as [|c r]; [discriminate|].
  cbn [orText]. destruct (leadingDigits_numeral (c :: r) H) as [-> _]. discriminate.
Qed.

Lemma saveMeal_cases (env : SaveEnv) (w : World) :
  let cal := parseInt (orText (calText (screen w)) (js "0")) in
  let prot := parseInt (orText (protText (screen w)) (js "0")) in
  (isNaN cal || isNaN prot = true /\ fst (saveMeal env w) = InvalidInput
   /\ screen (snd (saveMeal env w)) = screen w
   /\ storage (snd (saveMeal env w)) = storage w)
  \/
  (isNaN cal || isNaN prot = false
   /\ exists m,
       (fst (saveMeal env w) = Saved m \/ fst (saveMeal env w) = WriteFailed m)
       /\ meals (screen (snd (saveMeal env w))) = m :: meals (screen w)
       /\ Meal.id m = newId env
       /\ Meal.calories m = cal /\ Meal.protein_g m = prot).
Proof.
  intros cal prot. unfold saveMeal. fold cal prot.
  destruct (isNaN cal || isNaN prot) eqn:E.
  - left. simpl. auto.
  - right. split; auto.
    eexists. destruct (writeOk env); simpl; repeat split; eauto.
Qed.

(** C1, as the code has it: [saveMeal] answers "Invalid input" exactly when
    parseInt finds no decimal digit to read in one of the two fields (a blank
    field being read as "0"), that is when no digit follows the leading white
    space and the optional sign.  A rejected save changes neither the screen
    state nor the store.  Every field that is blank or a decimal numeral is
    accepted, and two blank fields give a meal with 0 calories and 0 grams of
    protein.  The sign of the number read is not looked at. *)
Theorem saveMeal_rejects_unreadable_fields (env : SaveEnv) (w : World) :
  let cal := orText (calText (screen w)) (js "0") in
  let prot := orText (protText (screen w)) (js "0") in
  (fst (saveMeal env w) = InvalidInput
   <-> leadingDigits cal = [] \/ leadingDigits prot = [])
  /\ (fst (saveMeal env w) = InvalidInput ->
      screen (snd (saveMeal env w)) = screen w
      /\ storage (snd (saveMeal env w)) = storage w)
  /\ (spec_nonNegativeInteger (calText (screen w)) = true ->
      spec_nonNegativeInteger (protText (screen w)) = true ->
      fst (saveMeal env w) <> InvalidInput)
  /\ (calText (screen w) = [] -> protText (screen w) = [] ->
      exists m,
        (fst (saveMeal env w) = Saved m \/ fst (saveMeal env w) = WriteFailed m)
        /\ meals (screen (snd (saveMeal env w))) = m :: meals (screen w)
        /\ Meal.calories m = Zero false /\ Meal.protein_g m = Zero false).
Proof.
  intros cal prot.
  assert (Hiff : fst (saveMeal env w) = InvalidInput
                 <-> leadingDigits cal = [] \/ leadingDigits prot = []).
  { rewrite <- !parseInt_NaN, <- orb_true_iff. fold cal prot.
    destruct (saveMeal_cases env w) as [(E & -> & _) | (E & m & [-> | ->] & _)];
      fold cal prot in E; rewrite E; split; congruence. }
  split; [exact Hiff|]. split; [|split].
  - intros H. destruct (saveMeal_cases env w) as [(_ & _ & ? & ?) | (_ & m & [E | E] & _)];
      auto; congruence.
  - intros Hc Hp H. apply Hiff in H as [H | H]; revert H; now apply numeral_is_read.
  - intros Hc Hp.
    destruct (saveMeal_cases env w) as [(E & _) | (_ & m & Hm & Hl & _ & Hcal & Hprot)].
    + rewrite Hc, Hp in E. discriminate.
    + exists m. rewrite Hc in Hcal. rewrite Hp in Hprot. auto.
Qed.

(** C1 as stated fails: "-5" is not a non-negative integer, and the save goes
    through with -5 calories. *)
Lemma negative_calories_are_saved :
  spec_nonNegativeInteger (js "-5") = false
  /\ fst (saveMeal november (formOver [] (js "-5") []))
     = Saved {| Meal.id := js "loyw3v28"; Meal.ts := ofZ 1700000000000;
                Meal.description := js "Lunch"; Meal.calories := ofZ (-5);
                Meal.protein_g := Zero false; Meal.photoUri := None |}
  /\ map Meal.calories (meals (screen (snd (saveMeal november (formOver [] (js "-5") [])))))
     = [Finite true 5 0].
Proof. repeat split. Qed.

(** * saveMeal: the new meal and its id (C4) *)

(** C4, as the code has it: for every ledger and every pair of non-negative
    integers typed as decimal numerals, [saveMeal] puts exactly one new meal in
    front of the ledger, carrying the Number values of the pair (the integers
    themselves below 2^53); its id is
    (Date.now() + Math.random()).toString(36), which is not compared with the
    ids in the ledger: the ids stay pairwise distinct exactly when they were so
    before and the new id is not among them. *)
Theorem saveMeal_prepends_one_meal (env : SaveEnv) (w : World) (c p : N) :
  calText (screen w) = decimal c ->
  protText (screen w) = decimal p ->
  exists m,
    (fst (saveMeal env w) = Saved m \/ fst (saveMeal env w) = WriteFailed m)
    /\ meals (screen (snd (saveMeal env w))) = m :: meals (screen w)
    /\ Meal.calories m = ofZ (Z.of_N c)
    /\ Meal.protein_g m = ofZ (Z.of_N p)
    /\ (Z.of_N c < 2 ^ 53 -> truncate (Meal.calories m) = Some (Z.of_N c))
    /\ (Z.of_N p < 2 ^ 53 -> truncate (Meal.protein_g m) = Some (Z.of_N p))
    /\ Meal.id m = newId env
    /\ (NoDup (map Meal.id (meals (screen (snd (saveMeal env w)))))
        <-> NoDup (map Meal.id (meals (screen w)))
            /\ ~ In (newId env) (map Meal.id (meals (screen w)))).
Proof.
  intros Hc Hp.
  assert (orText_decimal : forall n, orText (decimal n) (js "0") = decimal n).
  { intros n. pose proof (decimal_not_empty n). destruct (decimal n); [congruence | reflexivity]. }
  destruct (saveMeal_cases env w) as [(E & _) | (_ & m & Hm & Hl & Hid & Hcal & Hprot)].
  - rewrite Hc, Hp, !orText_decimal, !parseInt_decimal in E.
    destruct c, p; simpl in E; try discriminate;
      rewrite ?round64_not_NaN in E; discriminate.
  - exists m. rewrite Hc, orText_decimal, parseInt_decimal in Hcal.
    rewrite Hp, orText_decimal, parseInt_decimal in Hprot.
    repeat split; auto.
    + intros Hb. rewrite Hcal. apply truncate_ofZ. lia.
    + intros Hb. rewrite Hprot. apply truncate_ofZ. lia.
    + rewrite Hl in H. simpl in H. now inversion H.
    + rewrite Hl in H. simpl in H. inversion H. congruence.
    + intros [Hn Hi]. rewrite Hl. simpl. constructor; congruence.
Qed.

Lemma saveMeal_prepends_one_meal_witness :
  exists m,
    (fst (saveMeal november (formOver [] (js "650") (js "40"))) = Saved m
     \/ fst (saveMeal november (formOver [] (js "650") (js "40"))) = WriteFailed m)
    /\ meals (screen (snd (saveMeal november (formOver [] (js "650") (js "40"))))) = [m]
    /\ Meal.calories m = ofZ 650
    /\ Meal.protein_g m = ofZ 40
    /\ (650 < 2 ^ 53 -> truncate (Meal.calories m) = Some 650)
    /\ (40 < 2 ^ 53 -> truncate (Meal.protein_g m) = Some 40)
    /\ Meal.id m = js "loyw3v28"
    /\ (NoDup (map Meal.id (meals (screen (snd (saveMeal november
                                                  (formOver [] (js "650") (js "40")))))))
        <-> NoDup (@nil jsstring) /\ ~ In (js "loyw3v28") []).
Proof.
  exact (saveMeal_prepends_one_meal november (formOver [] (js "650") (js "40")) 650 40
           eq_refl eq_refl).
Defined.

(** C4 as stated fails: the ledger holds the meal that [saveMeal] itself made
    at that clock reading and random draw, and the next meal made at the same
    reading and draw takes the same id. *)
Lemma saved_id_can_repeat :
  fst (saveMeal november (formOver [] (js "650") (js "40"))) = Saved lunch
  /\ map Meal.id (meals (screen (snd (saveMeal november (formOver [lunch] (js "300") (js "10"))))))
     = [js "loyw3v28"; js "loyw3v28"]
  /\ ~ NoDup (map Meal.id (meals (screen (snd (saveMeal november
                                                (formOver [lunch] (js "300") (js "10"))))))).
Proof.
  split; [reflexivity|]. split; [reflexivity|].
  intros H. inversion H as [|? ? Hin _]. apply Hin. now left.
Qed.

(** Only a dozen bits of the random draw reach the id: at this clock reading a
    draw of 2^-14 is rounded away by the addition, whatever the engine prints
    for a fraction. *)
Example small_draws_share_an_id :
  forall radix36,
    newId {| nowForId := 1700000000000; random := Finite false 1 (-14);
             nowForTs := 1700000000000; writeOk := true; radix36 := radix36 |}
    = newId november.
Proof. intros radix36. reflexivity. Qed.

(** deleteMeal keeps the ids of the ledger pairwise distinct. *)
Lemma deleteMeal_keeps_ids_distinct (ok : bool) (id : jsstring) (w : World) :
  NoDup (map Meal.id (meals (screen w))) ->
  NoDup (map Meal.id (meals (screen (deleteMeal ok id w)))).
Proof.
  unfold deleteMeal, persist. simpl.
  induction (meals (screen w)) as [|m l IH]; simpl; auto.
  intros H. inversion H as [|? ? Hin Hl]; subst.
  destruct (negb (str_eqb (Meal.id m) id)); simpl; auto.
  constructor; auto.
  intros Hm. apply Hin. apply in_map_iff in Hm as (x & Hx & Hf).
  apply filter_In in Hf as [Hf _]. apply in_map_iff. eauto.
Qed.

Lemma deleteMeal_keeps_ids_distinct_witness :
  NoDup (map Meal.id (meals (screen (deleteMeal true (js "loyw3v28")
                                       (formOver [lunch; sundayMeal] [] []))))).
Proof.
  apply deleteMeal_keeps_ids_distinct. simpl.
  constructor; [|constructor; [|constructor]]; simpl; [|tauto].
  intros [H|[]]. discriminate H.
Defined.

(** * lastNDays (C3) *)

Lemma lastNDaysFrom_length (dev : Device) (n : nat) :
  forall i l, lastNDaysFrom dev i n = Some l -> length l = n.
Proof.
  induction n as [|n IH]; simpl; intros i l H.
  - now injection H as <-.
  - destruct (dayBack dev i); [|discriminate].
    destruct (lastNDaysFrom dev (i + 1) n) eqn:E; [|discriminate].
    injection H as <-. simpl. f_equal. eauto.
Qed.

(** Whenever [lastNDays] returns, it returns [n] keys; none for [n = 0]. *)
Lemma lastNDays_length (dev : Device) (n : nat) (l : list jsstring) :
  lastNDays dev n = Some l -> length l = n.
Proof. apply lastNDaysFrom_length. Qed.

Lemma lastNDays_length_witness :
  lastNDays {| now := 1700000000000; zone := fixedZone 3600000 |} 2
  = Some [js "2023-11-14"; js "2023-11-13"]
  /\ length [js "2023-11-14"; js "2023-11-13"] = 2%nat.
Proof.
  split; [reflexivity|].
  apply (lastNDays_length {| now := 1700000000000; zone := fixedZone 3600000 |}).
  reflexivity.
Defined.

Lemma lastNDays_zero (dev : Device) : lastNDays dev 0 = Some [].
Proof. reflexivity. Qed.

Lemma MonthFromTime_range (t : Z) : 0 <= MonthFromTime t <= 11.
Proof.
  unfold MonthFromTime.
  repeat match goal with
         | |- context [if ?b then _ else _] => destruct b
         end; lia.
Qed.

(** Setting the day of the month to the current one minus [i] moves the local
    time back by [i] whole days. *)
Lemma MakeDay_back (t i : Z) :
  MakeDay (YearFromTime t) (MonthFromTime t) (DateFromTime t - i) = Day t - i.
Proof.
  pose proof (MonthFromTime_range t) as Hm.
  unfold MakeDay, DateFromTime, DayWithinYear.
  rewrite (Z.div_small (MonthFromTime t) 12), (Z.mod_small (MonthFromTime t) 12) by lia.
  rewrite Z.add_0_r. lia.
Qed.

Lemma setDate_fixedZone (offset t i : Z) :
  setDate (fixedZone offset) t (getDate (fixedZone offset) t - i)
  = TimeClip (t - i * msPerDay).
Proof.
  unfold setDate, getDate, LocalTime, UTC. simpl.
  rewrite MakeDay_back. unfold MakeDate, Day, TimeWithinDay. f_equal.
  pose proof (Z.div_mod (t + offset) msPerDay) as H.
  unfold msPerDay in *. lia.
Qed.

(** In a zone without clock changes the loop yields the UTC dates of [now],
    [now] minus one day, and so on. *)
Lemma lastNDays_fixedZone (offset t : Z) (n : nat) :
  - maxTime + Z.of_nat n * msPerDay <= t <= maxTime ->
  lastNDays {| now := t; zone := fixedZone offset |} n
  = Some (map (fun i => slice0 10 (toISOString (t - Z.of_nat i * msPerDay))) (seq 0 n)).
Proof.
  intros Ht. unfold lastNDays.
  assert (G : forall k i, (i + k <= n)%nat ->
            lastNDaysFrom {| now := t; zone := fixedZone offset |} (Z.of_nat i) k
            = Some (map (fun j => slice0 10 (toISOString (t - Z.of_nat j * msPerDay)))
                        (seq i k))).
  { induction k as [|k IH]; intros i Hi; [reflexivity|].
    cbn [lastNDaysFrom seq map].
    replace (Z.of_nat i + 1) with (Z.of_nat (S i)) by lia.
    rewrite IH by lia.
    unfold dayBack. cbn [now zone].
    unfold TimeClip at 1.
    assert ((Z.abs t <=? maxTime) = true) as -> by (unfold maxTime, msPerDay in *; lia).
    rewrite setDate_fixedZone. unfold TimeClip.
    assert ((Z.abs (t - Z.of_nat i * msPerDay) <=? maxTime) = true) as ->
        by (unfold maxTime, msPerDay in *; lia).
    reflexivity. }
  apply (G n 0%nat). lia.
Qed.

(** The same keys as dateKey gives for the clock readings one day apart, the
    first being the key of [now]. *)
Lemma lastNDays_fixedZone_dateKey (offset t : Z) (n : nat) :
  - maxTime + Z.of_nat n * msPerDay <= t <= maxTime ->
  exists keys,
    lastNDays {| now := t; zone := fixedZone offset |} n = Some keys
    /\ Forall2 (fun i key => dateKey (ofZ (t - Z.of_nat i * msPerDay)) = Some key)
               (seq 0 n) keys.
Proof.
  intros Ht. rewrite lastNDays_fixedZone by assumption.
  eexists. split; [reflexivity|].
  assert (G : forall k i, (i + k <= n)%nat ->
            Forall2 (fun i key => dateKey (ofZ (t - Z.of_nat i * msPerDay)) = Some key)
              (seq i k)
              (map (fun j => slice0 10 (toISOString (t - Z.of_nat j * msPerDay))) (seq i k))).
  { induction k as [|k IH]; intros i Hi; cbn [seq map]; constructor.
    - apply dateKey_ofZ. unfold maxTime, msPerDay in *. lia.
    - apply IH. lia. }
  apply G. lia.
Qed.

Lemma lastNDays_fixedZone_dateKey_witness :
  exists keys,
    lastNDays {| now := 1700000000000; zone := fixedZone 3600000 |} 7 = Some keys
    /\ Forall2 (fun i key => dateKey (ofZ (1700000000000 - Z.of_nat i * msPerDay)) = Some key)
               (seq 0 7) keys.
Proof.
  apply (lastNDays_fixedZone_dateKey 3600000 1700000000000 7).
  unfold maxTime, msPerDay. lia.
Defined.

(** C3 at a device in New York on the evening after the clocks went forward:
    the second and the third key are the same day, and 5 March, the seventh day
    back, is missing. *)
Theorem lastNDays_repeats_a_day :
  lastNDays newYorkEvening 7
  = Some [js "2024-03-11"; js "2024-03-10"; js "2024-03-10"; js "2024-03-09";
          js "2024-03-08"; js "2024-03-07"; js "2024-03-06"]
  /\ dateKey (ofZ (now newYorkEvening)) = Some (js "2024-03-11").
Proof. split; vm_compute; reflexivity. Qed.

(** * perDay and weeklyTotals (C7) *)

Lemma traverse_map {A B : Type} (f : A -> option B) (g : B -> A) (l : list A) :
  (forall a b, f a = Some b -> g b = a) ->
  forall r, traverse f l = Some r -> map g r = l.
Proof.
  intros Hg. induction l as [|a l IH]; simpl; intros r H.
  - now injection H as <-.
  - destruct (f a) eqn:Ea; [|discriminate].
    destruct (traverse f l) eqn:El; [|discriminate].
    injection H as <-. simpl. f_equal; auto.
Qed.

Lemma traverse_Forall2 {A B : Type} (f : A -> option B) (l : list A) :
  forall r, traverse f l = Some r -> Forall2 (fun a b => f a = Some b) l r.
Proof.
  induction l as [|a l IH]; simpl; intros r H.
  - injection H as <-. constructor.
  - destruct (f a) eqn:Ea; [|discriminate].
    destruct (traverse f l) eqn:El; [|discriminate].
    injection H as <-. constructor; auto.
Qed.

(** C7 at the same device: the one meal of Sunday 10 March, 500 kcal and 30 g,
    is counted under both keys "2024-03-10". *)
Theorem week_counts_a_meal_twice :
  dateKey (Meal.ts sundayMeal) = Some (js "2024-03-10")
  /\ weekScreen newYorkEvening [sundayMeal]
     = Some {| totalCalories := ofZ 1000; totalProtein := ofZ 60 |}.
Proof. split; vm_compute; reflexivity. Qed.

(** * The server: error answers (C5) and the upload (C8) *)

Module ServerFacts.
Import Server.

Lemma modelError_head (raw : jsstring) :
  firstn 11 (body (modelDidNotReturnJson raw)) = jsq "{'error':'M".
Proof. reflexivity. Qed.

Lemma serverError_head (e : Thrown) :
  firstn 11 (body (serverError e)) = jsq "{'error':'S".
Proof. reflexivity. Qed.

Lemma serverError_not_modelError (e : Thrown) (raw : jsstring) :
  serverError e <> modelDidNotReturnJson raw.
Proof.
  intros H. pose proof (serverError_head e) as Hs.
  rewrite H, modelError_head in Hs. discriminate.
Qed.

(** The three shapes of the answer of [answerFrom]. *)
Lemma answerFrom_cases (engine : Engine) (raw : jsstring) :
  (JSON_parse (extractJson raw) = None
   /\ answerFrom engine raw = Answers (modelDidNotReturnJson raw))
  \/ (JSON_parse (extractJson raw) <> None
      /\ ((exists v, answerFrom engine raw = Answers (json 200 v))
          \/ exists e, answerFrom engine raw = Throws e)).
Proof.
  unfold answerFrom. destruct (JSON_parse (extractJson raw)) as [parsed|]; [right|left; auto].
  split; [discriminate|].
  destruct (getField parsed (js "description")) as [d|]; [|eauto].
  destruct (getField parsed (js "calories")) as [c|]; [|eauto].
  destruct (getField parsed (js "protein_g")) as [p|]; [|eauto].
  destruct (descriptionOf d), (roundedOrZero c), (roundedOrZero p); eauto.
Qed.

Lemma estimate_response (engine : Engine) (openai : list N -> Upstream)
      (fs : Files) (file : option Upload) :
  response (estimate engine openai fs file)
  = match tryEstimate engine openai fs file with
    | Answers r => r
    | Throws e => serverError e
    end.
Proof. unfold estimate. now destruct (tryEstimate engine openai fs file). Qed.

Lemma estimate_files (engine : Engine) (openai : list N -> Upstream)
      (fs : Files) (file : option Upload) :
  files (estimate engine openai fs file)
  = match file with
    | Some f => match path f with [] => fs | p => unlink p fs end
    | None => fs
    end.
Proof. unfold estimate. now destruct (tryEstimate engine openai fs file). Qed.

(** ** The upload middleware *)

Lemma sift_spec (parts : list Part) :
  forall got : option (list N),
    let crowded := (1 <? length (filter isPhoto parts) + (if isStored got then 1 else 0))%nat in
    let bad := existsb beyondLimits parts
               || existsb (fun p => bringsFile p && negb (isPhoto p)) parts
               || crowded in
    (bad = true -> exists written, sift (js "photo") parts got = Refused written)
    /\ (bad = false ->
        sift (js "photo") parts got
        = Passed (match got with
                  | Some c => Some c
                  | None => match filter isPhoto parts with
                            | FilePart _ _ content :: _ => Some content
                            | _ => None
                            end
                  end)).
Proof.
  induction parts as [|p parts IH]; intros got; cbv zeta.
  - cbn [existsb filter length sift orb Nat.add].
    destruct got; cbn [isStored]; split; intros H; try discriminate H; reflexivity.
  - destruct p as [name value ok | field filename content].
    + cbn [sift existsb beyondLimits bringsFile isPhoto filter andb orb].
      destruct (IH got) as [IHbad IHok]. cbv zeta in IHbad, IHok.
      destruct ok; cbn [negb orb].
      * split; assumption.
      * split; [eauto | discriminate].
    + destruct filename as [|c fname].
      * cbn [sift existsb beyondLimits bringsFile isPhoto filter andb orb].
        destruct (IH got) as [IHbad IHok]. cbv zeta in IHbad, IHok. split; assumption.
      * cbn [sift existsb beyondLimits bringsFile isPhoto filter andb orb].
        destruct (str_eqb field (js "photo")) eqn:Ef; cbn [negb andb orb filter length].
        -- destruct got as [c0|]; cbn [isStored].
           ++ split; [eauto|].
              intros H. apply orb_false_iff in H as [_ H]. apply Nat.ltb_ge in H. lia.
           ++ destruct (IH (Some content)) as [IHbad IHok]. cbv zeta in IHbad, IHok.
              cbn [isStored] in IHbad, IHok.
              replace (S (length (filter isPhoto parts)) + 0)%nat
                with (length (filter isPhoto parts) + 1)%nat by lia.
              split; assumption.
        -- rewrite orb_true_r. cbn [orb]. split; [eauto | discriminate].
Qed.

(** upload.single("photo") refuses exactly the requests described by
    [refusedUpload], and hands the others on with their photo, if any. *)
Lemma single_spec (req : Request) :
  (refusedUpload req = true -> exists written, single (js "photo") req = Refused written)
  /\ (refusedUpload req = false -> single (js "photo") req = Passed (photoOf req)).
Proof.
  destruct req as [|parts wellFormed]; [split; [discriminate | reflexivity]|].
  unfold refusedUpload, single, photoOf. cbn [partsOf].
  destruct (sift_spec parts None) as [Hbad Hok]. cbv zeta in Hbad, Hok.
  cbn [isStored] in Hbad, Hok. rewrite Nat.add_0_r in Hbad, Hok.
  destruct (existsb beyondLimits parts
            || existsb (fun p => bringsFile p && negb (isPhoto p)) parts
            || (1 <? length (filter isPhoto parts))%nat) eqn:E.
  - destruct (Hbad eq_refl) as [written ->].
    split; [eauto|]. intros H. apply orb_false_iff in H as [H H4].
    apply orb_false_iff in H as [H H3]. apply orb_false_iff in H as [H1 H2].
    rewrite H2, H3, H4 in E. discriminate E.
  - rewrite (Hok eq_refl).
    apply orb_false_iff in E as [E E3]. apply orb_false_iff in E as [E1 E2].
    rewrite E1, E2, E3, !orb_false_r.
    destruct wellFormed; cbn [negb]; split; eauto; discriminate.
Qed.

Lemma photo_is_a_file (parts : list Part) :
  existsb bringsFile parts = false -> filter isPhoto parts = [].
Proof.
  induction parts as [|p parts IH]; [reflexivity|].
  cbn [existsb filter]. intros H. apply orb_false_iff in H as [Hp H].
  rewrite (IH H). destruct p as [| field [|c fname] content]; try reflexivity.
  discriminate Hp.
Qed.

Lemma rawTextOf_written (engine : Engine) (openai : list N -> Upstream)
      (stored : jsstring) (content : list N) (fs : Files) :
  rawTextOf engine openai (writeFile stored content fs) {| path := stored |}
  = match openai content with
    | UpstreamThrows e => inl e
    | UpstreamAnswers output_text => inr (modelText output_text)
    end.
Proof.
  unfold rawTextOf, writeFile. cbn [path]. rewrite str_eqb_refl.
  destruct (openai content) as [e|[t|]]; reflexivity.
Qed.

(** The three ways a request ends. *)
Lemma route_answer (engine : Engine) (openai : list N -> Upstream)
      (stored : jsstring) (fs : Files) (req : Request) :
  (refusedUpload req = true
   /\ exists files, postEstimate engine openai stored fs req = ErrorPage files)
  \/ (refusedUpload req = false /\ carriesFile req = false /\ photoOf req = None
      /\ exists e, postEstimate engine openai stored fs req = Handled e
                   /\ response e = missingPhoto)
  \/ (refusedUpload req = false /\ carriesFile req = true
      /\ exists content e,
           photoOf req = Some content
           /\ postEstimate engine openai stored fs req = Handled e
           /\ response e = match openai content with
                           | UpstreamThrows thrown => serverError thrown
                           | UpstreamAnswers output_text =>
                               match answerFrom engine (modelText output_text) with
                               | Answers r => r
                               | Throws thrown => serverError thrown
                               end
                           end).
Proof.
  unfold postEstimate. destruct (single_spec req) as [Hbad Hok].
  destruct (refusedUpload req) eqn:Er.
  - left. destruct (Hbad eq_refl) as [written ->]. eauto.
  - right. rewrite (Hok eq_refl). destruct (photoOf req) as [content|] eqn:Ep.
    + right. split; [reflexivity|]. split.
      * unfold carriesFile. destruct (existsb bringsFile (partsOf req)) eqn:E; [reflexivity|].
        unfold photoOf in Ep. rewrite (photo_is_a_file _ E) in Ep. discriminate.
      * eexists content, _. split; [reflexivity|]. split; [reflexivity|].
        rewrite estimate_response. unfold tryEstimate. rewrite rawTextOf_written.
        destruct (openai content); reflexivity.
    + left. split; [reflexivity|]. split; [|split; [reflexivity | eauto]].
      unfold carriesFile. destruct (existsb bringsFile (partsOf req)) eqn:E; [|reflexivity].
      exfalso. apply existsb_exists in E as (p & Hin & Hp).
      destruct req as [|parts wellFormed]; [destruct Hin|].
      cbn [partsOf] in *. unfold refusedUpload in Er.
      apply orb_false_iff in Er as [Er Ec]. apply orb_false_iff in Er as [Er Es].
      destruct (isPhoto p) eqn:Eph.
      * unfold photoOf in Ep. cbn [partsOf] in Ep.
        assert (Hf : In p (filter isPhoto parts)) by (apply filter_In; auto).
        destruct (filter isPhoto parts) as [|[name value ok|field fname content] rest] eqn:Ef.
        -- destruct Hf.
        -- assert (Hx : In (TextField name value ok) (filter isPhoto parts))
             by (rewrite Ef; now left).
           apply filter_In in Hx as [_ Hx]. discriminate Hx.
        -- discriminate Ep.
      * assert (existsb (fun p => bringsFile p && negb (isPhoto p)) parts = true); [|congruence].
        apply existsb_exists. exists p. split; [assumption|]. now rewrite Hp, Eph.
Qed.

Lemma modelError_body (raw : jsstring) :
  body (modelDidNotReturnJson raw)
  = jsq "{'error':'Model did not return JSON','raw':" ++ quote raw ++ js "}".
Proof.
  unfold modelDidNotReturnJson, json. cbn [body].
  cbn. rewrite app_nil_r. unfold quote. cbn. rewrite <- ?app_assoc. reflexivity.
Qed.

End ServerFacts.

(** C5, as the code has it: POST /estimate answers 400 with
    {"error":"Missing photo"} exactly when the upload middleware lets the
    request through and the request brings no file; a request that the
    middleware refuses (a file in another field than photo, a second photo, a
    field beyond the limits, a malformed body) never reaches the handler and
    is answered 500 with a page that is no JSON.  It answers 500 with
    {"error":"Model did not return JSON","raw":rawText} exactly when the photo
    was taken, the model answered, and the text taken from its trimmed answer
    [rawText] by [extractJson] is not JSON.  GET /health answers 200 with
    {"ok":true}. *)
Theorem estimate_error_answers (engine : Engine) (openai : list N -> Server.Upstream)
        (stored : jsstring) (fs : Server.Files) (req : Server.Request) :
  let answer := Server.postEstimate engine openai stored fs req in
  (Server.statusOf answer = 400 <-> refusedUpload req = false /\ carriesFile req = false)
  /\ (Server.statusOf answer = 400 ->
      Server.jsonOf answer = Some (jsq "{'error':'Missing photo'}"))
  /\ (refusedUpload req = true ->
      Server.statusOf answer = 500 /\ Server.jsonOf answer = None
      /\ forall e, answer <> Server.Handled e)
  /\ ((exists e raw, answer = Server.Handled e
                     /\ Server.response e = Server.modelDidNotReturnJson raw)
      <-> refusedUpload req = false
          /\ exists content output_text,
               photoOf req = Some content
               /\ openai content = Server.UpstreamAnswers output_text
               /\ JSON_parse (Server.extractJson (modelText output_text)) = None)
  /\ (forall content output_text,
         refusedUpload req = false -> photoOf req = Some content ->
         openai content = Server.UpstreamAnswers output_text ->
         JSON_parse (Server.extractJson (modelText output_text)) = None ->
         Server.statusOf answer = 500
         /\ Server.jsonOf answer
            = Some (jsq "{'error':'Model did not return JSON','raw':"
                    ++ quote (modelText output_text) ++ js "}"))
  /\ Server.health = {| Server.status := 200; Server.body := jsq "{'ok':true}" |}.
Proof.
  cbv zeta.
  destruct (ServerFacts.route_answer engine openai stored fs req)
    as [(Er & files & Ea) | [(Er & Ef & Ep & e & Ea & Eresp)
                            | (Er & Ef & content & e & Ep & Ea & Eresp)]];
    rewrite Ea; cbn [Server.statusOf Server.jsonOf].
  - (* refused by the middleware *)
    split; [split; [discriminate | intros [H _]; congruence]|].
    split; [discriminate|].
    split; [intros _; repeat split; discriminate|].
    split; [split; [intros (e & raw & H & _); discriminate | intros [H _]; congruence]|].
    split; [intros c t H; congruence | reflexivity].
  - (* no file *)
    rewrite Eresp.
    split; [split; [intros _; now split | reflexivity]|].
    split; [reflexivity|]. split; [congruence|].
    split; [|split; [intros c t _ H; congruence | reflexivity]].
    split; [intros (e' & raw & H & Hr); injection H as <-; rewrite Eresp in Hr;
            discriminate Hr|].
    intros (_ & c & t & H & _). congruence.
  - (* a photo *)
    assert (Hnot400 : Server.status (Server.response e) <> 400).
    { rewrite Eresp. destruct (openai content) as [thrown|t]; [discriminate|].
      destruct (ServerFacts.answerFrom_cases engine (modelText t))
        as [[_ ->] | [_ [[v ->] | [thrown ->]]]]; discriminate. }
    split; [split; [intros H; now destruct Hnot400 | intros [_ H]; congruence]|].
    split; [intros H; now destruct Hnot400|]. split; [congruence|].
    split; [|split; [|reflexivity]].
    + split.
      * intros (e' & raw & H & Hr). injection H as <-. split; [exact Er|].
        exists content. rewrite Eresp in Hr.
        destruct (openai content) as [thrown|t];
          [now apply ServerFacts.serverError_not_modelError in Hr|].
        exists t. repeat split; auto.
        destruct (ServerFacts.answerFrom_cases engine (modelText t))
          as [[Ej _] | [_ [[v E] | [thrown E]]]]; [assumption | |]; rewrite E in Hr.
        -- discriminate Hr.
        -- now apply ServerFacts.serverError_not_modelError in Hr.
      * intros (_ & c & t & H1 & H2 & H3). rewrite Ep in H1. injection H1 as <-.
        exists e, (modelText t). split; [reflexivity|].
        rewrite Eresp, H2. unfold Server.answerFrom. now rewrite H3.
    + intros c t _ H1 H2 H3. rewrite Ep in H1. injection H1 as <-.
      rewrite Eresp, H2. unfold Server.answerFrom. rewrite H3.
      split; [reflexivity|]. now rewrite ServerFacts.modelError_body.
Qed.

(** C5 as stated fails: this request carries no photo file, only a file in
    the field image, and it is not answered 400 with "Missing photo": the
    upload middleware refuses it and the answer is the error page, status 500
    and no JSON. *)
Lemma stray_file_is_not_missing_photo :
  carriesPhoto (Server.Multipart [Server.FilePart (js "image") (js "meal.jpg")
                                     [255; 216; 255]%N] true) = false
  /\ Server.statusOf
       (Server.postEstimate hermes (fun _ => Server.UpstreamAnswers None) (js "uploads/3f9a")
          (fun _ => None)
          (Server.Multipart [Server.FilePart (js "image") (js "meal.jpg")
                               [255; 216; 255]%N] true)) = 500
  /\ Server.jsonOf
       (Server.postEstimate hermes (fun _ => Server.UpstreamAnswers None) (js "uploads/3f9a")
          (fun _ => None)
          (Server.Multipart [Server.FilePart (js "image") (js "meal.jpg")
                               [255; 216; 255]%N] true)) = None.
Proof. repeat split. Qed.

(** C8: whatever the request does after the upload was stored (a file that
    cannot be read, a failing model, an answer that is not JSON, a success),
    the [finally] block removes the upload: its path is free afterwards and no
    other file is touched. *)
Theorem estimate_removes_upload (engine : Engine) (openai : list N -> Server.Upstream)
        (fs : Server.Files) (f : Server.Upload) :
  Server.path f <> [] ->
  Server.files (Server.estimate engine openai fs (Some f)) (Server.path f) = None
  /\ forall p, p <> Server.path f ->
               Server.files (Server.estimate engine openai fs (Some f)) p = fs p.
Proof.
  intros Hp. rewrite ServerFacts.estimate_files.
  destruct (Server.path f) as [|c r] eqn:E; [congruence|].
  unfold Server.unlink. split.
  - now rewrite str_eqb_refl.
  - intros p Hn. apply str_eqb_neq in Hn. now rewrite Hn.
Qed.

Lemma estimate_removes_upload_witness :
  Server.files (Server.estimate hermes (fun _ => Server.UpstreamThrows (newError (js "timeout")))
                                uploads (Some upload)) (Server.path upload) = None
  /\ forall p, p <> Server.path upload ->
               Server.files (Server.estimate hermes
                               (fun _ => Server.UpstreamThrows (newError (js "timeout")))
                               uploads (Some upload)) p = uploads p.
Proof. apply estimate_removes_upload. discriminate. Defined.

(** * extractJson (C9) *)

Module ExtractFacts.
Import Server.

(** ** Trimming around a text that starts and ends with a visible code unit *)

Lemma trimStart_app (a r : jsstring) (c : N) :
  isWhiteSpace c = false -> trimStart (a ++ c :: r) = trimStart a ++ c :: r.
Proof.
  intros Hc. induction a as [|d a IH]; simpl.
  - now rewrite Hc.
  - destruct (isWhiteSpace d); auto.
Qed.

Lemma trimStart_In (x : N) (s : jsstring) : In x (trimStart s) -> In x s.
Proof.
  induction s as [|c s IH]; simpl; auto.
  destruct (isWhiteSpace c); simpl; auto.
Qed.

Lemma trimEnd_In (x : N) (s : jsstring) : In x (trimEnd s) -> In x s.
Proof.
  unfold trimEnd. intros H. apply in_rev in H. apply trimStart_In in H.
  now apply in_rev.
Qed.

Lemma trimStart_allSpace (ws r : jsstring) :
  allSpace ws -> trimStart (ws ++ r) = trimStart r.
Proof.
  unfold allSpace. induction ws as [|c ws IH]; simpl; auto.
  intros H. apply andb_true_iff in H as [-> H]. auto.
Qed.

Lemma trim_around (a inner b : jsstring) (c d : N) :
  isWhiteSpace c = false -> isWhiteSpace d = false ->
  trim (a ++ c :: inner ++ d :: b) = trimStart a ++ c :: inner ++ d :: trimEnd b.
Proof.
  intros Hc Hd. unfold trim. rewrite trimStart_app by assumption.
  unfold trimEnd.
  replace (trimStart a ++ c :: inner ++ d :: b)
    with ((trimStart a ++ c :: inner) ++ d :: b) by (rewrite <- app_assoc; reflexivity).
  rewrite rev_app_distr. simpl rev at 1.
  rewrite <- app_assoc. simpl app at 2.
  rewrite trimStart_app by assumption.
  rewrite rev_app_distr. simpl. rewrite rev_involutive.
  rewrite <- !app_assoc. reflexivity.
Qed.

(** ** Searching for the braces *)

Lemma indexOf_first (c : N) (a r : jsstring) :
  ~ In c a -> indexOf c (a ++ c :: r) = Some (length a).
Proof.
  induction a as [|d a IH]; simpl; intros H.
  - now rewrite N.eqb_refl.
  - destruct (N.eqb_spec c d) as [->|Hn]; [tauto|].
    rewrite IH by tauto. reflexivity.
Qed.

Lemma lastIndexOf_none (c : N) (b : jsstring) : ~ In c b -> lastIndexOf c b = None.
Proof.
  induction b as [|d b IH]; simpl; auto. intros H.
  rewrite IH by tauto. destruct (N.eqb_spec c d) as [->|Hn]; tauto.
Qed.

Lemma lastIndexOf_last (c : N) (x b : jsstring) :
  ~ In c b -> lastIndexOf c (x ++ c :: b) = Some (length x).
Proof.
  intros H. induction x as [|d x IH]; simpl.
  - now rewrite lastIndexOf_none, N.eqb_refl.
  - now rewrite IH.
Qed.

Lemma slice_middle (a obj b : jsstring) :
  slice (length a) (length a + length obj) (a ++ obj ++ b) = obj.
Proof.
  unfold slice. rewrite skipn_app, skipn_all, Nat.sub_diag. simpl.
  replace (length a + length obj - length a)%nat with (length obj + 0)%nat by lia.
  rewrite firstn_app_2. simpl. apply app_nil_r.
Qed.

(** ** Removing the fences *)

Lemma matchesJson_led : backtickLed matchesJson.
Proof.
  intros c r H. unfold matchesJson in H.
  destruct r as [|b [|c' [|j [|s0 [|o [|n r]]]]]]; try discriminate.
  destruct (N.eqb_spec c 96); [assumption|discriminate].
Qed.

Lemma matchesFence_led : backtickLed matchesFence.
Proof.
  intros c r H. unfold matchesFence in H.
  destruct r as [|b [|c' r]]; try discriminate.
  destruct (N.eqb_spec c 96); [assumption|discriminate].
Qed.

(** A text without backticks is copied. *)
Lemma removeAll_copy (matches : jsstring -> bool) (len : nat) (s r : jsstring) :
  backtickLed matches -> noBacktick s ->
  removeAll matches len (s ++ r) 0 false = s ++ removeAll matches len r 0 false.
Proof.
  intros Hm. unfold noBacktick. induction s as [|c s IH]; simpl; auto.
  intros H. destruct (matches (c :: s ++ r)) eqn:E.
  - apply Hm in E. tauto.
  - rewrite IH by tauto. reflexivity.
Qed.

Lemma removeAll_id (matches : jsstring -> bool) (len : nat) (s : jsstring) :
  backtickLed matches -> noBacktick s -> removeAll matches len s 0 false = s.
Proof.
  intros Hm Hs. rewrite <- (app_nil_r s) at 1.
  rewrite removeAll_copy by assumption. apply app_nil_r.
Qed.

(** So is one that follows a match, from its first visible code unit on. *)
Lemma removeAll_copy_after (matches : jsstring -> bool) (len : nat)
      (c : N) (s r : jsstring) :
  backtickLed matches -> noBacktick (c :: s) -> isWhiteSpace c = false ->
  removeAll matches len (c :: s ++ r) 0 true = c :: s ++ removeAll matches len r 0 false.
Proof.
  intros Hm Hs Hc. simpl. rewrite Hc. simpl.
  destruct (matches (c :: s ++ r)) eqn:E.
  - apply Hm in E. unfold noBacktick in Hs. simpl in Hs. tauto.
  - rewrite removeAll_copy; auto. unfold noBacktick in *. simpl in Hs. tauto.
Qed.

(** The white space that follows a match is removed with it. *)
Lemma removeAll_spaces (matches : jsstring -> bool) (len : nat) (ws r : jsstring) :
  allSpace ws ->
  removeAll matches len (ws ++ r) 0 true = removeAll matches len r 0 true.
Proof.
  unfold allSpace. induction ws as [|c ws IH]; simpl; auto.
  intros H. apply andb_true_iff in H as [-> H]. simpl. auto.
Qed.

Lemma allSpace_noBacktick (ws : jsstring) : allSpace ws -> noBacktick ws.
Proof.
  unfold allSpace, noBacktick. induction ws as [|c ws IH]; simpl; auto.
  intros H. apply andb_true_iff in H as [Hc H].
  intros [E | Hin]; [subst c; discriminate Hc|]. now apply IH.
Qed.

Lemma noBacktick_app (s t : jsstring) : noBacktick s -> noBacktick t -> noBacktick (s ++ t).
Proof. unfold noBacktick. intros Hs Ht H. apply in_app_or in H. tauto. Qed.

(** ** The two ways a model wraps its JSON *)

Lemma pickBraced (a inner b : jsstring) :
  ~ In (ch "{") a -> ~ In (ch "}") b ->
  let nf := a ++ ch "{" :: inner ++ ch "}" :: b in
  (if startsWith (ch "{") nf && endsWith (ch "}") nf then nf
   else match indexOf (ch "{") nf, lastIndexOf (ch "}") nf with
        | Some start, Some stop =>
            if Nat.ltb start stop then slice start (stop + 1) nf else nf
        | _, _ => nf
        end)
  = ch "{" :: inner ++ [ch "}"].
Proof.
  intros Ha Hb nf.
  assert (Hi : indexOf (ch "{") nf = Some (length a)) by (apply indexOf_first; assumption).
  assert (Hl : lastIndexOf (ch "}") nf = Some (length a + S (length inner))%nat).
  { unfold nf.
    replace (a ++ ch "{" :: inner ++ ch "}" :: b)
      with ((a ++ ch "{" :: inner) ++ ch "}" :: b) by (rewrite <- app_assoc; reflexivity).
    rewrite lastIndexOf_last by assumption.
    rewrite length_app. reflexivity. }
  assert (Hs : slice (length a) (length a + S (length inner) + 1) nf
               = ch "{" :: inner ++ [ch "}"]).
  { pose proof (slice_middle a (ch "{" :: inner ++ [ch "}"]) b) as H.
    simpl length in H. rewrite length_app in H. simpl length in H.
    replace (length a + S (length inner + 1))%nat
      with (length a + S (length inner) + 1)%nat in H by lia.
    rewrite <- H. f_equal. unfold nf. simpl. rewrite <- app_assoc. reflexivity. }
  destruct (startsWith (ch "{") nf && endsWith (ch "}") nf) eqn:E.
  - apply andb_true_iff in E as [E1 E2].
    assert (a = []) as ->.
    { destruct a as [|c a]; auto. unfold nf in E1. cbn [app startsWith] in E1.
      apply N.eqb_eq in E1. cbn [In] in Ha. symmetry in E1. tauto. }
    assert (b = []) as ->.
    { destruct b as [|c b] using rev_ind; auto.
      exfalso. unfold endsWith, nf in E2.
      replace ([] ++ ch "{" :: inner ++ ch "}" :: b ++ [c])
        with (([] ++ ch "{" :: inner ++ ch "}" :: b) ++ [c]) in E2
        by (cbn [app]; now rewrite <- ?app_assoc).
      rewrite rev_app_distr in E2. cbn [rev app startsWith] in E2.
      apply N.eqb_eq in E2. apply Hb. apply in_or_app. right. now left. }
    reflexivity.
  - rewrite Hi, Hl.
    assert (Nat.ltb (length a) (length a + S (length inner)) = true) as ->
        by (apply Nat.ltb_lt; lia).
    exact Hs.
Qed.

(** A JSON object between two runs of prose. *)
Lemma extractJson_embedded (pre inner post : jsstring) :
  noBacktick (pre ++ ch "{" :: inner ++ ch "}" :: post) ->
  ~ In (ch "{") pre -> ~ In (ch "}") post ->
  extractJson (pre ++ ch "{" :: inner ++ ch "}" :: post) = ch "{" :: inner ++ [ch "}"].
Proof.
  intros Hn Hpre Hpost. unfold extractJson.
  rewrite (removeAll_id matchesJson 7 _ matchesJson_led Hn).
  rewrite (removeAll_id matchesFence 3 _ matchesFence_led Hn).
  rewrite trim_around by reflexivity.
  apply pickBraced.
  - intros H. apply Hpre. now apply trimStart_In.
  - intros H. apply Hpost. now apply trimEnd_In.
Qed.

(** A JSON object inside a fence tagged json. *)
Lemma extractJson_fenced (ws1 inner ws2 : jsstring) :
  allSpace ws1 -> allSpace ws2 -> noBacktick inner ->
  extractJson (js "```json" ++ ws1 ++ ch "{" :: inner ++ ch "}" :: ws2 ++ js "```")
  = ch "{" :: inner ++ [ch "}"].
Proof.
  intros H1 H2 Hin. unfold extractJson.
  assert (Hobj : noBacktick (ch "{" :: inner ++ ch "}" :: ws2)).
  { apply (noBacktick_app [ch "{"]); [intros [E|[]]; discriminate|].
    apply noBacktick_app; auto.
    apply (noBacktick_app [ch "}"]); [intros [E|[]]; discriminate|].
    now apply allSpace_noBacktick. }
  assert (Hfirst : removeAll matchesJson 7
                     (js "```json" ++ ws1 ++ ch "{" :: inner ++ ch "}" :: ws2 ++ js "```")
                     0 false
                   = (ch "{" :: inner ++ ch "}" :: ws2) ++ js "```").
  { change (removeAll matchesJson 7
              (js "```json" ++ ws1 ++ ch "{" :: inner ++ ch "}" :: ws2 ++ js "```") 0 false)
      with (removeAll matchesJson 7
              (ws1 ++ ch "{" :: inner ++ ch "}" :: ws2 ++ js "```") 0 true).
    rewrite removeAll_spaces by assumption.
    replace (ch "{" :: inner ++ ch "}" :: ws2 ++ js "```")
      with (ch "{" :: (inner ++ ch "}" :: ws2) ++ js "```")
      by (rewrite <- app_assoc; reflexivity).
    rewrite removeAll_copy_after;
      [reflexivity | exact matchesJson_led | exact Hobj | reflexivity]. }
  rewrite Hfirst.
  rewrite removeAll_copy by (auto using matchesFence_led).
  change (removeAll matchesFence 3 (js "```") 0 false) with (@nil N).
  rewrite app_nil_r.
  pose proof (trim_around [] inner ws2 (ch "{") (ch "}") eq_refl eq_refl) as Ht.
  simpl in Ht. simpl. rewrite Ht.
  assert (trimEnd ws2 = []) as ->.
  { unfold trimEnd. rewrite <- (app_nil_r (rev ws2)).
    rewrite trimStart_allSpace; [reflexivity|].
    unfold allSpace in *. rewrite forallb_forall in *.
    intros x Hx. apply H2. now apply in_rev. }
  apply (pickBraced [] inner []); auto.
Qed.

(** ** No fence is left *)

Lemma fenceAt_matchesFence (s : jsstring) : fenceAt s = matchesFence s.
Proof. reflexivity. Qed.

Lemma fenceAt_tick (c : N) (r : jsstring) : fenceAt (c :: r) = true -> c = 96%N.
Proof.
  destruct r as [|b [|c' r]]; cbn [fenceAt]; try discriminate.
  destruct (N.eqb_spec c 96); [trivial | discriminate].
Qed.

Lemma fenceAt_second (c d : N) (r : jsstring) : fenceAt (c :: d :: r) = true -> d = 96%N.
Proof.
  destruct r as [|c' r]; cbn [fenceAt]; try discriminate.
  destruct (N.eqb_spec d 96); [trivial | now rewrite andb_false_r].
Qed.

Lemma fenceAt_third (c d x : N) (r : jsstring) : fenceAt (c :: d :: x :: r) = true -> x = 96%N.
Proof.
  cbn [fenceAt]. destruct (N.eqb_spec x 96); [trivial | now rewrite andb_false_r].
Qed.

(** A code unit that is kept is not the first of a fence in the output
    either. *)
Lemma kept_starts_no_fence (c : N) (r : jsstring) :
  matchesFence (c :: r) = false ->
  fenceAt (c :: removeAll matchesFence 3 r 0 false) = false.
Proof.
  intros H.
  destruct (fenceAt (c :: removeAll matchesFence 3 r 0 false)) eqn:F; [exfalso | reflexivity].
  pose proof (fenceAt_tick _ _ F) as ->.
  destruct r as [|d1 r1]; [discriminate F|].
  cbn [removeAll] in F. cbn [andb] in F.
  destruct (matchesFence (d1 :: r1)) eqn:M1.
  - (* d1 opens a fence: then d1, and the two after it, are backticks *)
    rewrite <- fenceAt_matchesFence in M1.
    pose proof (fenceAt_tick _ _ M1) as ->.
    destruct r1 as [|d2 r2]; [discriminate M1|].
    pose proof (fenceAt_second _ _ _ M1) as ->.
    destruct r2 as [|d3 r3]; [discriminate M1|]. discriminate H.
  - pose proof (fenceAt_second _ _ _ F) as ->.
    destruct r1 as [|d2 r2]; [discriminate F|].
    cbn [removeAll] in F. cbn [andb] in F.
    destruct (matchesFence (d2 :: r2)) eqn:M2.
    + rewrite <- fenceAt_matchesFence in M2.
      pose proof (fenceAt_tick _ _ M2) as ->.
      destruct r2 as [|d3 r3]; discriminate H.
    + pose proof (fenceAt_third _ _ _ _ F) as ->.
      destruct r2 as [|d3 r3]; discriminate H.
Qed.

Lemma removeAll_no_fence (s : jsstring) :
  forall (drop : nat) (inSpace : bool),
    hasFence (removeAll matchesFence 3 s drop inSpace) = false.
Proof.
  induction s as [|c r IH]; intros drop inSpace; [reflexivity|].
  cbn [removeAll]. destruct drop as [|d]; [|apply IH].
  destruct (inSpace && isWhiteSpace c); [apply IH|].
  destruct (matchesFence (c :: r)) eqn:M; [apply IH|].
  cbn [hasFence]. rewrite kept_starts_no_fence by assumption. apply IH.
Qed.

Lemma hasFence_suffix (a b : jsstring) : hasFence (a ++ b) = false -> hasFence b = false.
Proof.
  induction a as [|c a IH]; [trivial|]. cbn [app hasFence]. intros H.
  apply orb_false_iff in H as [_ H]. auto.
Qed.

Lemma hasFence_prefix (a b : jsstring) : hasFence (a ++ b) = false -> hasFence a = false.
Proof.
  induction a as [|c a IH]; [reflexivity|]. cbn [app hasFence]. intros H.
  apply orb_false_iff in H as [F H]. rewrite (IH H), orb_false_r.
  destruct a as [|x [|y a']]; try reflexivity. exact F.
Qed.

Lemma trimStart_suffix (s : jsstring) : exists ws, allSpace ws /\ s = ws ++ trimStart s.
Proof.
  induction s as [|c s (ws & Hws & E)]; [exists []; now split|].
  cbn [trimStart]. destruct (isWhiteSpace c) eqn:Hc.
  - exists (c :: ws). split; [unfold allSpace in *; cbn [forallb]; now rewrite Hc|].
    cbn [app]. now f_equal.
  - exists []. now split.
Qed.

Lemma trimEnd_prefix (s : jsstring) : exists ws, s = trimEnd s ++ ws.
Proof.
  unfold trimEnd. destruct (trimStart_suffix (rev s)) as (ws & _ & E).
  exists (rev ws). rewrite <- rev_app_distr, <- E. now rewrite rev_involutive.
Qed.

Lemma trim_no_fence (s : jsstring) : hasFence s = false -> hasFence (trim s) = false.
Proof.
  intros H. unfold trim.
  destruct (trimStart_suffix s) as (ws & _ & E). rewrite E in H.
  apply hasFence_suffix in H.
  destruct (trimEnd_prefix (trimStart s)) as (ws' & E'). rewrite E' in H.
  now apply hasFence_prefix in H.
Qed.

Lemma slice_no_fence (start stop : nat) (s : jsstring) :
  hasFence s = false -> hasFence (slice start stop s) = false.
Proof.
  intros H. unfold slice.
  rewrite <- (firstn_skipn start s) in H. apply hasFence_suffix in H.
  rewrite <- (firstn_skipn (stop - start) (skipn start s)) in H.
  now apply hasFence_prefix in H.
Qed.

(** Whatever the text, no code fence is left in what is handed to
    JSON.parse. *)
Lemma extractJson_no_fence (text : jsstring) : hasFence (extractJson text) = false.
Proof.
  unfold extractJson. cbv zeta.
  set (nf := trim (removeAll matchesFence 3 (removeAll matchesJson 7 text 0 false) 0 false)).
  assert (H : hasFence nf = false) by (apply trim_no_fence, removeAll_no_fence).
  destruct (startsWith (ch "{") nf && endsWith (ch "}") nf); [exact H|].
  destruct (indexOf (ch "{") nf) as [start|]; [|exact H].
  destruct (lastIndexOf (ch "}") nf) as [stop|]; [|exact H].
  destruct (Nat.ltb start stop); [now apply slice_no_fence | exact H].
Qed.

(** ** A fence around a text without braces *)

Lemma trimStart_idem (s : jsstring) : trimStart (trimStart s) = trimStart s.
Proof.
  induction s as [|c s IH]; [reflexivity|]. cbn [trimStart].
  destruct (isWhiteSpace c) eqn:Hc; [exact IH|]. cbn [trimStart]. now rewrite Hc.
Qed.

Lemma trimStart_head (s : jsstring) :
  trimStart s = [] \/ exists c r, trimStart s = c :: r /\ isWhiteSpace c = false.
Proof.
  induction s as [|c s IH]; [now left|]. cbn [trimStart].
  destruct (isWhiteSpace c) eqn:Hc; [exact IH | right; eauto].
Qed.

Lemma indexOf_none (c : N) (s : jsstring) : ~ In c s -> indexOf c s = None.
Proof.
  induction s as [|d s IH]; [reflexivity|]. cbn [indexOf In]. intros H.
  destruct (N.eqb_spec c d) as [->|_]; [tauto|]. rewrite IH by tauto. reflexivity.
Qed.

(** A text in a fence tagged json, the text holding neither a backtick nor
    an opening brace (an array, a number, a sentence): the fence is taken off
    and the text is handed on trimmed. *)
Lemma extractJson_fenced_text (inner : jsstring) :
  noBacktick inner -> ~ In (ch "{") inner ->
  extractJson (js "```json" ++ inner ++ js "```") = trim inner.
Proof.
  intros Hn Hb. unfold extractJson. cbv zeta.
  destruct (trimStart_suffix inner) as (ws & Hws & E).
  assert (Hrest : noBacktick (trimStart inner)).
  { intros H. apply Hn. now apply trimStart_In. }
  assert (Hfirst : removeAll matchesJson 7 (js "```json" ++ inner ++ js "```") 0 false
                   = trimStart inner ++ js "```").
  { change (removeAll matchesJson 7 (js "```json" ++ inner ++ js "```") 0 false)
      with (removeAll matchesJson 7 (inner ++ js "```") 0 true).
    rewrite E at 1. rewrite <- app_assoc, removeAll_spaces by assumption.
    destruct (trimStart_head inner) as [-> | (c & r & Er & Hc)]; [reflexivity|].
    rewrite Er in *. cbn [app].
    rewrite removeAll_copy_after; [reflexivity | exact matchesJson_led | exact Hrest | exact Hc]. }
  rewrite Hfirst.
  rewrite removeAll_copy by (auto using matchesFence_led).
  change (removeAll matchesFence 3 (js "```") 0 false) with (@nil N).
  rewrite app_nil_r.
  assert (Ht : trim (trimStart inner) = trim inner) by (unfold trim; now rewrite trimStart_idem).
  rewrite Ht.
  assert (Hno : ~ In (ch "{") (trim inner)).
  { intros H. apply Hb. unfold trim in H. apply trimEnd_In in H. now apply trimStart_In in H. }
  assert (startsWith (ch "{") (trim inner) = false) as ->.
  { destruct (trim inner) as [|c r]; [reflexivity|]. cbn [startsWith].
    destruct (N.eqb_spec (ch "{") c) as [<-|]; [|reflexivity].
    exfalso. apply Hno. now left. }
  cbn [andb]. now rewrite indexOf_none.
Qed.

End ExtractFacts.

(** C9: [extractJson] takes the code fences off, so that no fence is left in
    what it hands to JSON.parse, and, when the rest is not one brace-delimited
    text, takes the text from the first opening to the last closing brace.  So
    a JSON object in a fence tagged json, or between two runs of prose, is
    handed on as it is, and so is any other text in such a fence; and the
    rest of the handler answers "Model did not return JSON" exactly when the
    extracted text is not JSON. *)
Theorem extractJson_unwraps_the_object (engine : Engine) :
  (forall text, hasFence (Server.extractJson text) = false)
  /\ (forall inner,
         noBacktick inner -> ~ In (ch "{") inner ->
         Server.extractJson (js "```json" ++ inner ++ js "```") = trim inner)
  /\ (forall ws1 inner ws2,
      allSpace ws1 -> allSpace ws2 -> noBacktick inner ->
      Server.extractJson (js "```json" ++ ws1 ++ ch "{" :: inner ++ ch "}" :: ws2 ++ js "```")
      = ch "{" :: inner ++ [ch "}"])
  /\ (forall pre inner post,
         noBacktick (pre ++ ch "{" :: inner ++ ch "}" :: post) ->
         ~ In (ch "{") pre -> ~ In (ch "}") post ->
         Server.extractJson (pre ++ ch "{" :: inner ++ ch "}" :: post)
         = ch "{" :: inner ++ [ch "}"])
  /\ (forall raw,
         (exists r, Server.answerFrom engine raw = Server.Answers (Server.modelDidNotReturnJson r))
         <-> JSON_parse (Server.extractJson raw) = None)
  /\ Server.response
       (Server.estimate engine
          (fun _ => Server.UpstreamAnswers
                      (Some (js "```json" ++ [10%N]
                             ++ jsq "{'description':'Salad','calories':310.7,'protein_g':24}"
                             ++ [10%N] ++ js "```")))
          uploads (Some upload))
     = {| Server.status := 200;
          Server.body := jsq "{'description':'Salad','calories':311,'protein_g':24}" |}
  /\ Server.response
       (Server.estimate engine
          (fun _ => Server.UpstreamAnswers
                      (Some (jsq "Here you go: {'description':'Salad','calories':310.7} Enjoy!")))
          uploads (Some upload))
     = {| Server.status := 200;
          Server.body := jsq "{'description':'Salad','calories':311,'protein_g':0}" |}
  /\ Server.response
       (Server.estimate engine
          (fun _ => Server.UpstreamAnswers (Some (js "I cannot see any food in this photo.")))
          uploads (Some upload))
     = Server.modelDidNotReturnJson (js "I cannot see any food in this photo.")
  /\ Server.extractJson (js "```JSON" ++ [10%N] ++ js "[1, 2]" ++ [10%N] ++ js "```")
     = js "[1, 2]"
  /\ Server.extractJson (js "``` " ++ jsq "{'calories':```310```}" ++ js " ```")
     = jsq "{'calories':310}"
  /\ Server.extractJson (jsq "`{'calories':310}`") = jsq "{'calories':310}"
  /\ Server.extractJson (js "``x``") = js "``x``"
  /\ Server.response
       (Server.estimate engine
          (fun _ => Server.UpstreamAnswers
                      (Some (js "```json" ++ [10%N] ++ js "[310.7, 24]" ++ [10%N] ++ js "```")))
          uploads (Some upload))
     = {| Server.status := 200;
          Server.body := jsq "{'description':'Food','calories':0,'protein_g':0}" |}.
Proof.
  split; [exact ExtractFacts.extractJson_no_fence|].
  split; [exact ExtractFacts.extractJson_fenced_text|].
  split; [exact ExtractFacts.extractJson_fenced|].
  split; [exact ExtractFacts.extractJson_embedded|].
  split.
  - intros raw. split.
    + intros [r H].
      destruct (ServerFacts.answerFrom_cases engine raw)
        as [[E _] | [_ [[v E] | [e E]]]]; auto; rewrite E in H; discriminate.
    + intros H. exists raw. unfold Server.answerFrom. now rewrite H.
  - repeat split; vm_compute; reflexivity.
Qed.

(** * estimateFromPhoto: a failed call (C10) *)

Lemma CallFails_throws (engine : Engine) (net : FetchOutcome) :
  CallFails net -> exists e, tryEstimate engine net = throwsAt [] e.
Proof.
  intros [e | status body Hok | status e | status raw Hraw]; cbn [tryEstimate].
  - eauto.
  - rewrite Hok. destruct body; eauto.
  - destruct (responseOk status); eauto.
  - destruct (responseOk status); [rewrite Hraw|]; eauto.
Qed.

Lemma orText_not_empty (s dflt : jsstring) : dflt <> [] -> orText s dflt <> [].
Proof. destruct s; simpl; congruence. Qed.

(** C10: when the call fails, [estimateFromPhoto] ends in a state that differs
    from the one before only in the hooks [estimateError], which holds a
    message, and [estimating], which is false: description, calories text,
    protein text, photo and ledger are as they were. *)
Theorem failed_estimate_keeps_draft (engine : Engine) (net : FetchOutcome) (s : Screen) :
  hasPhoto s = true ->
  CallFails net ->
  exists s' msg,
    estimateFromPhoto engine net s = Failed s'
    /\ estimateError s' = Some msg /\ msg <> []
    /\ desc s' = desc s /\ calText s' = calText s /\ protText s' = protText s
    /\ photoUri s' = photoUri s /\ meals s' = meals s
    /\ showModal s' = showModal s /\ estimating s' = false.
Proof.
  intros Hphoto Hfail. destruct (CallFails_throws engine net Hfail) as [e He].
  unfold estimateFromPhoto. rewrite Hphoto, He. cbn [negb]. cbv zeta.
  cbn [throwsAt writes thrown fold_left strayDesc].
  eexists. eexists. split; [reflexivity|].
  cbn [estimateError desc calText protText photoUri meals showModal estimating].
  repeat split; auto.
  apply orText_not_empty. discriminate.
Qed.

Lemma failed_estimate_keeps_draft_witness :
  exists s' msg,
    estimateFromPhoto hermes (FetchResolves 500 (BodyText (jsq "{'error':'Server error'}")))
                      photoDraft = Failed s'
    /\ estimateError s' = Some msg /\ msg <> []
    /\ desc s' = js "my plate" /\ calText s' = js "12" /\ protText s' = js "3"
    /\ photoUri s' = Some (js "file:///photo.jpg") /\ meals s' = [lunch]
    /\ showModal s' = true /\ estimating s' = false.
Proof.
  apply (failed_estimate_keeps_draft hermes
           (FetchResolves 500 (BodyText (jsq "{'error':'Server error'}"))) photoDraft).
  - reflexivity.
  - apply NotOk. reflexivity.
Defined.

(** * The load effect (C2) *)

(** C2, as the code has it: the effect sets the empty ledger when nothing is
    stored under the key or the stored text is empty.  A stored text that is
    JSON is installed as the ledger as it is, whatever its shape, and a stored
    text that is not JSON, like a read that fails, ends the effect with an
    exception that nothing catches, before [setMeals] is called. *)
Theorem loadEffect_outcomes (engine : Engine) :
  loadEffect engine (ReadItem None) = MealsSet (JArr [])
  /\ loadEffect engine (ReadItem (Some [])) = MealsSet (JArr [])
  /\ (forall raw v, raw <> [] -> JSON_parse raw = Some v ->
                    loadEffect engine (ReadItem (Some raw)) = MealsSet v)
  /\ (forall raw, raw <> [] -> JSON_parse raw = None ->
                  loadEffect engine (ReadItem (Some raw)) = LoadThrew (syntaxError engine raw))
  /\ (forall e, loadEffect engine (ReadRejects e) = LoadThrew e)
  /\ loadEffect engine (ReadItem (Some (JSON_stringify (mealsToJSON [lunch; sundayMeal]))))
     = MealsSet (mealsToJSON [lunch; sundayMeal]).
Proof.
  repeat split; auto.
  - intros raw v Hne Hv. destruct raw; [congruence|]. simpl. now rewrite Hv.
  - intros raw Hne Hv. destruct raw; [congruence|]. simpl. now rewrite Hv.
Qed.

(** C2 as stated fails: the stored text {} is JSON but no Meal sequence, and it
    becomes the ledger; the stored text [oops is not JSON, and the effect ends
    with the SyntaxError of JSON.parse. *)
Lemma corrupt_store_is_not_emptied :
  spec_corrupt (js "{}")
  /\ loadEffect hermes (ReadItem (Some (js "{}"))) = MealsSet (JObj [])
  /\ spec_corrupt (js "[oops")
  /\ loadEffect hermes (ReadItem (Some (js "[oops")))
     = LoadThrew {| name := js "SyntaxError"; message := js "JSON Parse error" |}.
Proof. repeat split. Qed.

(** * Normalizing the estimate (C6) *)




(** ** The values that cannot be converted *)

Lemma weight_element (i : JSON) (items : list JSON) :
  In i items -> (weight i < weight (JArr items))%nat.
Proof.
  cbn [weight]. induction items as [|j items IH]; [intros []|].
  cbn [In fold_right]. intros [->|H]; [lia|]. specialize (IH H). lia.
Qed.

Lemma ToString_array (i : JSON) (items : list JSON) :
  ToString (JArr (i :: items)) = None
  <-> match i with JNull => Some [] | _ => ToString i end = None
      \/ ToString (JArr items) = None.
Proof.
  cbn [ToString].
  destruct (match i with JNull => Some [] | _ => ToString i end).
  - match goal with |- context [option_map (cons l) ?X] => destruct X end;
      cbn [option_map];
      (split; [intros H; try discriminate H; now right
              | intros [H|H]; try discriminate H; reflexivity]).
  - split; [now left | reflexivity].
Qed.

(** String(v) throws exactly on the values described by [unconvertible]. *)
Lemma ToString_throws (v : JSON) : ToString v = None <-> unconvertible v = true.
Proof.
  assert (G : forall n v, (weight v <= n)%nat -> (ToString v = None <-> unconvertible v = true)).
  { clear v. induction n as [|n IH]; intros v Hw.
    { destruct v; cbn [weight] in Hw; lia. }
    destruct v as [|b|x|s|items|fields]; cbn [unconvertible];
      try (cbn [ToString]; split; discriminate).
    - assert (Hitems : forall i, In i items -> (weight i <= n)%nat).
      { intros i Hi. pose proof (weight_element i items Hi). lia. }
      clear Hw. induction items as [|i items IHl].
      + cbn. split; discriminate.
      + rewrite ToString_array. cbn [existsb]. rewrite orb_true_iff.
        assert (Hi : ToString i = None <-> unconvertible i = true)
          by (apply IH, Hitems; now left).
        assert (Hr : ToString (JArr items) = None <-> existsb unconvertible items = true)
          by (apply IHl; intros j Hj; apply Hitems; now right).
        assert (Hhead : match i with JNull => Some [] | _ => ToString i end = None
                        <-> unconvertible i = true).
        { destruct i; try exact Hi. cbn [unconvertible]. split; discriminate. }
        rewrite Hhead, Hr. reflexivity.
    - cbn [ToString]. destruct (getProp (js "toString") fields); split; congruence. }
  apply (G (weight v)). lia.
Qed.

(** So do Number(v) and Math.round(Number(v) || 0). *)
Lemma ToNumber_throws (v : Value) :
  ToNumber v = None <-> exists w, v = Some w /\ unconvertible w = true.
Proof.
  destruct v as [w|]; [|split; [discriminate | intros (w & H & _); discriminate]].
  assert (H : ToNumber (Some w) = None <-> unconvertible w = true).
  { destruct w as [|b|x|s|items|fields]; cbn [ToNumber];
      try (split; intros H; cbn in H; discriminate H).
    - rewrite <- ToString_throws. destruct (ToString (JArr items)); split; cbn; congruence.
    - rewrite <- ToString_throws. destruct (ToString (JObj fields)); split; cbn; congruence. }
  rewrite H. split; [eauto|]. now intros (w' & [= <-] & Hw).
Qed.

Lemma roundedOrZero_throws (v : Value) :
  roundedOrZero v = None <-> exists w, v = Some w /\ unconvertible w = true.
Proof.
  rewrite <- ToNumber_throws. unfold roundedOrZero.
  destruct (ToNumber v); split; congruence.
Qed.

(** ** The draft after the answer was read *)







(** * More of HomeScreen: what a save and a delete leave behind *)

(** A save that is not rejected makes the meal of the draft: the trimmed
    description, or "Meal" when nothing is left of it, the photo of the draft,
    the second clock reading as time stamp.  When the store takes the write the
    form closes and the key holds JSON.stringify of the new ledger; when it
    does not, the form stays open and the store is as before, while the ledger
    on the screen has the meal all the same. *)
Theorem saveMeal_effects (env : SaveEnv) (w : World) :
  fst (saveMeal env w) <> InvalidInput ->
  exists m,
    m = {| Meal.id := newId env; Meal.ts := ofZ (nowForTs env);
           Meal.description := orText (trim (desc (screen w))) (js "Meal");
           Meal.calories := parseInt (orText (calText (screen w)) (js "0"));
           Meal.protein_g := parseInt (orText (protText (screen w)) (js "0"));
           Meal.photoUri := photoUri (screen w) |}
    /\ meals (screen (snd (saveMeal env w))) = m :: meals (screen w)
    /\ alerts (snd (saveMeal env w)) = alerts w
    /\ (forall k, k <> STORAGE_KEY -> storage (snd (saveMeal env w)) k = storage w k)
    /\ (writeOk env = true ->
        fst (saveMeal env w) = Saved m
        /\ showModal (screen (snd (saveMeal env w))) = false
        /\ storage (snd (saveMeal env w)) STORAGE_KEY
           = Some (JSON_stringify (mealsToJSON (m :: meals (screen w)))))
    /\ (writeOk env = false ->
        fst (saveMeal env w) = WriteFailed m
        /\ showModal (screen (snd (saveMeal env w))) = showModal (screen w)
        /\ storage (snd (saveMeal env w)) STORAGE_KEY = storage w STORAGE_KEY).
Proof.
  unfold saveMeal.
  destruct (isNaN (parseInt (orText (calText (screen w)) (js "0")))
            || isNaN (parseInt (orText (protText (screen w)) (js "0")))) eqn:E.
  - simpl. congruence.
  - intros _. eexists. split; [reflexivity|].
    assert (Hk : forall v st k, k <> STORAGE_KEY -> setItem STORAGE_KEY v st k = st k).
    { intros v st k Hk. unfold setItem. apply str_eqb_neq in Hk. now rewrite Hk. }
    assert (Hs : forall v st, setItem STORAGE_KEY v st STORAGE_KEY = Some v).
    { intros v st. unfold setItem. now rewrite str_eqb_refl. }
    destruct (writeOk env) eqn:Ew; cbn [fst snd persist screen storage alerts setMeals
                                         setShowModal meals showModal].
    + split; [reflexivity|]. split; [reflexivity|]. split; [intros k; apply Hk|].
      split; [intros _ | discriminate].
      split; [reflexivity|]. split; [reflexivity|]. apply Hs.
    + split; [reflexivity|]. split; [reflexivity|]. split; [reflexivity|].
      split; [discriminate | intros _].
      repeat split.
Qed.

Lemma saveMeal_effects_witness :
  exists m,
    m = {| Meal.id := newId november; Meal.ts := ofZ (nowForTs november);
           Meal.description := orText (trim (js "Lunch")) (js "Meal");
           Meal.calories := parseInt (orText (js "650") (js "0"));
           Meal.protein_g := parseInt (orText (js "40") (js "0"));
           Meal.photoUri := None |}
    /\ meals (screen (snd (saveMeal november (formOver [] (js "650") (js "40"))))) = [m]
    /\ alerts (snd (saveMeal november (formOver [] (js "650") (js "40")))) = []
    /\ (forall k, k <> STORAGE_KEY ->
                  storage (snd (saveMeal november (formOver [] (js "650") (js "40")))) k
                  = emptyStorage k)
    /\ (true = true ->
        fst (saveMeal november (formOver [] (js "650") (js "40"))) = Saved m
        /\ showModal (screen (snd (saveMeal november (formOver [] (js "650") (js "40")))))
           = false
        /\ storage (snd (saveMeal november (formOver [] (js "650") (js "40")))) STORAGE_KEY
           = Some (JSON_stringify (mealsToJSON [m])))
    /\ (true = false ->
        fst (saveMeal november (formOver [] (js "650") (js "40"))) = WriteFailed m
        /\ showModal (screen (snd (saveMeal november (formOver [] (js "650") (js "40")))))
           = true
        /\ storage (snd (saveMeal november (formOver [] (js "650") (js "40")))) STORAGE_KEY
           = emptyStorage STORAGE_KEY).
Proof.
  apply (saveMeal_effects november (formOver [] (js "650") (js "40"))).
  discriminate.
Defined.

(** The ledger after a save that is not rejected: one meal in front, with the
    new id and the second clock reading. *)
Lemma saveMeal_head (env : SaveEnv) (w : World) :
  fst (saveMeal env w) <> InvalidInput ->
  exists m, Meal.id m = newId env /\ Meal.ts m = ofZ (nowForTs env)
            /\ meals (screen (snd (saveMeal env w))) = m :: meals (screen w).
Proof.
  unfold saveMeal.
  destruct (isNaN (parseInt (orText (calText (screen w)) (js "0")))
            || isNaN (parseInt (orText (protText (screen w)) (js "0")))).
  - simpl. congruence.
  - intros _.
    destruct (writeOk env);
      (eexists; cbn [fst snd persist screen setMeals setShowModal meals];
       (split; [|split]); [..|reflexivity]; reflexivity).
Qed.

(** Opening the form and saving it untouched logs the meal "Meal" with 0
    calories, 0 grams of protein and no photo: whatever the draft held before,
    [openModal] clears it, and the save is never rejected. *)
Theorem untouched_form_saves_the_default_meal (env : SaveEnv) (w : World) :
  let opened := {| screen := openModal (screen w); storage := storage w;
                   alerts := alerts w |} in
  fst (saveMeal env opened) <> InvalidInput
  /\ meals (screen (snd (saveMeal env opened)))
     = {| Meal.id := newId env; Meal.ts := ofZ (nowForTs env);
          Meal.description := js "Meal"; Meal.calories := Zero false;
          Meal.protein_g := Zero false; Meal.photoUri := None |} :: meals (screen w).
Proof.
  unfold saveMeal. simpl. destruct (writeOk env); simpl; split; (discriminate || reflexivity).
Qed.

Lemma filter_absent_id (id : jsstring) (l : list Meal.t) :
  ~ In id (map Meal.id l) ->
  filter (fun m => negb (str_eqb (Meal.id m) id)) l = l.
Proof.
  induction l as [|m l IH]; [reflexivity|]. cbn [filter map In]. intros H.
  assert (str_eqb (Meal.id m) id = false) as -> by (apply str_eqb_neq; tauto).
  cbn [negb]. f_equal. apply IH. tauto.
Qed.

(** deleteMeal(id) removes every meal with that id and nothing else: the
    meals with another id stay, in their order; when no meal has the id the
    ledger is as before.  Nothing but the ledger changes on the screen. *)
Theorem deleteMeal_removes_the_id (ok : bool) (id : jsstring) (w : World) :
  let after := meals (screen (deleteMeal ok id w)) in
  after = filter (fun m => negb (str_eqb (Meal.id m) id)) (meals (screen w))
  /\ (forall m, In m after <-> In m (meals (screen w)) /\ Meal.id m <> id)
  /\ ~ In id (map Meal.id after)
  /\ (~ In id (map Meal.id (meals (screen w))) -> after = meals (screen w))
  /\ setMeals (meals (screen w)) (screen (deleteMeal ok id w)) = screen w.
Proof.
  cbn zeta. unfold deleteMeal, persist. cbn [screen setMeals meals].
  split; [reflexivity|]. split; [|split; [|split]].
  - intros m. rewrite filter_In, negb_true_iff, str_eqb_neq. reflexivity.
  - intros H. apply in_map_iff in H as (m & Hm & Hin).
    apply filter_In in Hin as [_ Hin]. apply negb_true_iff, str_eqb_neq in Hin. congruence.
  - apply filter_absent_id.
  - destruct (screen w). reflexivity.
Qed.

(** Deleting twice is deleting once. *)
Theorem deleteMeal_twice (ok : bool) (id : jsstring) (w : World) :
  screen (deleteMeal ok id (deleteMeal ok id w)) = screen (deleteMeal ok id w)
  /\ (forall k, storage (deleteMeal ok id (deleteMeal ok id w)) k
                = storage (deleteMeal ok id w) k)
  /\ alerts (deleteMeal ok id (deleteMeal ok id w)) = alerts (deleteMeal ok id w).
Proof.
  assert (F : forall l : list Meal.t,
             filter (fun m => negb (str_eqb (Meal.id m) id))
                    (filter (fun m => negb (str_eqb (Meal.id m) id)) l)
             = filter (fun m => negb (str_eqb (Meal.id m) id)) l).
  { induction l as [|m l IH]; [reflexivity|]. cbn [filter].
    destruct (negb (str_eqb (Meal.id m) id)) eqn:E; [|exact IH].
    cbn [filter]. rewrite E. f_equal. exact IH. }
  unfold deleteMeal, persist. cbn [screen setMeals meals storage alerts].
  rewrite F. repeat split.
  intros k. destruct ok; [|reflexivity].
  unfold setItem. destruct (str_eqb k STORAGE_KEY); reflexivity.
Qed.

(** Deleting the meal that was just saved gives the ledger back, provided its
    id was not already in the ledger. *)
Theorem save_then_delete (env : SaveEnv) (ok : bool) (w : World) :
  fst (saveMeal env w) <> InvalidInput ->
  ~ In (newId env) (map Meal.id (meals (screen w))) ->
  meals (screen (deleteMeal ok (newId env) (snd (saveMeal env w)))) = meals (screen w).
Proof.
  intros Hs Hid.
  destruct (saveMeal_head env w Hs) as (m & Hm & _ & Hl).
  unfold deleteMeal, persist. cbn [screen setMeals meals]. rewrite Hl. cbn [filter].
  rewrite Hm, str_eqb_refl. cbn [negb]. now apply filter_absent_id.
Qed.

Lemma save_then_delete_witness :
  meals (screen (deleteMeal true (newId november)
                   (snd (saveMeal november (formOver [sundayMeal] (js "650") (js "40"))))))
  = [sundayMeal].
Proof.
  apply (save_then_delete november true (formOver [sundayMeal] (js "650") (js "40"))).
  - discriminate.
  - simpl. intros [H|[]]. discriminate H.
Defined.

(** * takePhoto *)

(** takePhoto touches nothing but the photo of the draft and, when the
    permission is refused, the alerts.  The photo changes only when the
    permission is "granted", the camera was not cancelled and its first asset
    has a uri that is not empty; it is then that uri, and the estimate can be
    asked for. *)
Theorem takePhoto_sets_only_the_photo (permission : PermissionOutcome)
        (camera : CameraOutcome) (w : World) :
  let w' := snd (takePhoto permission camera w) in
  setPhotoUri (photoUri (screen w)) (screen w') = screen w
  /\ storage w' = storage w
  /\ (alerts w' = alerts w
      \/ exists status, permission = PermissionAnswers status /\ status <> js "granted"
                        /\ screen w' = screen w)
  /\ (photoUri (screen w') = photoUri (screen w)
      \/ exists assets u,
           permission = PermissionAnswers (js "granted")
           /\ camera = CameraResolves false assets
           /\ firstUri assets = Some u /\ u <> []
           /\ photoUri (screen w') = Some u
           /\ hasPhoto (screen w') = true).
Proof.
  cbn zeta.
  assert (Hs : setPhotoUri (photoUri (screen w)) (screen w) = screen w)
    by (destruct (screen w); reflexivity).
  destruct permission as [e|status]; cbn [takePhoto snd]; [auto|].
  destruct (str_eqb status (js "granted")) eqn:Eg; cbn [negb snd screen storage alerts].
  2: { apply str_eqb_neq in Eg. repeat split; eauto. }
  apply str_eqb_eq in Eg. subst status.
  destruct camera as [e|canceled assets]; cbn [snd]; [auto|].
  destruct canceled; cbn [snd]; [auto|].
  destruct (firstUri assets) as [[|c u]|] eqn:Eu; cbn [snd screen storage alerts]; auto.
  repeat split; auto.
  right. exists assets, (c :: u). repeat split; auto. discriminate.
Qed.

(** * The day of a meal *)

Lemma uintChars_length_decimal (n : N) : (1 <= length (decimal n))%nat.
Proof.
  pose proof (decimal_not_empty n). destruct (decimal n); simpl; [congruence|lia].
Qed.

Lemma pad_length (width : nat) (z : Z) : (width <= length (pad width z))%nat.
Proof. unfold pad. rewrite length_app, repeat_length. lia. Qed.

(** The key depends on the UTC day only: two instants of one day have one key. *)
Lemma dateText_same_day (t t' : Z) :
  Day t = Day t' -> slice0 10 (toISOString t) = slice0 10 (toISOString t').
Proof.
  intros Hd. unfold slice0, toISOString.
  assert (Hy : YearFromTime t = YearFromTime t') by (unfold YearFromTime; now rewrite Hd).
  assert (Hm : MonthFromTime t = MonthFromTime t')
    by (unfold MonthFromTime, DayWithinYear; now rewrite Hd, Hy).
  assert (Hdt : DateFromTime t = DateFromTime t')
    by (unfold DateFromTime, DayWithinYear; now rewrite Hd, Hy, Hm).
  rewrite Hy, Hm, Hdt.
  set (year := if (0 <=? YearFromTime t') && (YearFromTime t' <=? 9999)
               then pad 4 (YearFromTime t')
               else (if YearFromTime t' <? 0 then ch "-" else ch "+")
                    :: pad 6 (Z.abs (YearFromTime t'))).
  assert (Hyear : (4 <= length year)%nat).
  { unfold year. destruct ((0 <=? YearFromTime t') && (YearFromTime t' <=? 9999)).
    - apply pad_length.
    - pose proof (pad_length 6 (Z.abs (YearFromTime t'))). simpl. lia. }
  set (date := year ++ js "-" ++ pad 2 (MonthFromTime t' + 1) ++ js "-"
               ++ pad 2 (DateFromTime t')).
  assert (Hdate : (10 <= length date)%nat).
  { unfold date. rewrite !length_app.
    pose proof (pad_length 2 (MonthFromTime t' + 1)).
    pose proof (pad_length 2 (DateFromTime t')). simpl. lia. }
  assert (Hcut : forall rest, firstn 10 (date ++ rest) = firstn 10 date).
  { intros rest. rewrite firstn_app.
    replace (10 - length date)%nat with 0%nat by lia. simpl. apply app_nil_r. }
  match goal with
  | |- firstn 10 ?a = firstn 10 ?b =>
      replace a with (date ++ js "T" ++ pad 2 (TimeWithinDay t / msPerHour)
                      ++ js ":" ++ pad 2 (TimeWithinDay t / 60000 mod 60)
                      ++ js ":" ++ pad 2 (TimeWithinDay t / 1000 mod 60)
                      ++ js "." ++ pad 3 (TimeWithinDay t mod 1000) ++ js "Z")
        by (unfold date; rewrite <- !app_assoc; reflexivity);
      replace b with (date ++ js "T" ++ pad 2 (TimeWithinDay t' / msPerHour)
                      ++ js ":" ++ pad 2 (TimeWithinDay t' / 60000 mod 60)
                      ++ js ":" ++ pad 2 (TimeWithinDay t' / 1000 mod 60)
                      ++ js "." ++ pad 3 (TimeWithinDay t' mod 1000) ++ js "Z")
        by (unfold date; rewrite <- !app_assoc; reflexivity)
  end.
  now rewrite !Hcut.
Qed.

(** dateKey puts two valid clock readings of the same UTC day in the same
    bucket, whatever the time of the day. *)
Theorem dateKey_same_day (t t' : Z) :
  Z.abs t <= maxTime -> Z.abs t' <= maxTime ->
  t / msPerDay = t' / msPerDay ->
  exists key, dateKey (ofZ t) = Some key /\ dateKey (ofZ t') = Some key.
Proof.
  intros Ht Ht' Hd. rewrite !dateKey_ofZ by assumption.
  eexists. split; [reflexivity|]. f_equal. symmetry. now apply dateText_same_day.
Qed.

Lemma dateKey_same_day_witness :
  exists key, dateKey (ofZ 1710028800000) = Some key
              /\ dateKey (ofZ 1710115199999) = Some key.
Proof.
  apply dateKey_same_day; unfold maxTime, msPerDay; try lia. reflexivity.
Defined.

(** A meal saved on the UTC day the screen shows goes to the head of the list
    of the day; the rest of that list is as before. *)
Theorem saved_meal_is_listed_today (env : SaveEnv) (clock : Z) (w : World)
        (todays : list Meal.t) :
  fst (saveMeal env w) <> InvalidInput ->
  Z.abs clock <= maxTime -> Z.abs (nowForTs env) <= maxTime ->
  nowForTs env / msPerDay = clock / msPerDay ->
  todaysMeals clock (screen w) = Some todays ->
  exists m, meals (screen (snd (saveMeal env w))) = m :: meals (screen w)
            /\ todaysMeals clock (screen (snd (saveMeal env w))) = Some (m :: todays).
Proof.
  intros Hs Hc Ht Hd Htoday.
  destruct (saveMeal_head env w Hs) as (m & _ & Hm & Hl).
  exists m. split; [exact Hl|].
  unfold todaysMeals, today in *. rewrite dateKey_ofZ in * by assumption. rewrite Hl.
  cbn [mealsOfDay]. rewrite Htoday, Hm, dateKey_ofZ by assumption.
  rewrite (dateText_same_day _ _ Hd), str_eqb_refl. reflexivity.
Qed.

Lemma saved_meal_is_listed_today_witness :
  exists m, meals (screen (snd (saveMeal november (formOver [sundayMeal] (js "650") (js "40")))))
            = m :: [sundayMeal]
            /\ todaysMeals 1699999999000
                 (screen (snd (saveMeal november (formOver [sundayMeal] (js "650") (js "40")))))
               = Some [m].
Proof.
  apply (saved_meal_is_listed_today november 1699999999000
           (formOver [sundayMeal] (js "650") (js "40")) []).
  - discriminate.
  - unfold maxTime. lia.
  - unfold maxTime. simpl. lia.
  - reflexivity.
  - reflexivity.
Defined.

(** * More of the server *)

Lemma strip_odd (m : positive) :
  forall e m' e', strip m e = (m', e') -> Z.odd (Zpos m') = true.
Proof.
  induction m as [m IH | m IH |]; intros e m' e' H; simpl in H.
  - now injection H as <- <-.
  - eauto.
  - now injection H as <- <-.
Qed.

(** Math.round(Number(v) || 0) throws exactly when v cannot be converted (an
    object with a key toString of its own, or an array that holds one).  When
    it does not throw it is never NaN and never has a fractional part: it is a
    zero, an integer, or an infinity, the last only when Number(v) is
    infinite. *)
Theorem roundedOrZero_is_integral (v : Value) :
  match roundedOrZero v with
  | Some NaN => False
  | Some (Finite _ _ e) => 0 <= e
  | Some (Zero neg) => True
  | Some (Infinity _) => exists neg, ToNumber v = Some (Infinity neg)
  | None => exists w, v = Some w /\ unconvertible w = true
  end
  /\ (forall w, unconvertible w = true -> roundedOrZero (Some w) = None).
Proof.
  split.
  2: { intros w Hw. apply roundedOrZero_throws. eauto. }
  destruct (roundedOrZero v) as [r|] eqn:Er; [|now apply roundedOrZero_throws].
  unfold roundedOrZero in Er. destruct (ToNumber v) as [x|]; [|discriminate Er].
  injection Er as <-.
  destruct x as [| neg | neg | neg m e]; cbn [truthyNumber Math_round]; eauto.
  destruct (Z.leb_spec 0 e); [assumption|].
  destruct ((2 * signed neg (Zpos m) + 2 ^ (- e)) / 2 ^ (- e + 1)) as [|p|p]; [exact I| |];
    unfold mkFinite; destruct (strip p 0) as [m' e'] eqn:E;
    apply strip_spec in E; lia.
Qed.







(** * Sums of ordinary numbers are exact *)

(** The Number of a non-zero integer below 2^53 is that integer, written with
    an odd mantissa and an exponent that is not negative. *)
Lemma round64_integer_shape (p : positive) :
  Zpos p < 2 ^ 53 ->
  exists m e, (forall neg, round64 neg p 1 = Finite neg m e)
              /\ 0 <= e /\ Zpos m * 2 ^ e = Zpos p.
Proof.
  intros Hp.
  assert (Hlog : 0 <= Z.log2 (Zpos p) <= 52).
  { split; [apply Z.log2_nonneg|].
    assert (Z.log2 (Zpos p) < 53); [|lia].
    apply Z.log2_lt_pow2; lia. }
  pose proof (Z.log2_spec (Zpos p) eq_refl) as [Hlo _].
  assert (Hshape : exists q u, (forall neg, round64 neg p 1 = mkFinite neg q u) /\ u <= 0
                               /\ Zpos q = Zpos p * 2 ^ (- u)).
  { assert (Hpos : 0 < 2 ^ (- (Z.log2 (Zpos p) - 52)))
      by (apply Z.pow_pos_nonneg; lia).
    destruct (Zpos p * 2 ^ (- (Z.log2 (Zpos p) - 52))) as [|q|q] eqn:Eq; try lia.
    exists q, (Z.log2 (Zpos p) - 52). split; [|split; [lia | now rewrite Eq]].
    intros neg. unfold round64.
    change (Z.log2 1) with 0. rewrite Z.sub_0_r.
    destruct (Z.leb_spec 0 (Z.log2 (Zpos p))); [|lia].
    change (Zpos 1 * 2 ^ Z.log2 (Zpos p)) with (1 * 2 ^ Z.log2 (Zpos p)).
    rewrite Z.mul_1_l.
    destruct (Z.leb_spec (2 ^ Z.log2 (Zpos p)) (Zpos p)); [|lia].
    rewrite Z.max_l by lia.
    set (u := Z.log2 (Zpos p) - 52) in *.
    destruct (Z.leb_spec 0 u).
    - assert (Hu : u = 0) by lia. rewrite Hu in *.
      change (Zpos 1 * 2 ^ 0) with 1.
      rewrite Z.div_1_r, Z.mod_1_r.
      change (2 * 0) with 0. change (1 <? 0) with false. change (1 =? 0) with false.
      cbn [orb andb].
      rewrite Z.add_0_r.
      destruct (Z.leb_spec 1024 (Z.log2 (Zpos p))); [lia|].
      change (2 ^ (- 0)) with 1 in Eq. rewrite Z.mul_1_r in Eq.
      injection Eq as Eq. now rewrite Eq.
    - change (Zpos 1) with 1.
      rewrite Z.div_1_r, Z.mod_1_r.
      change (2 * 0) with 0. change (1 <? 0) with false. change (1 =? 0) with false.
      cbn [orb andb]. rewrite Eq.
      assert (Z.log2 (Zpos q) = Z.log2 (Zpos p) + - u) as ->
          by (rewrite <- Eq, Z.log2_mul_pow2 by lia; lia).
      destruct (Z.leb_spec 1024 (Z.log2 (Zpos p) + - u + u)); [lia|].
      reflexivity. }
  destruct Hshape as (q & u & Hr & Hu & Hq).
  destruct (strip q u) as [m e] eqn:E.
  pose proof (strip_odd _ _ _ _ E) as Hodd.
  pose proof (strip_spec _ _ _ _ E) as [Hle Hv].
  exists m, e. split; [intros neg; rewrite Hr; unfold mkFinite; now rewrite E|].
  assert (He : 0 <= e).
  { destruct (Z.leb_spec 0 e) as [|Hneg]; [assumption|exfalso].
    assert (Hm : Zpos m = Zpos p * 2 ^ (- e)).
    { assert (H2 : 0 < 2 ^ (e - u)) by (apply Z.pow_pos_nonneg; lia).
      apply (Z.mul_cancel_r _ _ (2 ^ (e - u))); [lia|].
      rewrite <- Hv, Hq, <- Z.mul_assoc, <- Z.pow_add_r by lia.
      do 2 f_equal. lia. }
    replace (- e) with (Z.succ (- e - 1)) in Hm by lia.
    rewrite Z.pow_succ_r in Hm by lia.
    rewrite Hm in Hodd.
    replace (Zpos p * (2 * 2 ^ (- e - 1))) with (2 * (Zpos p * 2 ^ (- e - 1))) in Hodd by lia.
    rewrite Z.odd_mul in Hodd. discriminate. }
  split; [assumption|].
  assert (H2 : 0 < 2 ^ (- u)) by (apply Z.pow_pos_nonneg; lia).
  apply (Z.mul_cancel_r _ _ (2 ^ (- u))); [lia|].
  rewrite <- Hq, Hv, <- Z.mul_assoc, <- Z.pow_add_r by lia.
  replace (e + - u) with (e - u) by lia. reflexivity.
Qed.

(** Adding two integers below 2^53 gives the Number of their sum. *)
Lemma Nadd_ofZ (a b : Z) :
  Z.abs a < 2 ^ 53 -> Z.abs b < 2 ^ 53 -> Nadd (ofZ a) (ofZ b) = ofZ (a + b).
Proof.
  intros Ha Hb.
  assert (S : forall z, Z.abs z < 2 ^ 53 -> z <> 0 ->
              exists neg m e, ofZ z = Finite neg m e /\ 0 <= e
                              /\ signed neg (Zpos m * 2 ^ e) = z).
  { intros [|p|p] Hz Hn; [congruence| |].
    - destruct (round64_integer_shape p Hz) as (m & e & E & He & Hv).
      exists false, m, e. split; [apply E | split; assumption].
    - destruct (round64_integer_shape p Hz) as (m & e & E & He & Hv).
      exists true, m, e. split; [apply E | split; [assumption|]].
      cbn [signed]. rewrite Hv. reflexivity. }
  destruct (Z.eq_dec a 0) as [->|Hna].
  { cbn [ofZ Z.add]. destruct (Z.eq_dec b 0) as [->|Hnb]; [reflexivity|].
    destruct (S b Hb Hnb) as (neg & m & e & -> & _). reflexivity. }
  destruct (S a Ha Hna) as (n1 & m1 & e1 & E1 & He1 & V1).
  destruct (Z.eq_dec b 0) as [->|Hnb].
  { rewrite Z.add_0_r, E1. reflexivity. }
  destruct (S b Hb Hnb) as (n2 & m2 & e2 & E2 & He2 & V2).
  rewrite E1, E2. cbn [Nadd]. unfold denomLog, numer.
  destruct (Z.leb_spec 0 e1); [|lia]. destruct (Z.leb_spec 0 e2); [|lia].
  change (Z.max 0 0) with 0. change (2 ^ (0 - 0)) with 1. rewrite !Z.mul_1_r.
  rewrite V1, V2. unfold roundDyadic. change (2 ^ 0) with 1.
  destruct (a + b); reflexivity.
Qed.

(** A reduction over non-negative integers whose sum is below 2^53 is the
    Number of the sum: no rounding takes place. *)
Lemma sumBy_exact {A : Type} (f : A -> Number) (v : A -> Z) (l : list A) :
  (forall a, In a l -> f a = ofZ (v a) /\ 0 <= v a) ->
  sumZ v l < 2 ^ 53 ->
  sumBy f l = ofZ (sumZ v l).
Proof.
  intros Hf Hs. unfold sumBy. change (Zero false) with (ofZ 0).
  assert (G : forall l s, (forall a, In a l -> f a = ofZ (v a) /\ 0 <= v a) ->
              0 <= s -> s + sumZ v l < 2 ^ 53 ->
              fold_left (fun s a => Nadd s (f a)) l (ofZ s) = ofZ (s + sumZ v l)).
  { clear l Hf Hs. induction l as [|a l IH]; intros s Hf Hs0 Hs.
    - cbn [fold_left sumZ fold_right]. now rewrite Z.add_0_r.
    - change (sumZ v (a :: l)) with (v a + sumZ v l) in *.
      cbn [fold_left].
      assert (Hl : 0 <= sumZ v l).
      { clear -Hf. induction l as [|b l IH]; [cbn; lia|].
        change (sumZ v (b :: l)) with (v b + sumZ v l).
        assert (0 <= v b) by (apply Hf; right; now left).
        assert (0 <= sumZ v l); [|lia].
        apply IH. intros c Hc. apply Hf. destruct Hc; [now left | right; now right]. }
      destruct (Hf a (or_introl eq_refl)) as [-> Ha].
      rewrite Nadd_ofZ by lia.
      rewrite IH; [f_equal; lia | | lia | lia].
      intros c Hc. apply Hf. now right. }
  apply (G l 0); auto; lia.
Qed.

(** * WeekScreen: what the rows and the totals hold *)

Lemma mealsOfDay_filter (d : jsstring) (ms : list Meal.t) :
  (forall m, In m ms -> dateKey (Meal.ts m) <> None) ->
  mealsOfDay d ms = Some (filter (onDay d) ms).
Proof.
  induction ms as [|m ms IH]; intros H; [reflexivity|].
  cbn [mealsOfDay filter]. unfold onDay at 1.
  rewrite IH by (intros x Hx; apply H; now right).
  destruct (dateKey (Meal.ts m)) as [k|] eqn:E.
  - destruct (str_eqb k d); reflexivity.
  - exfalso. apply (H m); [now left | exact E].
Qed.

Lemma mealsOfDay_throws (d : jsstring) (ms : list Meal.t) :
  mealsOfDay d ms = None <-> exists m, In m ms /\ dateKey (Meal.ts m) = None.
Proof.
  induction ms as [|m ms IH]; cbn [mealsOfDay].
  - split; [discriminate | intros (m & [] & _)].
  - destruct (dateKey (Meal.ts m)) as [k|] eqn:E.
    + destruct (mealsOfDay d ms) as [rest|].
      * split; [discriminate|]. intros (x & [<-|Hx] & Hn); [congruence|].
        destruct IH as [_ IH].
        assert (H0 : Some rest = None) by (apply IH; now exists x).
        discriminate H0.
      * split; [|reflexivity]. intros _.
        destruct IH as [IH _]. destruct (IH eq_refl) as (x & Hx & Hn).
        exists x. split; [now right | exact Hn].
    + split; [|reflexivity]. intros _. exists m. split; [now left | exact E].
Qed.

(** One meal whose time stamp Date cannot print (NaN, an infinity, or beyond
    8.64e15 ms from the epoch) brings down the whole table: [dateKey] throws
    inside the filter of the first day, so no row and no total is computed.
    With every time stamp printable the table has one row per day, in the
    order of the days. *)
Theorem perDay_throws_on_an_invalid_time (ms : list Meal.t) (days : list jsstring) :
  (perDay ms days = None
   <-> days <> [] /\ exists m, In m ms /\ dateKey (Meal.ts m) = None)
  /\ (forall rows, perDay ms days = Some rows -> map day rows = days)
  /\ (forall m, dateKey (Meal.ts m) = None
                <-> match truncate (Meal.ts m) with
                    | Some t => maxTime < Z.abs t
                    | None => True
                    end).
Proof.
  split; [|split].
  - unfold perDay. induction days as [|d days IH]; cbn [traverse].
    + split; [discriminate | intros [H _]; congruence].
    + unfold totalsOfDay at 1.
      destruct (mealsOfDay d ms) as [l|] eqn:E.
      * destruct (traverse (totalsOfDay ms) days) as [rows|].
        -- split; [discriminate|]. intros (_ & H).
           apply (mealsOfDay_throws d) in H. congruence.
        -- split; [|reflexivity]. intros _. split; [discriminate|].
           apply IH. reflexivity.
      * split; [|reflexivity]. intros _. split; [discriminate|].
        now apply (mealsOfDay_throws d).
  - unfold perDay. induction days as [|d days IH]; cbn [traverse]; intros rows H.
    + injection H as <-. reflexivity.
    + unfold totalsOfDay at 1 in H.
      destruct (mealsOfDay d ms); [|discriminate].
      destruct (traverse (totalsOfDay ms) days) as [rest|]; [|discriminate].
      injection H as <-. cbn [map day]. f_equal. now apply IH.
  - intros m. unfold dateKey, newDate, TimeClip.
    destruct (truncate (Meal.ts m)) as [t|]; cbn [option_map]; [|tauto].
    destruct (Z.leb_spec (Z.abs t) maxTime); cbn [option_map].
    + split; [discriminate | lia].
    + split; [intros _; assumption | reflexivity].
Qed.

Lemma sumZ_filter_bounds {A : Type} (v : A -> Z) (P : A -> bool) (l : list A) :
  (forall a, In a l -> 0 <= v a) -> 0 <= sumZ v (filter P l) <= sumZ v l.
Proof.
  induction l as [|a l IH]; intros H; [cbn; lia|].
  change (sumZ v (a :: l)) with (v a + sumZ v l).
  assert (0 <= v a) by (apply H; now left).
  assert (0 <= sumZ v (filter P l) <= sumZ v l) by (apply IH; intros x Hx; apply H; now right).
  cbn [filter]. destruct (P a); [|lia].
  change (sumZ v (a :: filter P l)) with (v a + sumZ v (filter P l)). lia.
Qed.

Lemma sumZ_cons {A : Type} (v : A -> Z) (a : A) (l : list A) :
  sumZ v (a :: l) = v a + sumZ v l.
Proof. reflexivity. Qed.

Lemma sumZ_filter_or {A : Type} (v : A -> Z) (P Q : A -> bool) (l : list A) :
  (forall a, In a l -> P a = true -> Q a = false) ->
  sumZ v (filter (fun a => P a || Q a) l) = sumZ v (filter P l) + sumZ v (filter Q l).
Proof.
  induction l as [|a l IH]; intros H; [reflexivity|].
  cbn [filter].
  assert (IH' := IH (fun x Hx => H x (or_intror Hx))).
  destruct (P a) eqn:E1; cbn [orb].
  - rewrite (H a (or_introl eq_refl) E1), !sumZ_cons, IH'. lia.
  - destruct (Q a); rewrite ?sumZ_cons, IH'; lia.
Qed.

(** Over distinct days the daily sums add up to the sum over the meals of
    those days: no meal is counted twice. *)
Lemma sumZ_days (v : Meal.t -> Z) (ms : list Meal.t) (days : list jsstring) :
  NoDup days ->
  sumZ (fun d => sumZ v (filter (onDay d) ms)) days = sumZ v (filter (inDays days) ms).
Proof.
  induction 1 as [|d days Hd Hn IH].
  - cbn. induction ms as [|m ms IHm]; [reflexivity | exact IHm].
  - rewrite sumZ_cons, IH.
    change (filter (inDays (d :: days)) ms)
      with (filter (fun m => onDay d m || inDays days m) ms).
    symmetry. apply sumZ_filter_or.
    intros m _ E1.
    destruct (inDays days m) eqn:E2; [|reflexivity]. exfalso. apply Hd.
    unfold inDays in E2. apply existsb_exists in E2 as (d' & Hin & E3).
    unfold onDay in E1, E3. destruct (dateKey (Meal.ts m)); [|discriminate].
    apply str_eqb_eq in E1, E3. congruence.
Qed.

Lemma sumBy_map {A B : Type} (f : B -> Number) (g : A -> B) (l : list A) :
  sumBy f (map g l) = sumBy (fun a => f (g a)) l.
Proof.
  unfold sumBy. generalize (Zero false).
  induction l as [|a l IH]; intros s; [reflexivity|]. cbn [map fold_left]. apply IH.
Qed.

Lemma perDay_rows (ms : list Meal.t) (days : list jsstring) :
  (forall m, In m ms -> dateKey (Meal.ts m) <> None) ->
  perDay ms days
  = Some (map (fun d => {| day := d;
                           dayCalories := sumBy Meal.calories (filter (onDay d) ms);
                           dayProtein := sumBy Meal.protein_g (filter (onDay d) ms) |})
              days).
Proof.
  intros H. unfold perDay.
  induction days as [|d days IH]; [reflexivity|].
  cbn [traverse map]. rewrite IH. unfold totalsOfDay.
  rewrite mealsOfDay_filter by exact H. reflexivity.
Qed.

(** perDay has one row per element of the day list, in the order of the list.
    The row of a day holds the sums of calories and of protein_g over the
    meals whose dateKey is that day, these and no others, in the order of the
    ledger; and the weekly totals are the sums of those day sums, a repeated
    day counted as often as it is listed. *)
Theorem weeklyTotals_sums_rows (ms : list Meal.t) (days : list jsstring)
        (rows : list DayTotals) :
  perDay ms days = Some rows ->
  rows = map (fun d => {| day := d;
                          dayCalories := sumBy Meal.calories (filter (onDay d) ms);
                          dayProtein := sumBy Meal.protein_g (filter (onDay d) ms) |})
             days
  /\ (forall d m, In m (filter (onDay d) ms) <-> In m ms /\ dateKey (Meal.ts m) = Some d)
  /\ totalCalories (weeklyTotals rows)
     = sumBy (fun d => sumBy Meal.calories (filter (onDay d) ms)) days
  /\ totalProtein (weeklyTotals rows)
     = sumBy (fun d => sumBy Meal.protein_g (filter (onDay d) ms)) days.
Proof.
  intros H.
  assert (Hmeals : forall d m, In m (filter (onDay d) ms)
                               <-> In m ms /\ dateKey (Meal.ts m) = Some d).
  { intros d m. rewrite filter_In. unfold onDay.
    destruct (dateKey (Meal.ts m)) as [k|].
    - rewrite str_eqb_eq. split; intros [Hin E]; (split; [assumption | congruence]).
    - split; intros [_ E]; discriminate E. }
  assert (Hrows : rows = map (fun d => {| day := d;
                                          dayCalories := sumBy Meal.calories (filter (onDay d) ms);
                                          dayProtein := sumBy Meal.protein_g (filter (onDay d) ms) |})
                             days).
  { destruct days as [|d days]; [cbn in H; now injection H as <-|].
    assert (Hvalid : forall m, In m ms -> dateKey (Meal.ts m) <> None).
    { intros m Hm Hn.
      assert (Hthrow : mealsOfDay d ms = None) by (apply mealsOfDay_throws; eauto).
      unfold perDay in H. cbn [traverse] in H. unfold totalsOfDay at 1 in H.
      rewrite Hthrow in H. discriminate H. }
    rewrite (perDay_rows ms (d :: days) Hvalid) in H. now injection H as <-. }
  split; [exact Hrows|]. split; [exact Hmeals|].
  rewrite Hrows. unfold weeklyTotals. cbn [totalCalories totalProtein].
  rewrite !sumBy_map. cbn [dayCalories dayProtein]. split; reflexivity.
Qed.

Lemma weeklyTotals_sums_rows_witness :
  [{| day := js "2024-03-10"; dayCalories := ofZ 500; dayProtein := ofZ 30 |}]
  = map (fun d => {| day := d;
                     dayCalories := sumBy Meal.calories (filter (onDay d) [lunch; sundayMeal]);
                     dayProtein := sumBy Meal.protein_g (filter (onDay d) [lunch; sundayMeal]) |})
        [js "2024-03-10"]
  /\ (forall d m, In m (filter (onDay d) [lunch; sundayMeal])
                  <-> In m [lunch; sundayMeal] /\ dateKey (Meal.ts m) = Some d)
  /\ totalCalories
       (weeklyTotals [{| day := js "2024-03-10"; dayCalories := ofZ 500;
                         dayProtein := ofZ 30 |}])
     = sumBy (fun d => sumBy Meal.calories (filter (onDay d) [lunch; sundayMeal]))
             [js "2024-03-10"]
  /\ totalProtein
       (weeklyTotals [{| day := js "2024-03-10"; dayCalories := ofZ 500;
                         dayProtein := ofZ 30 |}])
     = sumBy (fun d => sumBy Meal.protein_g (filter (onDay d) [lunch; sundayMeal]))
             [js "2024-03-10"].
Proof.
  apply (weeklyTotals_sums_rows [lunch; sundayMeal] [js "2024-03-10"]).
  vm_compute. reflexivity.
Defined.

(** One column of the table. *)
Lemma column_exact (f : Meal.t -> Number) (v : Meal.t -> Z)
      (ms : list Meal.t) (days : list jsstring) :
  NoDup days ->
  (forall m, In m ms -> f m = ofZ (v m) /\ 0 <= v m) ->
  sumZ v ms < 2 ^ 53 ->
  sumBy (fun d => sumBy f (filter (onDay d) ms)) days
  = ofZ (sumZ v (filter (inDays days) ms)).
Proof.
  intros Hn Hf Hs.
  assert (Hv : forall m, In m ms -> 0 <= v m) by (intros m Hm; now apply Hf).
  rewrite <- sumZ_days by exact Hn.
  apply sumBy_exact.
  - intros d _. pose proof (sumZ_filter_bounds v (onDay d) ms Hv). split; [|lia].
    apply sumBy_exact; [|lia].
    intros m Hm. apply Hf. now apply filter_In in Hm.
  - rewrite sumZ_days by exact Hn.
    pose proof (sumZ_filter_bounds v (inDays days) ms Hv). lia.
Qed.

(** With distinct days, printable time stamps and calories and protein that
    are non-negative integers with sums below 2^53, the weekly totals are
    exact: each is the sum over the meals whose day is in the table, every
    such meal counted once and no other meal counted. *)
Theorem weeklyTotals_exact (ms : list Meal.t) (days : list jsstring)
        (cal prot : Meal.t -> Z) :
  NoDup days ->
  (forall m, In m ms -> dateKey (Meal.ts m) <> None) ->
  (forall m, In m ms -> Meal.calories m = ofZ (cal m) /\ 0 <= cal m) ->
  (forall m, In m ms -> Meal.protein_g m = ofZ (prot m) /\ 0 <= prot m) ->
  sumZ cal ms < 2 ^ 53 -> sumZ prot ms < 2 ^ 53 ->
  exists rows,
    perDay ms days = Some rows
    /\ weeklyTotals rows
       = {| totalCalories := ofZ (sumZ cal (filter (inDays days) ms));
            totalProtein := ofZ (sumZ prot (filter (inDays days) ms)) |}.
Proof.
  intros Hn Ht Hc Hp Hsc Hsp.
  eexists. split; [apply perDay_rows; exact Ht|].
  unfold weeklyTotals. rewrite !sumBy_map. cbn [dayCalories dayProtein].
  f_equal; now apply column_exact.
Qed.

Lemma weeklyTotals_exact_witness :
  exists rows,
    perDay [lunch; sundayMeal] [js "2024-03-10"; js "2024-03-09"] = Some rows
    /\ weeklyTotals rows
       = {| totalCalories :=
              ofZ (sumZ (fun m => match truncate (Meal.calories m) with
                                  | Some z => z | None => 0 end)
                        (filter (inDays [js "2024-03-10"; js "2024-03-09"])
                                [lunch; sundayMeal]));
            totalProtein :=
              ofZ (sumZ (fun m => match truncate (Meal.protein_g m) with
                                  | Some z => z | None => 0 end)
                        (filter (inDays [js "2024-03-10"; js "2024-03-09"])
                                [lunch; sundayMeal])) |}.
Proof.
  apply weeklyTotals_exact.
  - repeat constructor; cbn; intuition discriminate.
  - intros m [<-|[<-|[]]]; vm_compute; discriminate.
  - intros m [<-|[<-|[]]]; (vm_compute; split; [reflexivity | discriminate]).
  - intros m [<-|[<-|[]]]; (vm_compute; split; [reflexivity | discriminate]).
  - vm_compute. reflexivity.
  - vm_compute. reflexivity.
Defined.

(** The totals of the day on the home screen are exact under the same
    conditions: the sum of the calories and the sum of the protein of the
    meals of the day. *)
Theorem totals_exact (todays : list Meal.t) (cal prot : Meal.t -> Z) :
  (forall m, In m todays -> Meal.calories m = ofZ (cal m) /\ 0 <= cal m) ->
  (forall m, In m todays -> Meal.protein_g m = ofZ (prot m) /\ 0 <= prot m) ->
  sumZ cal todays < 2 ^ 53 -> sumZ prot todays < 2 ^ 53 ->
  totals todays = {| totalCalories := ofZ (sumZ cal todays);
                     totalProtein := ofZ (sumZ prot todays) |}.
Proof.
  intros Hc Hp Hsc Hsp. unfold totals. f_equal; now apply sumBy_exact.
Qed.

Lemma totals_exact_witness :
  totals [lunch; sundayMeal]
  = {| totalCalories :=
         ofZ (sumZ (fun m => match truncate (Meal.calories m) with
                             | Some z => z | None => 0 end) [lunch; sundayMeal]);
       totalProtein :=
         ofZ (sumZ (fun m => match truncate (Meal.protein_g m) with
                             | Some z => z | None => 0 end) [lunch; sundayMeal]) |}.
Proof.
  apply totals_exact.
  - intros m [<-|[<-|[]]]; (vm_compute; split; [reflexivity | discriminate]).
  - intros m [<-|[<-|[]]]; (vm_compute; split; [reflexivity | discriminate]).
  - vm_compute. reflexivity.
  - vm_compute. reflexivity.
Defined.

(** * Printing an ordinary integer *)

Lemma Number_eqb_eq (x y : Number) : Number_eqb x y = true -> x = y.
Proof.
  destruct x as [|a|a|a m e], y as [|b|b|b m' e']; cbn [Number_eqb]; try discriminate;
    try reflexivity.
  - intros H. apply eqb_prop in H. now subst.
  - intros H. apply eqb_prop in H. now subst.
  - intros H. apply andb_true_iff in H as [H He]. apply andb_true_iff in H as [Hs Hm].
    apply eqb_prop in Hs. apply Pos.eqb_eq in Hm. apply Z.eqb_eq in He. now subst.
Qed.

Lemma Number_eqb_refl (x : Number) : Number_eqb x x = true.
Proof.
  destruct x as [|a|a|a m e]; cbn [Number_eqb]; try reflexivity; try apply eqb_reflx.
  now rewrite eqb_reflx, Pos.eqb_refl, Z.eqb_refl.
Qed.

(** Reading a positive integer below 2^53 against the Number of another. *)
Lemma back_eqb (z : Z) (p : positive) :
  0 < z < 2 ^ 53 -> Zpos p < 2 ^ 53 ->
  Number_eqb (ofMagnitude false z 1) (round64 false p 1) = (z =? Zpos p).
Proof.
  intros Hz Hp. destruct z as [|q|q]; try lia. cbn [ofMagnitude].
  destruct (Z.eqb_spec (Zpos q) (Zpos p)) as [E|E].
  - injection E as ->. apply Number_eqb_refl.
  - destruct (Number_eqb (round64 false q 1) (round64 false p 1)) eqn:B; [|reflexivity].
    apply Number_eqb_eq in B. exfalso. apply E.
    assert (T : truncate (round64 false q 1) = truncate (round64 false p 1)) by now rewrite B.
    rewrite !round64_integer in T by lia. cbn [signed] in T. congruence.
Qed.

Lemma pow10_pos (k : Z) : 0 <= k -> 0 < 10 ^ k.
Proof. intros H. apply Z.pow_pos_nonneg; lia. Qed.

Lemma pow10_le (a b : Z) : a <= b -> 10 ^ a <= 10 ^ b.
Proof. intros H. apply Z.pow_le_mono_r; lia. Qed.

(** The number of digits of [p] is found from any start within the fuel. *)
Lemma adjust10_spec (p N : Z) :
  1 <= p -> 10 ^ (N - 1) <= p < 10 ^ N ->
  forall (fuel : nat) (n0 : Z),
    0 <= n0 -> Z.abs (N - n0) < Z.of_nat fuel -> adjust10 fuel p 1 n0 = N.
Proof.
  intros Hp [Hlo Hhi].
  assert (HN : 1 <= N).
  { destruct (Z.leb_spec 1 N); [assumption|exfalso].
    assert (10 ^ N <= 10 ^ 0) by (apply pow10_le; lia).
    change (10 ^ 0) with 1 in *. lia. }
  assert (Up : forall n, p < 10 ^ n -> N <= n).
  { intros n Hn. destruct (Z.leb_spec N n); [assumption|exfalso].
    assert (10 ^ n <= 10 ^ (N - 1)) by (apply pow10_le; lia). lia. }
  assert (Down : forall n, 10 ^ n <= p -> n < N).
  { intros n Hn. destruct (Z.ltb_spec n N); [assumption|exfalso].
    assert (10 ^ N <= 10 ^ n) by (apply pow10_le; lia). lia. }
  induction fuel as [|fuel IH]; intros n0 H0 Hd; [lia|].
  cbn [adjust10]. cbv zeta beta.
  destruct (Z.leb_spec 0 n0); [|lia]. rewrite !Z.mul_1_l.
  destruct (Z.ltb_spec p (10 ^ n0)) as [Hb|Hb].
  - apply Up in Hb.
    destruct (Z.leb_spec 0 (n0 - 1)); [|lia].
    destruct (Z.ltb_spec p (10 ^ (n0 - 1))) as [Hc|Hc].
    + apply Up in Hc. apply IH; lia.
    + apply Down in Hc. lia.
  - apply Down in Hb. apply IH; lia.
Qed.

Lemma log_table (L : Z) :
  0 <= L <= 52 ->
  10 ^ (L * 30103 / 100000) <= 2 ^ L /\ 2 ^ (L + 1) <= 10 ^ (L * 30103 / 100000 + 2).
Proof.
  intros HL.
  assert (T : forallb (fun n => let l := Z.of_nat n in
                                (10 ^ (l * 30103 / 100000) <=? 2 ^ l)
                                && (2 ^ (l + 1) <=? 10 ^ (l * 30103 / 100000 + 2)))
                      (seq 0 53) = true) by (vm_compute; reflexivity).
  rewrite forallb_forall in T. specialize (T (Z.to_nat L)).
  cbv zeta in T. rewrite Z2Nat.id in T by lia.
  assert (H : In (Z.to_nat L) (seq 0 53)) by (apply in_seq; lia).
  apply T in H. apply andb_true_iff in H as [H1 H2].
  apply Z.leb_le in H1, H2. now split.
Qed.

Lemma magnitude10_int (p : Z) :
  1 <= p < 2 ^ 53 ->
  exists N, magnitude10 p 1 = N /\ 10 ^ (N - 1) <= p < 10 ^ N.
Proof.
  intros Hp.
  assert (Hlog : 0 <= Z.log2 p <= 52).
  { split; [apply Z.log2_nonneg|].
    assert (Z.log2 p < 53); [|lia]. apply Z.log2_lt_pow2; lia. }
  destruct (Z.log2_spec p) as [Hlo Hhi]; [lia|].
  destruct (log_table _ Hlog) as [T1 T2].
  set (e0 := Z.log2 p * 30103 / 100000) in *.
  assert (He0 : 0 <= e0) by (apply Z.div_pos; lia).
  replace (Z.succ (Z.log2 p)) with (Z.log2 p + 1) in Hhi by lia.
  assert (HN : exists N, 10 ^ (N - 1) <= p < 10 ^ N /\ e0 < N <= e0 + 2).
  { destruct (Z.ltb_spec p (10 ^ (e0 + 1))).
    - exists (e0 + 1). replace (e0 + 1 - 1) with e0 by lia. lia.
    - exists (e0 + 2). replace (e0 + 2 - 1) with (e0 + 1) by lia. lia. }
  destruct HN as (N & HN & Hd).
  exists N. split; [|exact HN].
  unfold magnitude10. change (Z.log2 1) with 0. rewrite Z.sub_0_r. fold e0.
  apply adjust10_spec; try lia.
Qed.

(** A candidate with [k] digits is accepted exactly when it is the integer
    itself, the digits left out being zeros. *)
Lemma candidate_int (p : positive) (N k : Z) :
  Zpos p < 10 ^ 15 -> 10 ^ (N - 1) <= Zpos p < 10 ^ N -> 1 <= k <= N ->
  candidate (round64 false p 1) (Zpos p) 1 N k
  = if Zpos p mod 10 ^ (N - k) =? 0 then Some (Zpos p / 10 ^ (N - k), N) else None.
Proof.
  intros Hp [Hlo Hhi] Hk.
  assert (HN : N <= 15).
  { destruct (Z.leb_spec N 15); [assumption|exfalso].
    assert (10 ^ 15 <= 10 ^ (N - 1)) by (apply pow10_le; lia). lia. }
  assert (H15 : 10 ^ N <= 10 ^ 15) by (apply pow10_le; lia).
  unfold candidate. cbv zeta.
  destruct (Z.leb_spec 0 (k - N)) as [Hs|Hs].
  - assert (k = N) by lia. subst k.
    rewrite !Z.sub_diag. change (10 ^ 0) with 1.
    rewrite Z.mul_1_r, Z.div_1_r, Z.mod_1_r.
    cbn [ofMagnitude]. rewrite Number_eqb_refl.
    rewrite back_eqb by lia.
    destruct (Z.eqb_spec (Zpos p + 1) (Zpos p)); [lia|].
    reflexivity.
  - replace (- (k - N)) with (N - k) by lia.
    set (j := N - k) in *.
    assert (Hj : 0 < 10 ^ j) by (apply pow10_pos; lia).
    rewrite Z.mul_1_l.
    assert (Hsplit : 10 ^ N = 10 ^ k * 10 ^ j)
      by (rewrite <- Z.pow_add_r by lia; f_equal; lia).
    assert (Hjle : 10 ^ j <= Zpos p).
    { assert (10 ^ j <= 10 ^ (N - 1)) by (apply pow10_le; lia). lia. }
    pose proof (Z.div_mod (Zpos p) (10 ^ j) ltac:(lia)) as Hdm.
    pose proof (Z.mod_pos_bound (Zpos p) (10 ^ j) Hj) as Hm.
    set (lo := Zpos p / 10 ^ j) in *.
    set (r := Zpos p mod 10 ^ j) in *.
    assert (Hlo1 : 1 <= lo) by (apply Z.div_le_lower_bound; lia).
    assert (Hlok : lo < 10 ^ k) by (apply Z.div_lt_upper_bound; lia).
    assert (Hhi2 : (lo + 1) * 10 ^ j <= 10 ^ N) by nia.
    rewrite !back_eqb by nia.
    destruct (Z.eqb_spec ((lo + 1) * 10 ^ j) (Zpos p)) as [E|_]; [nia|].
    destruct (Z.eqb_spec (lo * 10 ^ j) (Zpos p)) as [E|E];
      destruct (Z.eqb_spec r 0) as [R|R]; try reflexivity; nia.
Qed.

Lemma shortest_int (p : positive) (N : Z) :
  Zpos p < 10 ^ 15 -> 10 ^ (N - 1) <= Zpos p < 10 ^ N ->
  forall (fuel : nat) (k : Z),
    1 <= k <= N -> N - k < Z.of_nat fuel ->
    exists s k', shortest fuel (round64 false p 1) (Zpos p) 1 N k = (s, k', N)
                 /\ 1 <= k' <= N /\ 0 < s /\ s * 10 ^ (N - k') = Zpos p.
Proof.
  intros Hp HN.
  induction fuel as [|fuel IH]; intros k Hk Hf; [lia|].
  cbn [shortest]. rewrite candidate_int by assumption.
  assert (Hj : 0 < 10 ^ (N - k)) by (apply pow10_pos; lia).
  pose proof (Z.div_mod (Zpos p) (10 ^ (N - k)) ltac:(lia)) as Hdm.
  destruct (Z.eqb_spec (Zpos p mod 10 ^ (N - k)) 0) as [R|R].
  - exists (Zpos p / 10 ^ (N - k)), k. split; [reflexivity|]. split; [assumption|].
    rewrite R in Hdm. split; [|lia].
    destruct (Z.ltb_spec 0 (Zpos p / 10 ^ (N - k))); [assumption|nia].
  - assert (k <> N).
    { intros ->. rewrite Z.sub_diag in R. change (10 ^ 0) with 1 in R.
      now rewrite Z.mod_1_r in R. }
    apply IH; lia.
Qed.

(** ** The digits of ten times a number *)

Lemma uintChars_snoc0 (u : Decimal.uint) : uintChars (snoc0 u) = uintChars u ++ [48%N].
Proof. induction u; cbn [snoc0 uintChars app]; congruence. Qed.

Lemma digitsValue_app (a b : jsstring) :
  digitsValue (a ++ b) = fold_left (fun acc c => 10 * acc + digitVal c) b (digitsValue a).
Proof. unfold digitsValue. apply fold_left_app. Qed.

Lemma unorm_zero_head (u v : Decimal.uint) :
  Decimal.unorm u = Decimal.D0 v -> v = Decimal.Nil.
Proof.
  induction u; cbn [Decimal.unorm]; intros H; try discriminate; auto.
  injection H as <-. reflexivity.
Qed.

Lemma decimal_times10 (n : N) :
  (0 < n)%N -> decimal (10 * n) = decimal n ++ [48%N].
Proof.
  intros Hn. unfold decimal. rewrite <- uintChars_snoc0. f_equal.
  set (d := N.to_uint n).
  assert (Hd : Decimal.unorm d = d).
  { unfold d. rewrite <- (DecimalN.Unsigned.of_to n) at 2.
    now rewrite DecimalN.Unsigned.to_of. }
  assert (Hz : d <> Decimal.D0 Decimal.Nil).
  { intros E. pose proof (DecimalN.Unsigned.of_to n) as H. fold d in H.
    rewrite E in H. cbn in H. lia. }
  assert (Hv : N.of_uint (snoc0 d) = (10 * n)%N).
  { apply N2Z.inj. change (N.of_uint (snoc0 d)) with (Pos.of_uint (snoc0 d)).
    rewrite <- of_uint_value, uintChars_snoc0, digitsValue_app.
    cbn [fold_left]. change (uintChars d) with (decimal n). rewrite digitsValue_decimal.
    unfold digitVal. rewrite N2Z.inj_mul.
    change (Z.of_N 48) with 48. change (Z.of_N 10) with 10. lia. }
  rewrite <- Hv, DecimalN.Unsigned.to_of.
  destruct d; cbn [snoc0 Decimal.unorm]; try reflexivity.
  exfalso. apply Hz. f_equal. cbn [Decimal.unorm] in Hd.
    now apply unorm_zero_head in Hd.
Qed.

Lemma decimal_shift (s : Z) (j : nat) :
  0 < s -> decimal (Z.to_N (s * 10 ^ Z.of_nat j)) = decimal (Z.to_N s) ++ repeat 48%N j.
Proof.
  intros Hs. induction j as [|j IH].
  - cbn [repeat]. rewrite app_nil_r. change (10 ^ Z.of_nat 0) with 1. now rewrite Z.mul_1_r.
  - rewrite Nat2Z.inj_succ, Z.pow_succ_r by lia.
    assert (Hpos : 0 < s * 10 ^ Z.of_nat j).
    { apply Z.mul_pos_pos; [assumption | apply pow10_pos; lia]. }
    replace (Z.to_N (s * (10 * 10 ^ Z.of_nat j)))
      with (10 * Z.to_N (s * 10 ^ Z.of_nat j))%N by lia.
    rewrite decimal_times10 by lia. rewrite IH, <- app_assoc. f_equal.
    change [48%N] with (repeat 48%N 1). rewrite <- repeat_app.
    f_equal. lia.
Qed.

(** ** Number::toString on an ordinary integer *)

Lemma NumberToString_integer (p : positive) (neg : bool) :
  Zpos p < 10 ^ 15 ->
  NumberToString (round64 neg p 1) = (if neg then js "-" else []) ++ decimal (Npos p).
Proof.
  intros Hp.
  destruct (round64_integer_shape p) as (m & e & Hr & He & Hv); [lia|].
  rewrite (Hr neg). cbn [NumberToString]. f_equal.
  rewrite <- (Hr false).
  unfold numer, denomLog. destruct (Z.leb_spec 0 e); [|lia].
  change (2 ^ 0) with 1. rewrite Hv.
  destruct (magnitude10_int (Zpos p)) as (N & -> & HN); [lia|].
  destruct (shortest_int p N Hp HN 17 1) as (s & k & -> & Hk & Hs & Hsk).
  - assert (1 <= N); [|lia].
    destruct (Z.leb_spec 1 N); [assumption|exfalso].
    assert (10 ^ N <= 10 ^ 0) by (apply pow10_le; lia).
    change (10 ^ 0) with 1 in *. lia.
  - assert (N <= 15); [|lia].
    destruct (Z.leb_spec N 15); [assumption|exfalso].
    assert (10 ^ 15 <= 10 ^ (N - 1)) by (apply pow10_le; lia). lia.
  - assert (HN15 : N <= 15).
    { destruct (Z.leb_spec N 15); [assumption|exfalso].
      assert (10 ^ 15 <= 10 ^ (N - 1)) by (apply pow10_le; lia). lia. }
    cbv zeta.
    destruct (Z.leb_spec k N); [|lia]. destruct (Z.leb_spec N 21); [|lia].
    cbn [andb]. unfold zeros.
    rewrite <- decimal_shift by assumption.
    rewrite Z2Nat.id by lia. rewrite Hsk. reflexivity.
Qed.

(** String(z) for an integer of at most fifteen digits is its decimal numeral. *)
Lemma NumberToString_ofZ (z : Z) :
  Z.abs z < 10 ^ 15 -> NumberToString (ofZ z) = decimalZ z.
Proof.
  intros Hz. destruct z as [|p|p]; cbn [ofZ decimalZ].
  - reflexivity.
  - rewrite NumberToString_integer by lia. reflexivity.
  - rewrite NumberToString_integer by lia. reflexivity.
Qed.

(** * Reading a numeral back *)


Lemma span_digits (ds rest : jsstring) :
  forallb isDigit ds = true -> endsNumber rest = true ->
  span isDigit (ds ++ rest) = (ds, rest).
Proof.
  intros Hd Hr. induction ds as [|c ds IH].
  - cbn [app]. destruct rest as [|c r]; [reflexivity|].
    cbn [span]. cbn [endsNumber] in Hr.
    destruct (isDigit c); [discriminate | reflexivity].
  - cbn [forallb] in Hd. apply andb_true_iff in Hd as [Hc Hd].
    cbn [app span]. rewrite Hc, (IH Hd). reflexivity.
Qed.

(** The numeral of a positive number does not begin with 0. *)
Lemma decimal_head (n : N) :
  (0 < n)%N -> exists c r, decimal n = c :: r /\ isDigit c = true /\ N.eqb c 48 = false.
Proof.
  intros Hn. unfold decimal.
  assert (Hd : Decimal.unorm (N.to_uint n) = N.to_uint n).
  { rewrite <- (DecimalN.Unsigned.of_to n) at 2. now rewrite DecimalN.Unsigned.to_of. }
  assert (Hz : N.to_uint n <> Decimal.D0 Decimal.Nil).
  { intros E. pose proof (DecimalN.Unsigned.of_to n) as H. rewrite E in H. cbn in H. lia. }
  destruct (N.to_uint n) as [|u|u|u|u|u|u|u|u|u|u]; cbn [uintChars];
    try (eexists _, _; repeat split; reflexivity).
  - cbn in Hd. discriminate.
  - exfalso. apply Hz. f_equal. cbn [Decimal.unorm] in Hd. now apply unorm_zero_head in Hd.
Qed.

Lemma parseNumber_numeral (neg : bool) (n : N) (rest : jsstring) :
  endsNumber rest = true ->
  parseNumber ((if neg then [ch "-"] else []) ++ decimal n ++ rest)
  = Some (ofMagnitude neg (Z.of_N n) 1, rest).
Proof.
  intros Hr.
  assert (Hv : digitsValue (decimal n ++ []) * 10 ^ 0 = Z.of_N n).
  { rewrite app_nil_r, digitsValue_decimal. change (10 ^ 0) with 1. lia. }
  assert (Hspan : span isDigit (decimal n ++ rest) = (decimal n, rest))
    by (apply span_digits; [apply uintChars_digits | assumption]).
  assert (Hhead : forall c r, decimal n = c :: r ->
                              isDigit c = true /\ (N.eqb c 48 = true -> r = [])).
  { intros c r E. destruct n as [|p].
    - injection E as <- <-. split; reflexivity.
    - destruct (decimal_head (Npos p)) as (c' & r' & E' & Hc & H0); [lia|].
      rewrite E in E'. injection E' as <- <-. split; [assumption | congruence]. }
  destruct (decimal n) as [|c r] eqn:E; [now apply decimal_not_empty in E|].
  destruct (Hhead c r eq_refl) as [Hc H0].
  assert (Hm : N.eqb c (ch "-") = false).
  { destruct (N.eqb_spec c (ch "-")) as [->|]; [discriminate | reflexivity]. }
  assert (Hv1 : r = [] -> digitsValue [c] * 10 ^ 0 = Z.of_N n)
    by (intros Hnil; now rewrite Hnil in Hv).
  assert (Cases : rest = []
                  \/ exists x rest', rest = x :: rest' /\ N.eqb x (ch ".") = false
                                     /\ N.eqb x (ch "e") || N.eqb x (ch "E") = false).
  { destruct rest as [|x rest']; [now left | right].
    exists x, rest'. cbn [endsNumber] in Hr. apply negb_true_iff in Hr.
    apply orb_false_iff in Hr as [Hr HE]. apply orb_false_iff in Hr as [Hr He].
    apply orb_false_iff in Hr as [Hd Hp]. rewrite Hp, He, HE. repeat split. }
  unfold parseNumber.
  destruct neg; cbn [app].
  - change (N.eqb (ch "-") (ch "-")) with true. cbv iota.
    destruct (N.eqb c (ch "0")) eqn:E0.
    + rewrite (H0 E0). cbn [app]. specialize (Hv1 (H0 E0)).
      destruct Cases as [->|(x & rest' & -> & Hp & He)].
      * cbn [length Z.of_nat]. change (0 - 0) with 0. change (0 <=? 0) with true.
        cbv iota. now rewrite Hv1.
      * rewrite Hp, He. cbn [length Z.of_nat]. change (0 - 0) with 0.
        change (0 <=? 0) with true. cbv iota. now rewrite Hv1.
    + change (c :: r ++ rest) with ((c :: r) ++ rest). rewrite Hspan.
      destruct Cases as [->|(x & rest' & -> & Hp & He)].
      * cbn [length Z.of_nat]. change (0 - 0) with 0. change (0 <=? 0) with true.
        cbv iota. now rewrite Hv.
      * rewrite Hp, He. cbn [length Z.of_nat]. change (0 - 0) with 0.
        change (0 <=? 0) with true. cbv iota. now rewrite Hv.
  - rewrite Hm.
    destruct (N.eqb c (ch "0")) eqn:E0.
    + rewrite (H0 E0). cbn [app]. specialize (Hv1 (H0 E0)).
      destruct Cases as [->|(x & rest' & -> & Hp & He)].
      * cbn [length Z.of_nat]. change (0 - 0) with 0. change (0 <=? 0) with true.
        cbv iota. now rewrite Hv1.
      * rewrite Hp, He. cbn [length Z.of_nat]. change (0 - 0) with 0.
        change (0 <=? 0) with true. cbv iota. now rewrite Hv1.
    + change (c :: r ++ rest) with ((c :: r) ++ rest). rewrite Hspan.
      destruct Cases as [->|(x & rest' & -> & Hp & He)].
      * cbn [length Z.of_nat]. change (0 - 0) with 0. change (0 <=? 0) with true.
        cbv iota. now rewrite Hv.
      * rewrite Hp, He. cbn [length Z.of_nat]. change (0 - 0) with 0.
        change (0 <=? 0) with true. cbv iota. now rewrite Hv.
Qed.

Lemma parseNumber_decimalZ (z : Z) (rest : jsstring) :
  endsNumber rest = true -> parseNumber (decimalZ z ++ rest) = Some (ofZ z, rest).
Proof.
  intros Hr. destruct z as [|p|p]; cbn [decimalZ].
  - apply (parseNumber_numeral false 0 rest Hr).
  - apply (parseNumber_numeral false (Npos p) rest Hr).
  - apply (parseNumber_numeral true (Npos p) rest Hr).
Qed.

(** * Reading a quoted string back *)

Lemma hexDigit_spec (d : Z) :
  0 <= d < 16 -> isHexDigit (hexDigit d) = true /\ hexVal (hexDigit d) = d.
Proof.
  intros H.
  assert (C : d = 0 \/ d = 1 \/ d = 2 \/ d = 3 \/ d = 4 \/ d = 5 \/ d = 6 \/ d = 7 \/ d = 8
              \/ d = 9 \/ d = 10 \/ d = 11 \/ d = 12 \/ d = 13 \/ d = 14 \/ d = 15) by lia.
  repeat (destruct C as [->|C]; [split; reflexivity|]). subst d. split; reflexivity.
Qed.

Lemma parseChars_unicode (c : N) (r acc : jsstring) :
  (c < 65536)%N -> parseChars (unicodeEscape c ++ r) acc = parseChars r (c :: acc).
Proof.
  intros Hc. unfold unicodeEscape. cbv zeta.
  set (z := Z.of_N c).
  assert (Hz : 0 <= z < 65536) by lia.
  assert (B1 : 0 <= z / 4096 mod 16 < 16) by (apply Z.mod_pos_bound; lia).
  assert (B2 : 0 <= z / 256 mod 16 < 16) by (apply Z.mod_pos_bound; lia).
  assert (B3 : 0 <= z / 16 mod 16 < 16) by (apply Z.mod_pos_bound; lia).
  assert (B4 : 0 <= z mod 16 < 16) by (apply Z.mod_pos_bound; lia).
  destruct (hexDigit_spec _ B1) as [D1 V1]. destruct (hexDigit_spec _ B2) as [D2 V2].
  destruct (hexDigit_spec _ B3) as [D3 V3]. destruct (hexDigit_spec _ B4) as [D4 V4].
  change (js "\u") with [92%N; 117%N]. cbn [app].
  change (parseChars (92%N :: 117%N :: ?a :: ?b :: ?c' :: ?d :: r) acc)
    with (if forallb isHexDigit [a; b; c'; d]
          then parseChars r (Z.to_N (radixValue 16 [a; b; c'; d]) :: acc) else None).
  cbn [forallb]. rewrite D1, D2, D3, D4. cbn [andb].
  unfold radixValue. cbn [fold_left]. rewrite V1, V2, V3, V4.
  do 2 f_equal.
  assert (16 * (16 * (16 * (16 * 0 + z / 4096 mod 16) + z / 256 mod 16) + z / 16 mod 16)
          + z mod 16 = z); [|lia].
  Z.to_euclidean_division_equations. lia.
Qed.

Lemma parseChars_plain (c : N) (r acc : jsstring) :
  N.eqb c 34 = false -> N.ltb c 32 = false -> N.eqb c 92 = false ->
  parseChars (c :: r) acc = parseChars r (c :: acc).
Proof.
  intros H1 H2 H3. cbn [parseChars]. change (ch "\") with 92%N. now rewrite H1, H2, H3.
Qed.

Lemma parseChars_quoteChars (s : jsstring) :
  forall (paired : bool) (rest acc : jsstring),
    parseChars (quoteChars s paired ++ 34%N :: rest) acc = Some (rev acc ++ s, rest).
Proof.
  induction s as [|c s IH]; intros paired rest acc.
  - cbn [quoteChars app parseChars]. change (N.eqb 34 34) with true. cbv iota.
    now rewrite app_nil_r.
  - assert (Step : forall u, rev (u :: acc) ++ s = rev acc ++ u :: s)
      by (intros u; cbn [rev]; now rewrite <- app_assoc).
    cbn [quoteChars]. cbv zeta.
    destruct (N.eqb_spec c 8) as [->|N8].
    { change (js "\b") with [92%N; 98%N]. cbn [app].
      change (parseChars (92%N :: 98%N :: ?r) acc) with (parseChars r (8%N :: acc)).
      rewrite IH. now rewrite Step. }
    destruct (N.eqb_spec c 9) as [->|N9].
    { change (js "\t") with [92%N; 116%N]. cbn [app].
      change (parseChars (92%N :: 116%N :: ?r) acc) with (parseChars r (9%N :: acc)).
      rewrite IH. now rewrite Step. }
    destruct (N.eqb_spec c 10) as [->|N10].
    { change (js "\n") with [92%N; 110%N]. cbn [app].
      change (parseChars (92%N :: 110%N :: ?r) acc) with (parseChars r (10%N :: acc)).
      rewrite IH. now rewrite Step. }
    destruct (N.eqb_spec c 12) as [->|N12].
    { change (js "\f") with [92%N; 102%N]. cbn [app].
      change (parseChars (92%N :: 102%N :: ?r) acc) with (parseChars r (12%N :: acc)).
      rewrite IH. now rewrite Step. }
    destruct (N.eqb_spec c 13) as [->|N13].
    { change (js "\r") with [92%N; 114%N]. cbn [app].
      change (parseChars (92%N :: 114%N :: ?r) acc) with (parseChars r (13%N :: acc)).
      rewrite IH. now rewrite Step. }
    destruct (N.eqb_spec c 34) as [->|N34].
    { cbn [app].
      change (parseChars (92%N :: 34%N :: ?r) acc) with (parseChars r (34%N :: acc)).
      rewrite IH. now rewrite Step. }
    destruct (N.eqb_spec c 92) as [->|N92].
    { cbn [app].
      change (parseChars (92%N :: 92%N :: ?r) acc) with (parseChars r (92%N :: acc)).
      rewrite IH. now rewrite Step. }
    assert (P : forall q, parseChars (c :: quoteChars s q ++ 34%N :: rest) acc
                          = Some (rev acc ++ c :: s, rest) \/ (c < 32)%N).
    { intros q. destruct (N.ltb_spec c 32) as [|H32]; [now right | left].
      rewrite parseChars_plain; [now rewrite IH, Step | | |].
      - now apply N.eqb_neq. - apply N.ltb_ge. assumption. - now apply N.eqb_neq. }
    assert (U : forall q, (c < 65536)%N ->
                          parseChars ((unicodeEscape c ++ quoteChars s q) ++ 34%N :: rest) acc
                          = Some (rev acc ++ c :: s, rest)).
    { intros q Hc. rewrite <- app_assoc, parseChars_unicode by assumption.
      now rewrite IH, Step. }
    destruct (N.ltb_spec c 32) as [H32|H32]; [apply U; lia|].
    assert (P' : forall q, parseChars ((c :: quoteChars s q) ++ 34%N :: rest) acc
                           = Some (rev acc ++ c :: s, rest)).
    { intros q. destruct (P q) as [H|H]; [exact H | lia]. }
    unfold isHighSurrogate, isLowSurrogate.
    destruct (N.leb_spec 55296 c); cbn [andb].
    + destruct (N.leb_spec c 56319); cbn [andb].
      * destruct s as [|d s']; [apply U; lia|].
        destruct (N.leb 56320 d && N.leb d 57343); [apply P' | apply U; lia].
      * destruct (N.leb_spec 56320 c); cbn [andb]; [|apply P'].
        destruct (N.leb_spec c 57343); cbn [andb]; [|apply P'].
        destruct paired; [apply P' | apply U; lia].
    + destruct (N.leb_spec 56320 c); cbn [andb]; [lia | apply P'].
Qed.

(** * JSON.parse reads back what JSON.stringify wrote *)

Lemma isOrdinary_spec (x : Number) :
  isOrdinary x = true -> exists z, x = ofZ z /\ Z.abs z < 10 ^ 15.
Proof.
  unfold isOrdinary. destruct (truncate x) as [z|]; [|discriminate].
  intros H. apply andb_true_iff in H as [Hz Hx].
  apply Z.ltb_lt in Hz. apply Number_eqb_eq in Hx. now exists z.
Qed.

Lemma ofZ_finite (z : Z) : Z.abs z < 2 ^ 53 -> isFiniteNumber (ofZ z) = true.
Proof.
  intros Hz. destruct z as [|p|p]; [reflexivity| |];
    destruct (round64_integer_shape p Hz) as (m & e & E & _); cbn [ofZ]; now rewrite E.
Qed.

(** ** The shape of the text *)

Lemma text_string (s rest : jsstring) :
  JSON_stringify (JStr s) ++ rest = 34%N :: quoteChars s false ++ 34%N :: rest.
Proof. cbn [JSON_stringify]. unfold quote. cbn [app]. now rewrite <- app_assoc. Qed.

Lemma text_array (i : JSON) (items : list JSON) (rest : jsstring) :
  JSON_stringify (JArr (i :: items)) ++ rest
  = 91%N :: JSON_stringify i ++ tailText items ++ 93%N :: rest.
Proof.
  cbn [JSON_stringify map commaJoin]. change (js "[") with [91%N]. change (js "]") with [93%N].
  cbn [app]. unfold tailText. now rewrite <- !app_assoc.
Qed.

Lemma text_tail (j : JSON) (items : list JSON) (rest : jsstring) :
  tailText (j :: items) ++ rest = 44%N :: JSON_stringify j ++ tailText items ++ rest.
Proof.
  unfold tailText. cbn [map flat_map]. change (ch ",") with 44%N. cbn [app].
  now rewrite <- !app_assoc.
Qed.

Lemma text_member (k : jsstring) (v : JSON) (rest : jsstring) :
  memberText (k, v) ++ rest
  = 34%N :: quoteChars k false ++ 34%N :: 58%N :: JSON_stringify v ++ rest.
Proof.
  unfold memberText, quote. cbn [fst snd]. change (js ":") with [58%N].
  cbn [app]. rewrite <- !app_assoc. reflexivity.
Qed.

Lemma text_object (kv : jsstring * JSON) (fields : list (jsstring * JSON)) (rest : jsstring) :
  JSON_stringify (JObj (kv :: fields)) ++ rest
  = 123%N :: memberText kv ++ membersTail fields ++ 125%N :: rest.
Proof.
  cbn [JSON_stringify map commaJoin]. change (js "{") with [123%N].
  change (js "}") with [125%N]. cbn [app]. unfold membersTail, memberText.
  now rewrite <- !app_assoc.
Qed.

Lemma text_members_tail (kv : jsstring * JSON) (fields : list (jsstring * JSON))
      (rest : jsstring) :
  membersTail (kv :: fields) ++ rest = 44%N :: memberText kv ++ membersTail fields ++ rest.
Proof.
  unfold membersTail. cbn [map flat_map]. change (ch ",") with 44%N. cbn [app].
  now rewrite <- !app_assoc.
Qed.

(** ** One step of the parser on each kind of text *)

Section Steps.
Variable elements : jsstring -> list JSON -> ParseResult.
Variable members : jsstring -> list (jsstring * JSON) -> ParseResult.
Variable value : jsstring -> ParseResult.

Lemma valueStep_literals (rest : jsstring) :
  valueStep elements members (js "null" ++ rest) = Some (JNull, rest)
  /\ valueStep elements members (js "true" ++ rest) = Some (JBool true, rest)
  /\ valueStep elements members (js "false" ++ rest) = Some (JBool false, rest).
Proof. repeat split. Qed.

Lemma valueStep_string (s rest : jsstring) :
  valueStep elements members (34%N :: quoteChars s false ++ 34%N :: rest) = Some (JStr s, rest).
Proof.
  change (valueStep elements members (34%N :: ?r))
    with (match parseChars r [] with
          | Some (str, r') => Some (JStr str, r')
          | None => None
          end).
  now rewrite parseChars_quoteChars.
Qed.

Lemma valueStep_number (z : Z) (rest : jsstring) :
  endsNumber rest = true ->
  valueStep elements members (decimalZ z ++ rest) = Some (JNum (ofZ z), rest).
Proof.
  intros Hr.
  assert (Hn : forall c r, isDigit c = true \/ c = 45%N ->
                           valueStep elements members (c :: r)
                           = match parseNumber (c :: r) with
                             | Some (x, r') => Some (JNum x, r')
                             | None => None
                             end).
  { intros c r [Hc| ->]; [|reflexivity].
    unfold valueStep. cbn [skipWs].
    assert (Ne : forall k, isDigit k = false -> N.eqb c k = false).
    { intros k Hk. destruct (N.eqb_spec c k) as [->|]; [congruence | reflexivity]. }
    unfold isJsonWs. rewrite (Ne 32%N), (Ne 9%N), (Ne 10%N), (Ne 13%N) by reflexivity.
    cbn [orb].
    rewrite (Ne (ch "{")), (Ne (ch "[")), (Ne 34%N), (Ne (ch "t")), (Ne (ch "f")),
      (Ne (ch "n")) by reflexivity.
    reflexivity. }
  assert (Hh : exists c r, decimalZ z = c :: r /\ (isDigit c = true \/ c = 45%N)).
  { destruct z as [|p|p]; cbn [decimalZ].
    - exists 48%N, []. split; [reflexivity | now left].
    - destruct (decimal (Z.to_N (Zpos p))) as [|c r] eqn:E; [now apply decimal_not_empty in E|].
      exists c, r. split; [reflexivity | left].
      pose proof (uintChars_digits (N.to_uint (Z.to_N (Zpos p)))) as Hd.
      fold (decimal (Z.to_N (Zpos p))) in Hd. rewrite E in Hd. cbn [forallb] in Hd.
      now apply andb_true_iff in Hd as [Hc _].
    - eexists _, _. split; [reflexivity | now right]. }
  destruct Hh as (c & r & E & Hc).
  pose proof (parseNumber_decimalZ z rest Hr) as Hp.
  rewrite E in *. cbn [app] in *. rewrite (Hn c (r ++ rest) Hc), Hp. reflexivity.
Qed.

Lemma valueStep_empty (rest : jsstring) :
  valueStep elements members (91%N :: 93%N :: rest) = Some (JArr [], rest)
  /\ valueStep elements members (123%N :: 125%N :: rest) = Some (JObj [], rest).
Proof. split; reflexivity. Qed.

Lemma valueStep_array (d : N) (r : jsstring) :
  isJsonWs d = false -> N.eqb d 93 = false ->
  valueStep elements members (91%N :: d :: r) = elements (d :: r) [].
Proof.
  intros Hw Hd.
  change (valueStep elements members (91%N :: d :: r))
    with (match skipWs (d :: r) with
          | d' :: r' => if N.eqb d' (ch "]") then Some (JArr [], r') else elements (d' :: r') []
          | [] => None
          end).
  cbn [skipWs]. rewrite Hw. change (ch "]") with 93%N. now rewrite Hd.
Qed.

Lemma valueStep_object (r : jsstring) :
  valueStep elements members (123%N :: 34%N :: r) = members (34%N :: r) [].
Proof. reflexivity. Qed.

Lemma elementsStep_next (s : jsstring) (acc : list JSON) (v : JSON) (r : jsstring) :
  value s = Some (v, 44%N :: r) ->
  elementsStep value elements s acc = elements r (v :: acc).
Proof. intros H. unfold elementsStep. rewrite H. reflexivity. Qed.

Lemma elementsStep_last (s : jsstring) (acc : list JSON) (v : JSON) (r : jsstring) :
  value s = Some (v, 93%N :: r) ->
  elementsStep value elements s acc = Some (JArr (rev (v :: acc)), r).
Proof. intros H. unfold elementsStep. rewrite H. reflexivity. Qed.

Lemma membersStep_key (k : jsstring) (r : jsstring) (acc : list (jsstring * JSON)) :
  membersStep value members (34%N :: quoteChars k false ++ 34%N :: 58%N :: r) acc
  = match value r with
    | Some (v, r3) =>
        match skipWs r3 with
        | d :: r4 =>
            if N.eqb d (ch ",") then members r4 (setProp k v acc)
            else if N.eqb d (ch "}") then Some (JObj (setProp k v acc), r4)
            else None
        | [] => None
        end
    | None => None
    end.
Proof.
  unfold membersStep. cbn [skipWs]. change (isJsonWs 34) with false. cbv iota.
  change (negb (N.eqb 34 34)) with false. cbv iota.
  rewrite parseChars_quoteChars. cbn [rev app skipWs].
  change (isJsonWs 58) with false. cbv iota.
  change (negb (N.eqb 58 (ch ":"))) with false. cbv iota. reflexivity.
Qed.

Lemma membersStep_next (k r : jsstring) (acc : list (jsstring * JSON)) (v : JSON)
      (r4 : jsstring) :
  value r = Some (v, 44%N :: r4) ->
  membersStep value members (34%N :: quoteChars k false ++ 34%N :: 58%N :: r) acc
  = members r4 (setProp k v acc).
Proof. intros H. rewrite membersStep_key, H. reflexivity. Qed.

Lemma membersStep_last (k r : jsstring) (acc : list (jsstring * JSON)) (v : JSON)
      (r4 : jsstring) :
  value r = Some (v, 125%N :: r4) ->
  membersStep value members (34%N :: quoteChars k false ++ 34%N :: 58%N :: r) acc
  = Some (JObj (setProp k v acc), r4).
Proof. intros H. rewrite membersStep_key, H. reflexivity. Qed.

End Steps.

Lemma getProp_fresh (k : jsstring) (acc : list (jsstring * JSON)) :
  existsb (str_eqb k) (map fst acc) = false -> getProp k acc = None.
Proof.
  induction acc as [|[k' v'] acc IH]; [reflexivity|].
  cbn [map fst existsb getProp]. intros H. apply orb_false_iff in H as [H1 H2].
  rewrite H1. now apply IH.
Qed.

(** Behind a key that is no index there is no index. *)
Lemma keysInOrder_names (k : jsstring) (before after : list jsstring) :
  keysInOrder None (before ++ k :: after) = true -> arrayIndex k = None.
Proof.
  induction before as [|a before IH]; cbn [app keysInOrder].
  - destruct (arrayIndex k); [discriminate | reflexivity].
  - destruct (arrayIndex a); [discriminate | exact IH].
Qed.

(** An index is above the indices before it. *)
Lemma keysInOrder_low (k : jsstring) (n : Z) (after : list jsstring) :
  arrayIndex k = Some n ->
  forall before l, keysInOrder (Some l) (before ++ k :: after) = true -> l < n.
Proof.
  intros Hk. induction before as [|a before IH]; intros l; cbn [app keysInOrder].
  - rewrite Hk. intros H. apply andb_true_iff in H as [H _]. now apply Z.ltb_lt in H.
  - destruct (arrayIndex a) as [m|].
    + intros H. apply andb_true_iff in H as [H1 H2].
      apply Z.ltb_lt in H1. specialize (IH m H2). lia.
    + intros H. apply keysInOrder_names in H. congruence.
Qed.

Lemma insertIndex_last (k : jsstring) (n : Z) (v : JSON) (after : list jsstring) :
  arrayIndex k = Some n ->
  forall acc l, keysInOrder (Some l) (map fst acc ++ k :: after) = true ->
                insertIndex n k v acc = acc ++ [(k, v)].
Proof.
  intros Hk. induction acc as [|[k' v'] acc IH]; intros l H; [reflexivity|].
  cbn [map fst app keysInOrder] in H. cbn [insertIndex app].
  destruct (arrayIndex k') as [m|].
  - apply andb_true_iff in H as [_ H].
    pose proof (keysInOrder_low k n after Hk _ _ H) as Hm.
    apply Z.ltb_lt in Hm. rewrite Hm. f_equal. exact (IH m H).
  - apply keysInOrder_names in H. congruence.
Qed.

(** A key that is new and in its place goes to the end. *)
Lemma setProp_fresh (k : jsstring) (v : JSON) (acc : list (jsstring * JSON))
      (after : list jsstring) :
  existsb (str_eqb k) (map fst acc) = false ->
  keysInOrder (Some (-1)) (map fst acc ++ k :: after) = true ->
  setProp k v acc = acc ++ [(k, v)].
Proof.
  intros Hf Ho. unfold setProp. rewrite (getProp_fresh k acc Hf).
  destruct (arrayIndex k) as [n|] eqn:Hk; [|reflexivity].
  exact (insertIndex_last k n v after Hk acc _ Ho).
Qed.

Lemma distinct_fresh (before after : list jsstring) (k : jsstring) :
  distinct (before ++ k :: after) = true -> existsb (str_eqb k) before = false.
Proof.
  induction before as [|a before IH]; [reflexivity|].
  cbn [app distinct existsb]. intros H. apply andb_true_iff in H as [Ha Hd].
  rewrite (IH Hd), orb_false_r.
  apply negb_true_iff in Ha. rewrite existsb_app in Ha. apply orb_false_iff in Ha as [_ Ha].
  cbn [existsb] in Ha. apply orb_false_iff in Ha as [Ha _].
  apply str_eqb_neq in Ha. apply str_eqb_neq. congruence.
Qed.

(** The first code unit of the text of a value. *)
Lemma text_head (v : JSON) :
  plain v = true ->
  exists c r, JSON_stringify v = c :: r /\ isJsonWs c = false /\ N.eqb c 93 = false.
Proof.
  destruct v as [|b|x|s|items|fields]; intros Hp.
  - eexists _, _. repeat split.
  - destruct b; eexists _, _; repeat split.
  - cbn [plain] in Hp. apply isOrdinary_spec in Hp as (z & -> & Hz).
    cbn [JSON_stringify]. rewrite ofZ_finite, NumberToString_ofZ by lia.
    destruct z as [|p|p]; cbn [decimalZ].
    + eexists _, _. repeat split.
    + destruct (decimal (Z.to_N (Zpos p))) as [|c r] eqn:E; [now apply decimal_not_empty in E|].
      exists c, r. split; [reflexivity|].
      pose proof (uintChars_digits (N.to_uint (Z.to_N (Zpos p)))) as Hd.
      fold (decimal (Z.to_N (Zpos p))) in Hd. rewrite E in Hd. cbn [forallb] in Hd.
      apply andb_true_iff in Hd as [Hc _].
      assert (Ne : forall k, isDigit k = false -> N.eqb c k = false).
      { intros k Hk. destruct (N.eqb_spec c k) as [->|]; [congruence | reflexivity]. }
      unfold isJsonWs.
      rewrite (Ne 32%N), (Ne 9%N), (Ne 10%N), (Ne 13%N), (Ne 93%N) by reflexivity.
      split; reflexivity.
    + eexists _, _. repeat split.
  - eexists _, _. repeat split.
  - eexists _, _. repeat split.
  - eexists _, _. repeat split.
Qed.

Lemma endsValue_number (rest : jsstring) : endsValue rest = true -> endsNumber rest = true.
Proof.
  destruct rest as [|c r]; [reflexivity|]. cbn [endsValue endsNumber]. intros H.
  apply orb_true_iff in H as [H|H]; [apply orb_true_iff in H as [H|H]|];
    apply N.eqb_eq in H; subst c; reflexivity.
Qed.

(** With fuel for its levels, the parser reads the text of a plain value,
    and of the elements and the members that follow, and stops behind it. *)
Lemma parse_stringify (fuel : nat) :
  (forall v rest, plain v = true -> (weight v <= fuel)%nat -> endsValue rest = true ->
                  parseValue fuel (JSON_stringify v ++ rest) = Some (v, rest))
  /\ (forall i items acc rest,
         plain i = true -> forallb plain items = true ->
         (S (weight i + welems items) <= fuel)%nat -> endsValue rest = true ->
         parseElements fuel (JSON_stringify i ++ tailText items ++ 93%N :: rest) acc
         = Some (JArr (rev acc ++ i :: items), rest))
  /\ (forall kv fields acc rest,
         plain (snd kv) = true -> forallb (fun kv => plain (snd kv)) fields = true ->
         distinct (map fst acc ++ fst kv :: map fst fields) = true ->
         keysInOrder (Some (-1)) (map fst acc ++ fst kv :: map fst fields) = true ->
         (S (weight (snd kv) + wmembers fields) <= fuel)%nat -> endsValue rest = true ->
         parseMembers fuel (memberText kv ++ membersTail fields ++ 125%N :: rest) acc
         = Some (JObj (acc ++ kv :: fields), rest)).
Proof.
  induction fuel as [|fuel (IHv & IHe & IHm)].
  { repeat split.
    - intros v rest _ Hw. destruct v; cbn [weight] in Hw; lia.
    - intros; lia.
    - intros; lia. }
  repeat split.
  - intros v rest Hp Hw Hr. cbn [parseValue].
    destruct v as [|b|x|s|items|fields].
    + apply valueStep_literals.
    + destruct b; apply valueStep_literals.
    + cbn [plain] in Hp. apply isOrdinary_spec in Hp as (z & -> & Hz).
      cbn [JSON_stringify]. rewrite ofZ_finite, NumberToString_ofZ by lia.
      apply valueStep_number. now apply endsValue_number.
    + rewrite text_string. apply valueStep_string.
    + destruct items as [|i items]; [apply valueStep_empty|].
      rewrite text_array. cbn [plain forallb] in Hp. apply andb_true_iff in Hp as [Hi Hs].
      destruct (text_head i Hi) as (c & r & E & Hc & Hb).
      rewrite E. cbn [app]. rewrite valueStep_array by assumption.
      change (c :: r ++ tailText items ++ 93%N :: rest)
        with ((c :: r) ++ tailText items ++ 93%N :: rest).
      rewrite <- E.
      rewrite IHe; [reflexivity | assumption | assumption | | assumption].
      cbn [weight fold_right] in Hw. unfold welems. lia.
    + destruct fields as [|kv fields]; [apply valueStep_empty|].
      rewrite text_object. cbn [plain forallb map] in Hp.
      apply andb_true_iff in Hp as [Hp Hd]. apply andb_true_iff in Hp as [Hk Hs].
      apply andb_true_iff in Hd as [Hd Ho].
      destruct kv as [k v]. rewrite text_member. rewrite valueStep_object.
      rewrite <- text_member.
      rewrite IHm; [reflexivity | assumption | assumption | exact Hd | exact Ho | | assumption].
      cbn [weight fold_right snd] in Hw. unfold wmembers. cbn [snd]. lia.
  - intros i items acc rest Hi Hs Hw Hr. cbn [parseElements].
    destruct items as [|j items].
    + cbn [tailText flat_map map app].
      rewrite (elementsStep_last _ _ _ _ i rest).
      * reflexivity.
      * apply IHv; [assumption | cbn [welems fold_right] in Hw; lia | reflexivity].
    + rewrite text_tail. cbn [forallb] in Hs. apply andb_true_iff in Hs as [Hj Hs].
      cbn [welems fold_right] in Hw. fold (welems items) in Hw.
      rewrite (elementsStep_next _ _ _ _ i (JSON_stringify j ++ tailText items ++ 93%N :: rest)).
      * rewrite IHe; [|assumption|assumption|lia|assumption].
        cbn [rev]. now rewrite <- app_assoc.
      * apply IHv; [assumption | lia | reflexivity].
  - intros [k v] fields acc rest Hv Hs Hd Ho Hw Hr. cbn [parseMembers fst snd] in *.
    pose proof (distinct_fresh _ _ _ Hd) as Hfresh.
    pose proof (setProp_fresh k v acc _ Hfresh Ho) as Hset.
    rewrite text_member.
    destruct fields as [|kv' fields].
    + cbn [membersTail flat_map map app].
      rewrite (membersStep_last _ _ _ _ _ v rest).
      * now rewrite Hset.
      * apply IHv; [assumption | cbn [wmembers fold_right] in Hw; lia | reflexivity].
    + rewrite text_members_tail. cbn [forallb] in Hs. apply andb_true_iff in Hs as [Hv' Hs].
      cbn [wmembers fold_right] in Hw. fold (wmembers fields) in Hw.
      rewrite (membersStep_next _ _ _ _ _ v (memberText kv' ++ membersTail fields ++ 125%N :: rest)).
      * rewrite Hset.
        rewrite IHm; [|assumption|assumption| | |lia|assumption].
        -- now rewrite <- app_assoc.
        -- rewrite map_app, <- app_assoc. exact Hd.
        -- rewrite map_app, <- app_assoc. exact Ho.
      * apply IHv; [assumption | lia | reflexivity].
Qed.

(** JSON.parse(JSON.stringify(v)) is [v] for a plain value. *)
Lemma JSON_round_trip (v : JSON) :
  plain v = true -> JSON_parse (JSON_stringify v) = Some v.
Proof.
  intros Hp. unfold JSON_parse.
  rewrite <- (parse_fuel_enough _ (weight v)).
  destruct (parse_stringify (2 * length (JSON_stringify v) + 2 + weight v)) as (Hv & _).
  specialize (Hv v [] Hp ltac:(lia) eq_refl). rewrite app_nil_r in Hv.
  rewrite Hv. reflexivity.
Qed.

(** * The ledger in the store *)

Lemma isOrdinary_ofZ (z : Z) : Z.abs z < 10 ^ 15 -> isOrdinary (ofZ z) = true.
Proof.
  intros Hz. unfold isOrdinary. rewrite truncate_ofZ by lia.
  destruct (Z.ltb_spec (Z.abs z) (10 ^ 15)); [|lia]. apply Number_eqb_refl.
Qed.

Lemma Meal_ofJSON_toJSON (m : Meal.t) : Meal.ofJSON (Meal.toJSON m) = Some m.
Proof. destruct m as [i t d c p [u|]]; reflexivity. Qed.

Lemma mealsOfJSON_toJSON (ms : list Meal.t) : mealsOfJSON (mealsToJSON ms) = Some ms.
Proof.
  unfold mealsOfJSON, mealsToJSON.
  induction ms as [|m ms IH]; [reflexivity|].
  cbn [map traverse]. now rewrite Meal_ofJSON_toJSON, IH.
Qed.

Lemma plain_ledger (ms : list Meal.t) :
  forallb ordinaryMeal ms = true -> plain (mealsToJSON ms) = true.
Proof.
  unfold mealsToJSON. cbn [plain]. induction ms as [|m ms IH]; [reflexivity|].
  cbn [forallb map]. intros H. apply andb_true_iff in H as [Hm Hs].
  rewrite (IH Hs), andb_true_r.
  unfold ordinaryMeal in Hm. apply andb_true_iff in Hm as [Hm Hp].
  apply andb_true_iff in Hm as [Ht Hc].
  destruct m as [i t d c p [u|]]; cbn [Meal.ts Meal.calories Meal.protein_g] in *;
    unfold Meal.toJSON; cbn [Meal.id Meal.ts Meal.description Meal.calories Meal.protein_g
                               Meal.photoUri app plain forallb snd map fst];
    rewrite Ht, Hc, Hp; reflexivity.
Qed.

(** The text of a ledger with ordinary numbers is read back by the load
    effect, and it is never the empty text. *)
Lemma loadEffect_stringify (engine : Engine) (next : list Meal.t) :
  forallb ordinaryMeal next = true ->
  loadEffect engine (ReadItem (Some (JSON_stringify (mealsToJSON next))))
  = MealsSet (mealsToJSON next).
Proof.
  intros Ho. unfold loadEffect. rewrite JSON_round_trip by now apply plain_ledger.
  destruct (JSON_stringify (mealsToJSON next)) eqn:E; [|reflexivity].
  unfold mealsToJSON in E. cbn [JSON_stringify] in E. discriminate E.
Qed.

(** What [persist] wrote is what the load effect of the next start reads:
    with ordinary numbers in every meal, the effect sets the hook to the JSON
    of the very ledger that was persisted, and that JSON has the declared
    shape of the ledger.  The WeekScreen reads the key in the same way. *)
Theorem persisted_ledger_is_read_back (engine : Engine) (next : list Meal.t) (w : World) :
  forallb ordinaryMeal next = true ->
  exists raw,
    storage (persist true next w) STORAGE_KEY = Some raw
    /\ loadEffect engine (ReadItem (Some raw)) = MealsSet (mealsToJSON next)
    /\ mealsOfJSON (mealsToJSON next) = Some next.
Proof.
  intros Ho. exists (JSON_stringify (mealsToJSON next)).
  split; [|split].
  - unfold persist. cbn [storage]. unfold setItem. now rewrite str_eqb_refl.
  - now apply loadEffect_stringify.
  - apply mealsOfJSON_toJSON.
Qed.

Lemma persisted_ledger_is_read_back_witness :
  exists raw,
    storage (persist true [lunch; sundayMeal] (formOver [] [] [])) STORAGE_KEY = Some raw
    /\ loadEffect hermes (ReadItem (Some raw)) = MealsSet (mealsToJSON [lunch; sundayMeal])
    /\ mealsOfJSON (mealsToJSON [lunch; sundayMeal]) = Some [lunch; sundayMeal].
Proof.
  apply persisted_ledger_is_read_back. vm_compute. reflexivity.
Defined.

Lemma digitsValue_nonneg (s : jsstring) : forallb isDigit s = true -> 0 <= digitsValue s.
Proof.
  assert (G : forall s acc, forallb isDigit s = true -> 0 <= acc ->
                            0 <= fold_left (fun a c => 10 * a + digitVal c) s acc).
  { clear s. induction s as [|c s IH]; intros acc H Ha; [exact Ha|].
    cbn [forallb] in H. apply andb_true_iff in H as [Hc Hs]. cbn [fold_left].
    apply IH; [assumption|]. unfold isDigit in Hc. apply andb_true_iff in Hc as [H1 H2].
    apply N.leb_le in H1, H2. unfold digitVal. lia. }
  intros H. unfold digitsValue. apply G; [assumption | lia].
Qed.

(** A field of digits is read as the number it spells. *)
Lemma parseInt_digits (field : jsstring) :
  spec_nonNegativeInteger field = true ->
  parseInt (orText field (js "0")) = ofZ (digitsValue field).
Proof.
  intros H. destruct field as [|c r]; [reflexivity|].
  cbn [orText]. unfold parseInt.
  destruct (leadingDigits_numeral (c :: r) H) as [-> ->].
  pose proof (digitsValue_nonneg (c :: r) H) as Hn.
  destruct (digitsValue (c :: r)); [reflexivity | reflexivity | lia].
Qed.

(** A saved meal survives a restart: when the two fields are blank or made of
    digits, spell numbers below 10^15 and the store takes the write, the load
    effect of the next start reads the ledger of the screen, new meal
    included, provided the meals already there had ordinary numbers. *)
Theorem saved_ledger_is_read_back (engine : Engine) (env : SaveEnv) (w : World) :
  writeOk env = true ->
  spec_nonNegativeInteger (calText (screen w)) = true ->
  spec_nonNegativeInteger (protText (screen w)) = true ->
  digitsValue (calText (screen w)) < 10 ^ 15 ->
  digitsValue (protText (screen w)) < 10 ^ 15 ->
  Z.abs (nowForTs env) < 10 ^ 15 ->
  forallb ordinaryMeal (meals (screen w)) = true ->
  exists m raw,
    fst (saveMeal env w) = Saved m
    /\ Meal.calories m = ofZ (digitsValue (calText (screen w)))
    /\ Meal.protein_g m = ofZ (digitsValue (protText (screen w)))
    /\ meals (screen (snd (saveMeal env w))) = m :: meals (screen w)
    /\ storage (snd (saveMeal env w)) STORAGE_KEY = Some raw
    /\ loadEffect engine (ReadItem (Some raw)) = MealsSet (mealsToJSON (m :: meals (screen w)))
    /\ mealsOfJSON (mealsToJSON (m :: meals (screen w))) = Some (m :: meals (screen w)).
Proof.
  intros Hw Hc Hp Hcv Hpv Ht Hl.
  pose proof (digitsValue_nonneg _ Hc) as Hc0. pose proof (digitsValue_nonneg _ Hp) as Hp0.
  unfold saveMeal. rewrite (parseInt_digits _ Hc), (parseInt_digits _ Hp), Hw.
  assert (Nc : isNaN (ofZ (digitsValue (calText (screen w)))) = false)
    by (destruct (digitsValue (calText (screen w))); try reflexivity; apply round64_not_NaN).
  assert (Np : isNaN (ofZ (digitsValue (protText (screen w)))) = false)
    by (destruct (digitsValue (protText (screen w))); try reflexivity; apply round64_not_NaN).
  rewrite Nc, Np. cbn [orb fst snd].
  set (m := {| Meal.id := newId env; Meal.ts := ofZ (nowForTs env);
               Meal.description := orText (trim (desc (screen w))) (js "Meal");
               Meal.calories := ofZ (digitsValue (calText (screen w)));
               Meal.protein_g := ofZ (digitsValue (protText (screen w)));
               Meal.photoUri := photoUri (screen w) |}).
  assert (Ho : forallb ordinaryMeal (m :: meals (screen w)) = true).
  { cbn [forallb]. rewrite Hl, andb_true_r. unfold ordinaryMeal, m.
    cbn [Meal.ts Meal.calories Meal.protein_g].
    rewrite !isOrdinary_ofZ by lia. reflexivity. }
  exists m, (JSON_stringify (mealsToJSON (m :: meals (screen w)))).
  split; [reflexivity|]. split; [reflexivity|]. split; [reflexivity|].
  split; [reflexivity|]. split; [|split].
  - cbn [storage persist]. unfold setItem. now rewrite str_eqb_refl.
  - now apply loadEffect_stringify.
  - apply mealsOfJSON_toJSON.
Qed.

Lemma saved_ledger_is_read_back_witness :
  exists m raw,
    fst (saveMeal november (formOver [sundayMeal] (js "650") (js "40"))) = Saved m
    /\ Meal.calories m = ofZ (digitsValue (js "650"))
    /\ Meal.protein_g m = ofZ (digitsValue (js "40"))
    /\ meals (screen (snd (saveMeal november (formOver [sundayMeal] (js "650") (js "40")))))
       = m :: [sundayMeal]
    /\ storage (snd (saveMeal november (formOver [sundayMeal] (js "650") (js "40"))))
               STORAGE_KEY = Some raw
    /\ loadEffect hermes (ReadItem (Some raw)) = MealsSet (mealsToJSON (m :: [sundayMeal]))
    /\ mealsOfJSON (mealsToJSON (m :: [sundayMeal])) = Some (m :: [sundayMeal]).
Proof.
  apply (saved_ledger_is_read_back hermes november (formOver [sundayMeal] (js "650") (js "40")));
    vm_compute; reflexivity.
Defined.

(** * From the server to the form, and from the form to the ledger *)

Lemma roundedOrZero_ordinary (x : Number) :
  isOrdinary x = true -> roundedOrZero (Some (JNum x)) = Some x.
Proof.
  intros H. apply isOrdinary_spec in H as (z & -> & Hz).
  unfold roundedOrZero. cbn [ToNumber].
  destruct z as [|p|p]; [reflexivity| |];
    destruct (round64_integer_shape p) as (m & e & E & He & _); try lia;
    cbn [ofZ]; rewrite E; cbn [truthyNumber Math_round];
    destruct (Z.leb_spec 0 e); (reflexivity || lia).
Qed.

(** The answer 200 of POST /estimate, read by estimateFromPhoto: the body is
    the JSON of an object with a description and two numbers, and when the
    two numbers are ordinary the form shows that description ("Food" when it
    is empty) and the numerals of those numbers, with the error cleared and
    the rest of the draft as it was. *)
Theorem server_answer_fills_the_form (server client : Engine)
        (openai : list N -> Server.Upstream) (fs : Server.Files)
        (file : option Server.Upload) (s : Screen) :
  Server.status (Server.response (Server.estimate server openai fs file)) = 200 ->
  hasPhoto s = true ->
  exists d c p,
    Server.body (Server.response (Server.estimate server openai fs file))
    = JSON_stringify (JObj [(js "description", JStr d); (js "calories", JNum c);
                            (js "protein_g", JNum p)])
    /\ (isOrdinary c = true -> isOrdinary p = true ->
        estimateFromPhoto client
          (FetchResolves 200
             (BodyText (Server.body (Server.response (Server.estimate server openai fs file)))))
          s
        = Filled {| meals := meals s; showModal := showModal s;
                    desc := orText d (js "Food");
                    calText := NumberToString c; protText := NumberToString p;
                    photoUri := photoUri s; estimating := false;
                    estimateError := None |}).
Proof.
  intros H200 Hphoto.
  assert (Hr : exists d c p,
             Server.response (Server.estimate server openai fs file)
             = Server.json 200 (JObj [(js "description", JStr d); (js "calories", JNum c);
                                      (js "protein_g", JNum p)])).
  { revert H200. unfold Server.estimate, Server.tryEstimate.
    destruct file as [f|]; [|cbn; discriminate].
    destruct (Server.rawTextOf server openai fs f) as [e|raw]; [cbn; discriminate|].
    unfold Server.answerFrom.
    destruct (JSON_parse (Server.extractJson raw)) as [parsed|]; [|cbn; discriminate].
    destruct (getField parsed (js "description")) as [d|]; [|cbn; discriminate].
    destruct (getField parsed (js "calories")) as [c|]; [|cbn; discriminate].
    destruct (getField parsed (js "protein_g")) as [p|]; [|cbn; discriminate].
    destruct (Server.descriptionOf d) as [text|]; [|cbn; discriminate].
    destruct (roundedOrZero c) as [x|]; [|cbn; discriminate].
    destruct (roundedOrZero p) as [y|]; [|cbn; discriminate].
    intros _. cbn [Server.response]. eauto. }
  destruct Hr as (d & c & p & ->).
  exists d, c, p. split; [reflexivity|].
  intros Hc Hp. unfold estimateFromPhoto. rewrite Hphoto. cbn [negb].
  unfold tryEstimate. change (responseOk 200) with true. cbv iota.
  cbn [Server.json Server.body].
  rewrite JSON_round_trip by (cbn [plain forallb snd map fst]; now rewrite Hc, Hp).
  unfold normalize. cbn [getField].
  change (getProp (js "description") _) with (Some (JStr d)).
  change (getProp (js "calories") [(js "description", JStr d); (js "calories", JNum c);
                                   (js "protein_g", JNum p)]) with (Some (JNum c)).
  change (getProp (js "protein_g") [(js "description", JStr d); (js "calories", JNum c);
                                    (js "protein_g", JNum p)]) with (Some (JNum p)).
  rewrite !roundedOrZero_ordinary by assumption. cbv zeta.
  destruct d as [|x d]; reflexivity.
Qed.

Lemma server_answer_fills_the_form_witness :
  exists d c p,
    Server.body (Server.response (Server.estimate hermes soupModel uploads (Some upload)))
    = JSON_stringify (JObj [(js "description", JStr d); (js "calories", JNum c);
                            (js "protein_g", JNum p)])
    /\ (isOrdinary c = true -> isOrdinary p = true ->
        estimateFromPhoto hermes
          (FetchResolves 200
             (BodyText (Server.body (Server.response
                                       (Server.estimate hermes soupModel uploads (Some upload))))))
          photoDraft
        = Filled {| meals := meals photoDraft; showModal := showModal photoDraft;
                    desc := orText d (js "Food");
                    calText := NumberToString c; protText := NumberToString p;
                    photoUri := photoUri photoDraft; estimating := false;
                    estimateError := None |}).
Proof.
  apply (server_answer_fills_the_form hermes hermes soupModel uploads (Some upload) photoDraft).
  - vm_compute. reflexivity.
  - reflexivity.
Defined.







